(** * 4plebs post scraper (scraper.js): a shallow embedding and its properties

    The browser script is embedded function by function.  JavaScript values
    are a small inductive type, the network is an oracle answering the
    n-th request, [localStorage] is a finite map from keys to items, and
    the asynchronous functions thread an explicit [world] and take a
    budget of steps ([Pending] is a run that has not settled within it,
    be it still waiting or cut off).  Console output is left out, except
    where building its text can raise, and the DOM traversal of
    [parsePostFromDom] is taken as given: an HTML answer carries the raw
    posts read from its articles. *)

From Stdlib Require Import ZArith List String Ascii Bool Lia.
From Stdlib Require Import Permutation Sorted DecimalString DecimalPos DecimalZ.
From stdpp Require Import gmap strings.
Import ListNotations.

Local Open Scope string_scope.
Local Open Scope Z_scope.

(** ** JavaScript values and built-ins used by the script *)

Module Js.

(** Values that reach the script from JSON documents and DOM attributes.
    A finite number is given by the shortest decimal numeral that reads
    back as it, which is the numeral [ToString] and [JSON.stringify]
    write for it: [VNum n] when that numeral is the integer [n], and
    [VDec m places] for [m / 10^places] otherwise, as 1700000000.5 is
    [VDec 17000000005 1].  [VInf] is the number a JSON numeral beyond the
    range of the doubles reads as.  [NaN] cannot come from JSON; it only
    arises as the result of [parseInt] and is its [None].  Objects are
    those [JSON.parse] and object literals build: their own properties,
    none of them callable, over [Object.prototype].  Strings are
    sequences of 8-bit code units. *)
#[warnings="-register-all"]
Inductive value : Type :=
  | VUndefined
  | VNull
  | VBool (b : bool)
  | VNum (n : Z)
  | VDec (m : Z) (places : positive)
  | VInf (negative : bool)
  | VStr (s : string)
  | VObj (props : list (string * value)).

(** ToBoolean *)
Definition truthy (v : value) : bool :=
  match v with
  | VUndefined | VNull => false
  | VBool b => b
  | VNum n => negb (n =? 0)
  | VDec m _ => negb (m =? 0)
  | VInf _ => true
  | VStr s => negb (s =? "")%string
  | VObj _ => true
  end.

(** [a || b] *)
Definition or (a b : value) : value := if truthy a then a else b.

(** [!!v] is [truthy v]; [v || null]: *)
Definition or_null (v : value) : value := or v VNull.

Fixpoint assoc {A} (k : string) (l : list (string * A)) : option A :=
  match l with
  | [] => None
  | (k', x) :: r => if (k' =? k)%string then Some x else assoc k r
  end.

(** [v?.k] for a property name [k] that no primitive wrapper defines
    (shortname, media_link, ...): undefined unless [v] is an object with
    that own property. *)
Definition get (v : value) (k : string) : value :=
  match v with
  | VObj props => match assoc k props with Some x => x | None => VUndefined end
  | _ => VUndefined
  end.

Definition string_of_Z (n : Z) : string := NilZero.string_of_int (Z.to_int n).

(** *** Number::toString *)

(** The trailing zeros of a positive integer are dropped and counted. *)
Fixpoint shortest (fuel : nat) (s zeros : Z) : Z * Z :=
  match fuel with
  | O => (s, zeros)
  | S fuel =>
      if (s mod 10 =? 0) && negb (s =? 0)
      then shortest fuel (s / 10) (zeros + 1)
      else (s, zeros)
  end.

Fixpoint zeros (n : nat) : string :=
  match n with
  | O => EmptyString
  | S k => String "0" (zeros k)
  end.

(** The numeral of the positive number [s × 10^(n - k)], where [s] has
    [k] digits, the last of them not 0: all its digits when it is an
    integer below 10^21, a decimal point inside or in front of them down
    to 10^-6, and the exponent form otherwise. *)
Definition numeral (s n : Z) : string :=
  let digits := string_of_Z s in
  let k := Z.of_nat (String.length digits) in
  if (k <=? n) && (n <=? 21) then digits ++ zeros (Z.to_nat (n - k))
  else if (0 <? n) && (n <=? 21) then
    substring 0 (Z.to_nat n) digits ++ "."
    ++ substring (Z.to_nat n) (Z.to_nat (k - n)) digits
  else if (-6 <? n) && (n <=? 0) then
    "0." ++ zeros (Z.to_nat (- n)) ++ digits
  else
    let exponent :=
      (if n - 1 <? 0 then "-" else "+") ++ string_of_Z (Z.abs (n - 1)) in
    match digits with
    | String d EmptyString => String d ("e" ++ exponent)
    | String d more => String d ("." ++ more ++ "e" ++ exponent)
    | EmptyString => EmptyString
    end.

(** The numeral of [m × 10^e]. *)
Definition number_to_string (m e : Z) : string :=
  if m =? 0 then "0"
  else
    let (s, dropped) := shortest (Z.to_nat (Z.log2 (Z.abs m))) (Z.abs m) 0 in
    let n := Z.of_nat (String.length (string_of_Z s)) + dropped + e in
    (if m <? 0 then "-" else "") ++ numeral s n.

(** ToString; [None] is the TypeError of an object that cannot be
    converted.  An integer below 10^21 is written with all its digits
    (the digits of [numeral] followed by the zeros that were dropped).
    An object is converted by its [toString] method: the inherited one
    gives "[object Object]"; an own property of that name is not
    callable, nor does [valueOf] give a primitive then, and the
    conversion raises. *)
Definition to_string (v : value) : option string :=
  match v with
  | VUndefined => Some "undefined"
  | VNull => Some "null"
  | VBool true => Some "true"
  | VBool false => Some "false"
  | VNum n =>
      Some (if Z.abs n <? 1000000000000000000000 then string_of_Z n
            else number_to_string n 0)
  | VDec m places => Some (number_to_string m (- Z.pos places))
  | VInf negative => Some (if negative then "-Infinity" else "Infinity")
  | VStr s => Some s
  | VObj props =>
      match assoc "toString" props with
      | Some _ => None
      | None => Some "[object Object]"
      end
  end.

Definition code (a : ascii) : Z := Z.of_N (N_of_ascii a).

(** WhiteSpace and LineTerminator code units below 256: TAB, LF, VT, FF,
    CR, SP and NBSP. *)
Definition is_white_space (a : ascii) : bool :=
  let c := code a in ((9 <=? c) && (c <=? 13)) || (c =? 32) || (c =? 160).

Definition digit_of (a : ascii) : option Z :=
  let c := code a in
  if (48 <=? c) && (c <=? 57) then Some (c - 48) else None.

Fixpoint skip_white (s : string) : string :=
  match s with
  | String a r => if is_white_space a then skip_white r else s
  | EmptyString => s
  end.

(** Value of the longest prefix of decimal digits; [acc] is [None] until a
    digit has been read. *)
Fixpoint leading_digits (acc : option Z) (s : string) : option Z :=
  match s with
  | String a r =>
      match digit_of a with
      | Some d =>
          leading_digits
            (Some (10 * (match acc with Some n => n | None => 0 end) + d)) r
      | None => acc
      end
  | EmptyString => acc
  end.

(** [parseInt(s, 10)]: leading white space is skipped, one sign is
    accepted, then the longest run of digits is read; [None] is NaN. *)
Definition parseInt (s : string) : option Z :=
  match skip_white s with
  | String "-" r => option_map Z.opp (leading_digits None r)
  | String "+" r => leading_digits None r
  | t => leading_digits None t
  end.

(** [parseInt(v, 10)] on any value: the argument goes through ToString,
    which may raise ([None]). *)
Definition parseInt_value (v : value) : option (option Z) :=
  option_map parseInt (to_string v).

Fixpoint includes (c : ascii) (s : string) : bool :=
  match s with
  | String a r => Ascii.eqb a c || includes c r
  | EmptyString => false
  end.

(** [s.replace(/\s+/g, ' ')]: [in_run] tells that the previous unit was
    white space already replaced. *)
Fixpoint collapse_white (in_run : bool) (s : string) : string :=
  match s with
  | String a r =>
      if is_white_space a
      then if in_run then collapse_white true r
           else String " " (collapse_white true r)
      else String a (collapse_white false r)
  | EmptyString => EmptyString
  end.

Fixpoint all_white (s : string) : bool :=
  match s with
  | String a r => is_white_space a && all_white r
  | EmptyString => true
  end.

Fixpoint trim_end (s : string) : string :=
  match s with
  | String a r => if all_white s then EmptyString else String a (trim_end r)
  | EmptyString => EmptyString
  end.

(** [s.trim()] *)
Definition trim (s : string) : string := trim_end (skip_white s).

(** *** Date.prototype.toISOString *)

Definition max_time_value : Z := 8640000000000000.

Definition valid_time (ms : Z) : bool :=
  (- max_time_value <=? ms) && (ms <=? max_time_value).

(** Gregorian date of a day number counted from 1970-01-01. *)
Definition civil_from_days (days : Z) : Z * Z * Z :=
  let z := days + 719468 in
  let era := z / 146097 in
  let doe := z - era * 146097 in
  let yoe := (doe - doe / 1460 + doe / 36524 - doe / 146096) / 365 in
  let doy := doe - (365 * yoe + yoe / 4 - yoe / 100) in
  let mp := (5 * doy + 2) / 153 in
  let d := doy - (153 * mp + 2) / 5 + 1 in
  let m := if mp <? 10 then mp + 3 else mp - 9 in
  let y := yoe + era * 400 + (if m <=? 2 then 1 else 0) in
  (y, m, d).

Fixpoint pad_left (fuel width : nat) (s : string) : string :=
  match fuel with
  | O => s
  | S f =>
      if Nat.ltb (String.length s) width then pad_left f width ("0" ++ s) else s
  end.

(** [String(n).padStart(width, '0')] for a non-negative [n]. *)
Definition digits (width : nat) (n : Z) : string :=
  pad_left width width (string_of_Z n).

Definition iso_year (y : Z) : string :=
  if (0 <=? y) && (y <=? 9999) then digits 4 y
  else if y <? 0 then "-" ++ digits 6 (- y)
  else "+" ++ digits 6 y.

(** [new Date(ms).toISOString()]; [None] is the RangeError raised for an
    invalid time value. *)
Definition toISOString (ms : Z) : option string :=
  if valid_time ms then
    let day := ms / 86400000 in
    let r := ms mod 86400000 in
    let '(y, m, d) := civil_from_days day in
    Some (iso_year y ++ "-" ++ digits 2 m ++ "-" ++ digits 2 d ++ "T"
          ++ digits 2 (r / 3600000) ++ ":" ++ digits 2 ((r / 60000) mod 60)
          ++ ":" ++ digits 2 ((r / 1000) mod 60) ++ "."
          ++ digits 3 (r mod 1000) ++ "Z")
  else None.

End Js.

(** ** Data model *)

(** A completed synchronous computation: a value, or a thrown error. *)
Inductive completion (A : Type) : Type :=
  | Normal (a : A)
  | Throw (error : string).
Arguments Normal {A} a.
Arguments Throw {A} error.

(** The global [CONFIG] object.  Its numeric options are taken to be
    integers that JS numbers hold exactly, as the page numbers counted
    from [startPage] then are. *)
Record Config : Type := {
  username : string;
  tripcode : string;
  boards : string;
  delayMs : Z;
  maxRetries : Z;
  retryBackoffMs : Z;
  startPage : Z;
  storageKey : string;
}.

Definition CONFIG : Config := {|
  username := "";
  tripcode := "";
  boards := "x";
  delayMs := 13000;
  maxRetries := 3;
  retryBackoffMs := 5000;
  startPage := 1;
  storageKey := "4plebs_scrape_progress";
|}.

(** A raw post is the JS object a source produced: its own properties.  A
    field the object lacks reads as [undefined]. *)
Definition RawPost : Type := list (string * Js.value).

Definition field (post : RawPost) (k : string) : Js.value :=
  match Js.assoc k post with Some v => v | None => Js.VUndefined end.

(** The object literal returned by the callback of [normalizePosts].
    [timestamp] is a number or null and [date_iso] a string or null. *)
Module Post.
Record t : Type := mk {
  post_id : Js.value;
  thread_id : Js.value;
  board : Js.value;
  is_op : bool;
  timestamp : option Z;
  date_human : Js.value;
  date_iso : option string;
  name : Js.value;
  tripcode : Js.value;
  poster_id : Js.value;
  country : Js.value;
  subject : Js.value;
  text : string;
  text_html : Js.value;
  has_media : bool;
  media_filename : Js.value;
  media_url : Js.value;
  thumb_url : Js.value;
  deleted : bool;
}.
End Post.

(** The object literal created in [groupByThread]. *)
Module Thread.
Record t : Type := mk {
  thread_id : Js.value;
  board : Js.value;
  posts : list Post.t;
}.
End Thread.

(** *** The network *)

(** What is asked of [fetch]: the query parameters of the API search URL
    in the order they are set, or the segments of the HTML search path
    (before [encodeURIComponent] escapes them). *)
Inductive request : Type :=
  | ApiSearch (params : list (string * string))
  | DomSearch (path : list string).

(** The value of [bucket.posts] in an API document. [PostsOther] is a
    truthy value that is not iterable and has no zero [length], such as an
    object keyed by post number. *)
Inductive posts_field : Type :=
  | PostsMissing
  | PostsArray (posts : list RawPost)
  | PostsOther.

(** The JSON document of an API response: its [error] field and the
    bucket under key 0, if any. *)
Record api_data : Type := {
  data_error : Js.value;
  data_0 : option posts_field;
}.

(** A response. [json] is what [resp.json()] resolves to ([None]: it
    rejects, or the document has no properties to read);
    [retry_after] is [resp.headers.get('Retry-After')]; [articles] are the
    [article.post] elements of the HTML body, each already mapped by
    [parsePostFromDom]. *)
Record response : Type := {
  status : Z;
  statusText : string;
  retry_after : option string;
  json : option api_data;
  articles : list RawPost;
}.

(** [resp.ok] *)
Definition ok (resp : response) : bool :=
  (200 <=? status resp) && (status resp <=? 299).

(** *** Durable storage *)

Record saved_config : Type := {
  saved_username : option string;
  saved_tripcode : option string;
  saved_boards : option string;
}.

(** The document written by [saveProgress], as [JSON.parse] gives it back.
    A field is [None] when the document lacks it. *)
Record saved_doc : Type := {
  doc_posts : option (list RawPost);
  doc_lastPage : option Z;
  doc_timestamp : Z;
  doc_config : option saved_config;
}.

(** An item of [localStorage]: the serialisation of a document, or a
    string that is empty or that [JSON.parse] rejects. *)
Inductive item : Type :=
  | ItemDoc (doc : saved_doc)
  | ItemUnreadable.

(** *** The world the asynchronous code runs in *)

Inductive event : Type :=
  | EFetch (req : request)
  | ESleep (ms : option Z)
  | EDownload (filename : string).

(** [ticks] counts the requests issued so far; [trail] lists the effects
    in the order they happened.  [ESleep None] is [sleep(NaN)]. *)
Record world : Type := {
  ticks : nat;
  localStorage : gmap string item;
  trail : list event;
}.

(** The environment: what the server answers to the n-th request ([None]:
    [fetch] rejects), whether [setItem] accepts a document (it throws when
    the quota is exceeded), [Date.now()] after a number of effects, the
    text content the HTML parser gives for a fragment, and the largest
    number of arguments the engine takes in one call (a call with more
    raises a RangeError). *)
Record browser : Type := {
  server : nat -> request -> option response;
  quota_ok : saved_doc -> bool;
  clock : nat -> Z;
  textContent : string -> string;
  max_arguments : Z;
}.

(** What awaiting an asynchronous function gives within a budget. *)
Inductive outcome (A : Type) : Type :=
  | Returned (a : A) (w : world)
  | Threw (error : string) (w : world)
  | Pending (w : world).
Arguments Returned {A} a w.
Arguments Threw {A} error w.
Arguments Pending {A} w.

(** The value a page fetch resolves to: null, an array of posts, or the
    non-iterable [bucket.posts] handed through by [fetchApiPage]. *)
Inductive page_value : Type :=
  | Null
  | Posts (posts : list RawPost)
  | NotIterable.

(** ** The scraper *)

Section Scraper.

Variable B : browser.
(** The [CONFIG] object as it stands while the functions run. *)
Variable cfg : Config.

Definition record (e : event) (w : world) : world :=
  {| ticks := ticks w; localStorage := localStorage w;
     trail := (trail w ++ [e])%list |}.

(** [await sleep(ms)] *)
Definition sleep (ms : option Z) (w : world) : world := record (ESleep ms) w.

(** [await fetch(...)]: the server's answer to this request, the request
    being counted and recorded. *)
Definition fetch (req : request) (w : world) : option response * world :=
  (server B (ticks w) req,
   {| ticks := S (ticks w); localStorage := localStorage w;
      trail := (trail w ++ [EFetch req])%list |}).

Definition nonempty (s : string) : bool := negb (s =? "")%string.

(** The [URLSearchParams] built by [fetchApiPage]. *)
Definition api_request (page : Z) : request :=
  ApiSearch
    ((if nonempty (boards cfg) then [("boards", boards cfg)] else [])
     ++ (if nonempty (username cfg) then [("username", username cfg)] else [])
     ++ (if nonempty (tripcode cfg) then [("tripcode", tripcode cfg)] else [])
     ++ [("page", Js.string_of_Z page)])%list.

(** The path built by [fetchDomPage]. *)
Definition dom_request (page : Z) : request :=
  let tail :=
    ((if nonempty (username cfg) then ["username"; username cfg] else [])
     ++ (if nonempty (tripcode cfg) then ["tripcode"; tripcode cfg] else [])
     ++ ["page"; Js.string_of_Z page])%list in
  if nonempty (boards cfg) && negb (Js.includes "." (boards cfg))
  then DomSearch ([boards cfg; "search"] ++ tail)%list
  else DomSearch (["_"; "search"] ++ tail)%list.

(** [parseInt(resp.headers.get('Retry-After') || '30', 10)] *)
Definition retryAfter (resp : response) : option Z :=
  Js.parseInt
    (match retry_after resp with
     | Some h => if nonempty h then h else "30"
     | None => "30"
     end).

(** The argument [retryAfter * 1000] of the sleep after a 429. *)
Definition retry_delay (resp : response) : option Z :=
  option_map (fun n => n * 1000) (retryAfter resp).

Definition http_error (resp : response) : string :=
  "HTTP " ++ Js.string_of_Z (status resp) ++ ": " ++ statusText resp.

(** What [fetchApiPage] makes of the JSON document. *)
Definition api_page (data : api_data) : page_value :=
  if Js.truthy (data_error data) then Null
  else match data_0 data with
       | None => Null
       | Some PostsMissing => Null
       | Some (PostsArray []) => Null
       | Some (PostsArray posts) => Posts posts
       | Some PostsOther => NotIterable
       end.

Fixpoint fetchApiPage (fuel : nat) (page : Z) (w : world)
  : outcome page_value :=
  match fuel with
  | O => Pending w
  | S fuel =>
      let (r, w) := fetch (api_request page) w in
      match r with
      | None => Threw "Failed to fetch" w
      | Some resp =>
          if status resp =? 429 then
            fetchApiPage fuel page (sleep (retry_delay resp) w)
          else if negb (ok resp) then Threw (http_error resp) w
          else match json resp with
               | None => Threw "SyntaxError" w
               | Some data => Returned (api_page data) w
               end
      end
  end.

Fixpoint fetchDomPage (fuel : nat) (page : Z) (w : world)
  : outcome page_value :=
  match fuel with
  | O => Pending w
  | S fuel =>
      let (r, w) := fetch (dom_request page) w in
      match r with
      | None => Threw "Failed to fetch" w
      | Some resp =>
          if status resp =? 429 then
            fetchDomPage fuel page (sleep (retry_delay resp) w)
          else if negb (ok resp) then Threw (http_error resp) w
          else match articles resp with
               | [] => Returned Null w
               | posts => Returned (Posts posts) w
               end
      end
  end.

(** *** Progress persistence *)

Definition current_config : saved_config :=
  {| saved_username := Some (username cfg);
     saved_tripcode := Some (tripcode cfg);
     saved_boards := Some (boards cfg) |}.

Definition saveProgress (posts : list RawPost) (nextPage : Z) (w : world)
  : world :=
  let doc := {| doc_posts := Some posts;
                doc_lastPage := Some nextPage;
                doc_timestamp := clock B (List.length (trail w));
                doc_config := Some current_config |} in
  if quota_ok B doc
  then {| ticks := ticks w;
          localStorage := <[storageKey cfg := ItemDoc doc]> (localStorage w);
          trail := trail w |}
  else w.

(** [saved.config.f === CONFIG.f] *)
Definition same (saved : option string) (current : string) : bool :=
  match saved with
  | Some s => (s =? current)%string
  | None => false
  end.

Definition config_matches (c : saved_config) : bool :=
  same (saved_username c) (username cfg)
  && same (saved_tripcode c) (tripcode cfg)
  && same (saved_boards c) (boards cfg).

(** The pair [{ posts, lastPage }]. *)
Definition loadProgress (w : world) : list RawPost * Z :=
  match localStorage w !! storageKey cfg with
  | Some (ItemDoc saved) =>
      match doc_config saved with
      | Some c =>
          if config_matches c then
            (match doc_posts saved with Some posts => posts | None => [] end,
             match doc_lastPage saved with Some n => n | None => 0 end)
          else ([], 0)
      | None => ([], 0)
      end
  | Some ItemUnreadable => ([], 0)
  | None => ([], 0)
  end.

Definition clearProgress (w : world) : world :=
  {| ticks := ticks w;
     localStorage := delete (storageKey cfg) (localStorage w);
     trail := trail w |}.

(** *** The main loop *)

Variable useApi : bool.

Definition fetchPage : nat -> Z -> world -> outcome page_value :=
  if useApi then fetchApiPage else fetchDomPage.

(** How the inner [while (attempt <= CONFIG.maxRetries)] loop is left:
    past its end (by [break] or with the attempts used up) with the value
    of [pagePosts] and of [consecutiveErrors], or by the [return] in the
    catch block. *)
Inductive attempts : Type :=
  | Left (pagePosts : page_value) (consecutiveErrors : Z) (w : world)
  | Stopped (w : world)
  | Waiting (w : world).

Fixpoint retry_loop (fuel : nat) (page : Z) (posts : list RawPost)
    (attempt consecutiveErrors : Z) (w : world) : attempts :=
  if attempt <=? maxRetries cfg then
    match fuel with
    | O => Waiting w
    | S fuel =>
        match fetchPage fuel page w with
        | Returned pagePosts w => Left pagePosts 0 w
        | Threw _ w =>
            let attempt := attempt + 1 in
            let consecutiveErrors := consecutiveErrors + 1 in
            if 5 <=? consecutiveErrors then
              Stopped (saveProgress posts page w)
            else
              let w :=
                if attempt <=? maxRetries cfg
                then sleep (Some (retryBackoffMs cfg * attempt)) w
                else w in
              retry_loop fuel page posts attempt consecutiveErrors w
        | Pending w => Waiting w
        end
    end
  else Left Null consecutiveErrors w.

(** How [scrapeAllPosts] settles. [Completed] is the [return posts] after
    [clearProgress()], [Aborted] the one in the catch block; [Raised] is a
    rejection: [posts.push(...pagePosts)], which is outside the [try],
    raises a TypeError on a value that is not iterable and a RangeError
    on a page with more posts than a call takes arguments. *)
Inductive scrape : Type :=
  | Completed (posts : list RawPost) (w : world)
  | Aborted (posts : list RawPost) (w : world)
  | Raised (error : string) (w : world)
  | Unsettled (w : world).

Fixpoint page_loop (fuel : nat) (page : Z) (posts : list RawPost)
    (consecutiveErrors : Z) (w : world) : scrape :=
  match fuel with
  | O => Unsettled w
  | S fuel =>
      match retry_loop fuel page posts 0 consecutiveErrors w with
      | Waiting w => Unsettled w
      | Stopped w => Aborted posts w
      | Left Null _ w => Completed posts (clearProgress w)
      | Left NotIterable _ w => Raised "TypeError" w
      | Left (Posts pagePosts) consecutiveErrors w =>
          if max_arguments B <? Z.of_nat (List.length pagePosts)
          then Raised "RangeError" w
          else
            let posts := (posts ++ pagePosts)%list in
            let w := saveProgress posts (page + 1) w in
            let page := page + 1 in
            let w := sleep (Some (delayMs cfg)) w in
            page_loop fuel page posts consecutiveErrors w
      end
  end.

(** The accumulator and the page the loop starts with. *)
Definition resume_point (w : world) : list RawPost * Z :=
  let (posts, lastPage) := loadProgress w in
  (posts, if lastPage >? 0 then lastPage else startPage cfg).

Definition scrapeAllPosts (fuel : nat) (w : world) : scrape :=
  let (posts, page) := resume_point w in
  page_loop fuel page posts 0 w.

End Scraper.

(** ** Post-processing *)

Section PostProcessing.

Variable B : browser.

(** [post.op === '1' || post.op === 1] and the like. *)
Definition is_one (v : Js.value) : bool :=
  match v with
  | Js.VStr s => (s =? "1")%string
  | Js.VNum n => n =? 1
  | Js.VDec m places => m =? 10 ^ Z.pos places
  | _ => false
  end.

(** The text of a post: tags stripped when it has any, white space
    collapsed and trimmed.  A chosen comment that is not a string has no
    [includes] method. *)
Definition clean_text (post : RawPost) : completion string :=
  match Js.or (Js.or (field post "comment_sanitized") (field post "comment"))
              (Js.VStr "") with
  | Js.VStr text =>
      let text := if Js.includes "<" text then textContent B text else text in
      Normal (Js.trim (Js.collapse_white false text))
  | _ => Throw "TypeError"
  end.

(** The fields [timestamp] and [date_iso]: both null when the raw
    timestamp is falsy.  Otherwise [parseInt] converts it to a string,
    which raises a TypeError for an object that cannot be converted, and
    [toISOString] raises a RangeError when it does not parse or is out of
    range. *)
Definition temporal (post : RawPost) : completion (option Z * option string) :=
  if Js.truthy (field post "timestamp") then
    match Js.parseInt_value (field post "timestamp") with
    | Some (Some n) =>
        match Js.toISOString (n * 1000) with
        | Some iso => Normal (Some n, Some iso)
        | None => Throw "RangeError"
        end
    | Some None => Throw "RangeError"
    | None => Throw "TypeError"
    end
  else Normal (None, None).

(** The callback of [posts.map] in [normalizePosts]. *)
Definition normalizePost (post : RawPost) : completion Post.t :=
  match clean_text post with
  | Throw e => Throw e
  | Normal text =>
      let board :=
        Js.or (Js.or (Js.get (field post "board") "shortname")
                     (field post "board")) Js.VNull in
      match temporal post with
      | Throw e => Throw e
      | Normal (timestamp, date_iso) =>
          Normal {|
            Post.post_id := Js.or_null (field post "num");
            Post.thread_id := Js.or_null (field post "thread_num");
            Post.board := board;
            Post.is_op := is_one (field post "op");
            Post.timestamp := timestamp;
            Post.date_human := Js.or_null (field post "fourchan_date");
            Post.date_iso := date_iso;
            Post.name := Js.or_null (field post "name");
            Post.tripcode := Js.or_null (field post "trip");
            Post.poster_id := Js.or_null (field post "poster_hash");
            Post.country := Js.or_null (field post "poster_country");
            Post.subject := Js.or_null (field post "title");
            Post.text := text;
            Post.text_html :=
              Js.or (Js.or (field post "comment_processed")
                           (field post "comment_html")) Js.VNull;
            Post.has_media :=
              Js.truthy (Js.or (field post "media") (field post "media_url"));
            Post.media_filename :=
              Js.or (Js.or (Js.get (field post "media") "media_filename")
                           (field post "media_filename")) Js.VNull;
            Post.media_url :=
              Js.or (Js.or (Js.get (field post "media") "media_link")
                           (field post "media_url")) Js.VNull;
            Post.thumb_url :=
              Js.or (Js.or (Js.get (field post "media") "thumb_link")
                           (field post "thumb_url")) Js.VNull;
            Post.deleted := is_one (field post "deleted");
          |}
      end
  end.

Fixpoint normalizePosts (posts : list RawPost) : completion (list Post.t) :=
  match posts with
  | [] => Normal []
  | post :: rest =>
      match normalizePost post with
      | Throw e => Throw e
      | Normal p =>
          match normalizePosts rest with
          | Throw e => Throw e
          | Normal ps => Normal (p :: ps)
          end
      end
  end.

End PostProcessing.

(** *** Grouping by thread *)

(** The [threads] object: its own properties in creation order. *)
Definition threads_object : Type := list (string * Thread.t).

(** [threads] is created as [{}], so besides its own properties it has
    those of [Object.prototype].  These are their names; reading any of
    them from a plain object gives a function (or, for [__proto__], the
    prototype object), which is truthy and has no [posts]. *)
Definition inherited_names : list string :=
  ["constructor"; "__defineGetter__"; "__defineSetter__"; "hasOwnProperty";
   "__lookupGetter__"; "__lookupSetter__"; "isPrototypeOf";
   "propertyIsEnumerable"; "toString"; "valueOf"; "__proto__";
   "toLocaleString"].

Definition inherited (key : string) : bool :=
  existsb (String.eqb key) inherited_names.

(** [post.thread_id || 'unknown'] *)
Definition thread_of (post : Post.t) : Js.value :=
  Js.or (Post.thread_id post) (Js.VStr "unknown").

(** The property key [tid] is converted to; [None] when the conversion
    raises. *)
Definition thread_key (post : Post.t) : option string :=
  Js.to_string (thread_of post).

(** The post goes to the thread under [key]. *)
Definition keyed (key : string) (post : Post.t) : bool :=
  match thread_key post with
  | Some k => (k =? key)%string
  | None => false
  end.

(** [threads[key].posts.push(post)] on an own property. *)
Fixpoint push_post (key : string) (post : Post.t) (threads : threads_object)
  : threads_object :=
  match threads with
  | [] => []
  | (k, t) :: rest =>
      if (k =? key)%string then
        (k, {| Thread.thread_id := Thread.thread_id t;
               Thread.board := Thread.board t;
               Thread.posts := Thread.posts t ++ [post] |}) :: rest
      else (k, t) :: push_post key post rest
  end%list.

(** One iteration of the first loop.  [threads[tid]] converts [tid] to a
    property key, which may raise.  It is falsy only when the key is
    neither an own nor an inherited property; on an inherited one,
    [threads[tid].posts] is undefined and the [push] call raises. *)
Definition group_step (threads : threads_object) (post : Post.t)
  : completion threads_object :=
  let tid := thread_of post in
  match Js.to_string tid with
  | None => Throw "TypeError"
  | Some key =>
      match Js.assoc key threads with
      | Some _ => Normal (push_post key post threads)
      | None =>
          if inherited key then Throw "TypeError"
          else
            let threads :=
              (threads ++ [(key, {| Thread.thread_id := tid;
                                    Thread.board := Post.board post;
                                    Thread.posts := [] |})])%list in
            Normal (push_post key post threads)
      end
  end.

Fixpoint group_loop (threads : threads_object) (posts : list Post.t)
  : completion threads_object :=
  match posts with
  | [] => Normal threads
  | post :: rest =>
      match group_step threads post with
      | Throw e => Throw e
      | Normal threads => group_loop threads rest
      end
  end.

(** [a.timestamp || 0] *)
Definition timestamp_or_0 (p : Post.t) : Z :=
  match Post.timestamp p with
  | Some n => n
  | None => 0
  end.

(** The comparator [(a, b) => (a.timestamp || 0) - (b.timestamp || 0)]. *)
Definition compareFn (a b : Post.t) : Z := timestamp_or_0 a - timestamp_or_0 b.

(** [Array.prototype.sort] is stable: an element goes before the first one
    that does not compare smaller. *)
Fixpoint sort_insert {A} (cmp : A -> A -> Z) (x : A) (l : list A) : list A :=
  match l with
  | [] => [x]
  | y :: r => if cmp x y <=? 0 then x :: y :: r else y :: sort_insert cmp x r
  end.

Definition sort {A} (cmp : A -> A -> Z) (l : list A) : list A :=
  fold_right (sort_insert cmp) [] l.

Definition sort_thread (t : Thread.t) : Thread.t :=
  {| Thread.thread_id := Thread.thread_id t;
     Thread.board := Thread.board t;
     Thread.posts := sort compareFn (Thread.posts t) |}.

(** The canonical numeric strings up to 2^32 - 2 are array indices. *)
Definition array_index (key : string) : option Z :=
  match Js.leading_digits None key with
  | Some n =>
      if (Js.string_of_Z n =? key)%string && (n <=? 4294967294)
      then Some n else None
  | None => None
  end.

Definition is_index (entry : string * Thread.t) : bool :=
  match array_index (fst entry) with Some _ => true | None => false end.

Definition index_order (a b : string * Thread.t) : Z :=
  match array_index (fst a), array_index (fst b) with
  | Some m, Some n => m - n
  | _, _ => 0
  end.

(** [Object.values]: array-index keys in ascending order, then the other
    keys in creation order. *)
Definition Object_values (threads : threads_object) : list Thread.t :=
  map snd (sort index_order (List.filter is_index threads)
           ++ List.filter (fun e => negb (is_index e)) threads)%list.

Definition groupByThread (normalizedPosts : list Post.t)
  : completion (list Thread.t) :=
  match group_loop [] normalizedPosts with
  | Throw e => Throw e
  | Normal threads =>
      Normal (Object_values (map (fun e => (fst e, sort_thread (snd e))) threads))
  end.

(** ** The public interface *)

(** The [userConfig] argument of [run]: the options it sets. *)
Record UserConfig : Type := {
  set_username : option string;
  set_tripcode : option string;
  set_boards : option string;
  set_delayMs : option Z;
  set_maxRetries : option Z;
  set_retryBackoffMs : option Z;
  set_startPage : option Z;
  set_storageKey : option string;
}.

Definition override {A} (new : option A) (old : A) : A :=
  match new with Some x => x | None => old end.

(** [Object.assign(CONFIG, userConfig)] *)
Definition Object_assign (c : Config) (u : UserConfig) : Config := {|
  username := override (set_username u) (username c);
  tripcode := override (set_tripcode u) (tripcode c);
  boards := override (set_boards u) (boards c);
  delayMs := override (set_delayMs u) (delayMs c);
  maxRetries := override (set_maxRetries u) (maxRetries c);
  retryBackoffMs := override (set_retryBackoffMs u) (retryBackoffMs c);
  startPage := override (set_startPage u) (startPage c);
  storageKey := override (set_storageKey u) (storageKey c);
|}.

Definition is_alphanumeric (a : ascii) : bool :=
  let c := Js.code a in
  ((48 <=? c) && (c <=? 57)) || ((65 <=? c) && (c <=? 90))
  || ((97 <=? c) && (c <=? 122)).

(** [s.replace(/[^a-zA-Z0-9]/g, '_')] *)
Fixpoint slug (s : string) : string :=
  match s with
  | String a r => String (if is_alphanumeric a then a else "_"%char) (slug r)
  | EmptyString => EmptyString
  end.

Definition nameSlug (cfg : Config) : string :=
  slug (if nonempty (username cfg) then username cfg
        else if nonempty (tripcode cfg) then tripcode cfg
        else "anon").

(** The three calls of [downloadJson] and [downloadJsonl]. *)
Definition downloads (cfg : Config) (w : world) : world :=
  let file suffix := EDownload ("4plebs_" ++ nameSlug cfg ++ suffix) in
  record (file "_posts.jsonl")
    (record (file "_threaded.json") (record (file "_flat.json") w)).

(** How [run] settles: without a value when no identity is configured,
    with the normalized posts (possibly none), or by a rejection. *)
Inductive run_result : Type :=
  | RunRefused (w : world)
  | RunPosts (normalized : list Post.t) (w : world)
  | RunRaised (error : string) (w : world)
  | RunUnsettled (w : world).

(** The [try]/[catch] around the API scrape. *)
Definition scrape_with_fallback (B : browser) (cfg : Config) (fuel : nat)
    (w : world) : scrape :=
  match scrapeAllPosts B cfg true fuel w with
  | Raised _ w => scrapeAllPosts B cfg false fuel w
  | settled => settled
  end.

(** [boards.join(', ')] in the summary converts every board that is
    truthy to a string; this tells whether all of them can be. *)
Definition boards_join (normalized : list Post.t) : bool :=
  forallb (fun p =>
             negb (Js.truthy (Post.board p))
             || match Js.to_string (Post.board p) with
                | Some _ => true
                | None => false
                end) normalized.

Definition process (B : browser) (cfg : Config) (rawPosts : list RawPost)
    (w : world) : run_result :=
  match rawPosts with
  | [] => RunPosts [] w
  | _ =>
      match normalizePosts B rawPosts with
      | Throw e => RunRaised e w
      | Normal normalized =>
          match groupByThread normalized with
          | Throw e => RunRaised e w
          | Normal _ =>
              if boards_join normalized
              then RunPosts normalized (downloads cfg w)
              else RunRaised "TypeError" w
          end
      end
  end.

(** [run(userConfig)], started with the global configuration [config]. *)
Definition run (B : browser) (fuel : nat) (config : Config)
    (userConfig : UserConfig) (w : world) : run_result :=
  let cfg := Object_assign config userConfig in
  if negb (nonempty (username cfg)) && negb (nonempty (tripcode cfg))
  then RunRefused w
  else
    match scrape_with_fallback B cfg fuel w with
    | Completed rawPosts w | Aborted rawPosts w => process B cfg rawPosts w
    | Raised e w => RunRaised e w
    | Unsettled w => RunUnsettled w
    end.

(** ** Sample environments *)

Definition fresh : world :=
  {| ticks := O; localStorage := ∅; trail := [] |}.

Definition http (code : Z) (text : string) : response :=
  {| status := code; statusText := text; retry_after := None;
     json := None; articles := [] |}.

Definition api_posts (posts : list RawPost) : response :=
  {| status := 200; statusText := "OK"; retry_after := None;
     json := Some {| data_error := Js.VUndefined;
                     data_0 := Some (PostsArray posts) |};
     articles := [] |}.

Definition api_end : response :=
  {| status := 200; statusText := "OK"; retry_after := None;
     json := Some {| data_error := Js.VStr "No results found.";
                     data_0 := None |};
     articles := [] |}.

Definition too_many (header : option string) : response :=
  {| status := 429; statusText := "Too Many Requests";
     retry_after := header; json := None; articles := [] |}.

(** A browser whose server answers the n-th request with the n-th element
    of a script, and fails once the script is used up. *)
Definition scripted (script : list (option response)) : browser :=
  {| server := fun n _ => nth n script None;
     quota_ok := fun _ => true;
     clock := fun n => 1700000000000 + Z.of_nat n;
     textContent := fun s => s;
     max_arguments := 65535 |}.

Definition bob : Config := Object_assign CONFIG
  {| set_username := Some "Bob"; set_tripcode := None; set_boards := None;
     set_delayMs := None; set_maxRetries := None; set_retryBackoffMs := None;
     set_startPage := None; set_storageKey := None |}.

Definition post1 : RawPost :=
  [("num", Js.VStr "101"); ("thread_num", Js.VStr "100");
   ("timestamp", Js.VNum 1700000000); ("comment", Js.VStr "first  post")].
Definition post2 : RawPost :=
  [("num", Js.VStr "102"); ("thread_num", Js.VStr "100");
   ("timestamp", Js.VNum 1600000000); ("comment", Js.VStr "<b>second</b>")].

Definition e500 := Some (http 500 "Internal Server Error").

(** A server that refuses every API request with 403 while its HTML search
    has one page holding [post1]. *)
Definition api_blocked : browser :=
  {| server := fun _ req =>
       match req with
       | ApiSearch _ => Some (http 403 "Forbidden")
       | DomSearch path =>
           Some {| status := 200; statusText := "OK"; retry_after := None;
                   json := None;
                   articles :=
                     if (List.last path "" =? "1")%string then [post1] else [] |}
       end;
     quota_ok := fun _ => true;
     clock := fun n => 1700000000000 + Z.of_nat n;
     textContent := fun s => s;
     max_arguments := 65535 |}.

(** A server whose API documents hold [posts] in a shape that cannot be
    spread, its HTML search being as above. *)
Definition api_malformed : browser :=
  {| server := fun n req =>
       match req with
       | ApiSearch _ =>
           Some {| status := 200; statusText := "OK"; retry_after := None;
                   json := Some {| data_error := Js.VUndefined;
                                   data_0 := Some PostsOther |};
                   articles := [] |}
       | DomSearch _ => server api_blocked n req
       end;
     quota_ok := fun _ => true;
     clock := fun n => 1700000000000 + Z.of_nat n;
     textContent := fun s => s;
     max_arguments := 65535 |}.

(** ** Predicates used in the statements *)

Definition missing (post : RawPost) (k : string) : Prop :=
  Js.assoc k post = None.

(** The field is missing as far as the script can tell: the object has
    no such property, or the property holds null, as in the posts read
    from HTML, or another falsy value. *)
Definition lacking (post : RawPost) (k : string) : Prop :=
  Js.truthy (field post k) = false.

(** The raw timestamp denotes an instant a [Date] can hold. *)
Definition valid_epoch (v : Js.value) : Prop :=
  exists n, Js.parseInt_value v = Some (Some n)
            /\ Js.valid_time (n * 1000) = true.

(** The comment the script picks:
    [post.comment_sanitized || post.comment || '']. *)
Definition picked_comment (post : RawPost) : Js.value :=
  Js.or (Js.or (field post "comment_sanitized") (field post "comment"))
        (Js.VStr "").

(** What is there has the type the archive gives it: a timestamp that is
    there is a number of seconds a [Date] can hold, and the comment the
    script picks, if one is there, is a string. *)
Definition present_fields_typed (post : RawPost) : Prop :=
  (lacking post "timestamp" \/ valid_epoch (field post "timestamp"))
  /\ exists s, picked_comment post = Js.VStr s.

(** What a missing raw field leaves in the normalized post. *)
Definition defaults_for_missing (post : RawPost) (p : Post.t) : Prop :=
  (lacking post "num" -> Post.post_id p = Js.VNull)
  /\ (lacking post "thread_num" -> Post.thread_id p = Js.VNull)
  /\ (lacking post "board" -> Post.board p = Js.VNull)
  /\ (lacking post "timestamp" ->
      Post.timestamp p = None /\ Post.date_iso p = None)
  /\ (lacking post "fourchan_date" -> Post.date_human p = Js.VNull)
  /\ (lacking post "name" -> Post.name p = Js.VNull)
  /\ (lacking post "trip" -> Post.tripcode p = Js.VNull)
  /\ (lacking post "poster_hash" -> Post.poster_id p = Js.VNull)
  /\ (lacking post "poster_country" -> Post.country p = Js.VNull)
  /\ (lacking post "title" -> Post.subject p = Js.VNull)
  /\ (lacking post "comment_processed" -> lacking post "comment_html" ->
      Post.text_html p = Js.VNull)
  /\ (lacking post "media" -> lacking post "media_filename" ->
      Post.media_filename p = Js.VNull)
  /\ (lacking post "media" -> lacking post "media_url" ->
      Post.media_url p = Js.VNull /\ Post.has_media p = false)
  /\ (lacking post "media" -> lacking post "thumb_url" ->
      Post.thumb_url p = Js.VNull)
  /\ (lacking post "comment_sanitized" -> lacking post "comment" ->
      Post.text p = "")
  /\ (lacking post "op" -> Post.is_op p = false)
  /\ (lacking post "deleted" -> Post.deleted p = false).


(** All the posts of a list of threads, thread after thread. *)
Definition flatten (threads : list Thread.t) : list Post.t :=
  concat (map Thread.posts threads).

(** Timestamps, a missing one counting as 0, never decrease along a list. *)
Definition non_decreasing (posts : list Post.t) : Prop :=
  StronglySorted (fun a b => timestamp_or_0 a <= timestamp_or_0 b) posts.

(** Every post has a key, and none is keyed by a name a plain object
    inherits. *)
Definition ordinary_keys (posts : list Post.t) : Prop :=
  Forall (fun p => exists key, thread_key p = Some key
                               /\ inherited key = false) posts.

(** The first post, in input order, that goes to the thread under [key]. *)
Definition first_in_thread (key : string) (posts : list Post.t)
  : option Post.t :=
  find (keyed key) posts.

(** The posts held by the buckets of the [threads] object. *)
Definition bucket_posts (threads : threads_object) : list Post.t :=
  concat (map (fun e => Thread.posts (snd e)) threads).

(** The thread under [key] got its id and board from the first post of
    [done] with that key. *)
Definition created_by (key : string) (t : Thread.t) (done : list Post.t)
  : Prop :=
  exists p0, first_in_thread key done = Some p0
             /\ Thread.thread_id t = thread_of p0
             /\ Thread.board t = Post.board p0.

(** Invariant of the first loop of [groupByThread] once the posts [done]
    have been handled. *)
Definition grouped (threads : threads_object) (done : list Post.t) : Prop :=
  (forall k t, In (k, t) threads -> created_by k t done)
  /\ (forall p, In p done ->
      exists key t, thread_key p = Some key
                    /\ In (key, t) threads /\ In p (Thread.posts t)).

(** A normalized post that has only a thread id, a timestamp and a board. *)
Definition bare_post (thread_id : Js.value) (timestamp : option Z)
    (board : Js.value) : Post.t :=
  {| Post.post_id := Js.VNull; Post.thread_id := thread_id;
     Post.board := board; Post.is_op := false;
     Post.timestamp := timestamp; Post.date_human := Js.VNull;
     Post.date_iso := option_map (fun _ => "1970-01-01T00:00:00.000Z") timestamp;
     Post.name := Js.VNull; Post.tripcode := Js.VNull;
     Post.poster_id := Js.VNull; Post.country := Js.VNull;
     Post.subject := Js.VNull; Post.text := ""; Post.text_html := Js.VNull;
     Post.has_media := false; Post.media_filename := Js.VNull;
     Post.media_url := Js.VNull; Post.thumb_url := Js.VNull;
     Post.deleted := false |}.

Definition sample_posts : list Post.t :=
  [bare_post (Js.VStr "200") (Some 30) (Js.VStr "x");
   bare_post Js.VNull (Some 5) Js.VNull;
   bare_post (Js.VStr "100") (Some 20) (Js.VStr "pol");
   bare_post (Js.VStr "200") (Some 10) Js.VNull;
   bare_post Js.VNull None (Js.VStr "tv");
   bare_post (Js.VNum 100) (Some 20) (Js.VStr "x")].

(** What [groupByThread] makes of the sample. *)
Definition sample_thread_200 : Thread.t :=
  {| Thread.thread_id := Js.VStr "200"; Thread.board := Js.VStr "x";
     Thread.posts := [bare_post (Js.VStr "200") (Some 10) Js.VNull;
                      bare_post (Js.VStr "200") (Some 30) (Js.VStr "x")] |}.

Definition sample_threads : list Thread.t :=
  [ {| Thread.thread_id := Js.VStr "100"; Thread.board := Js.VStr "pol";
       Thread.posts := [bare_post (Js.VStr "100") (Some 20) (Js.VStr "pol");
                        bare_post (Js.VNum 100) (Some 20) (Js.VStr "x")] |};
    sample_thread_200;
    {| Thread.thread_id := Js.VStr "unknown"; Thread.board := Js.VNull;
       Thread.posts := [bare_post Js.VNull None (Js.VStr "tv");
                        bare_post Js.VNull (Some 5) Js.VNull] |} ].

Definition world_of {A} (o : outcome A) : world :=
  match o with
  | Returned _ w | Threw _ w | Pending w => w
  end.

(** The request [fetchPage] issues for a page. *)
Definition page_request (cfg : Config) (useApi : bool) (page : Z) : request :=
  if useApi then api_request cfg page else dom_request cfg page.

(** The record [saveProgress(posts, nextPage)] leaves in storage. *)
Definition checkpoint (cfg : Config) (posts : list RawPost) (nextPage : Z)
    (it : option item) : Prop :=
  exists doc, it = Some (ItemDoc doc)
              /\ doc_posts doc = Some posts
              /\ doc_lastPage doc = Some nextPage
              /\ doc_config doc = Some (current_config cfg).

(** The stored record, if there is one, was saved for the current query. *)
Definition stored_query_differs (cfg : Config) (w : world) : Prop :=
  forall doc c,
    localStorage w !! storageKey cfg = Some (ItemDoc doc) ->
    doc_config doc = Some c ->
    ~ (saved_username c = Some (username cfg)
       /\ saved_tripcode c = Some (tripcode cfg)
       /\ saved_boards c = Some (boards cfg)).

(** A world whose storage holds a checkpoint of another query (board pol
    instead of x). *)
Definition stale : world :=
  {| ticks := O;
     localStorage :=
       {[ storageKey bob :=
            ItemDoc {| doc_posts := Some [post1];
                       doc_lastPage := Some 7;
                       doc_timestamp := 1700000000000;
                       doc_config :=
                         Some {| saved_username := Some "Bob";
                                 saved_tripcode := Some "";
                                 saved_boards := Some "pol" |} |} ]};
     trail := [] |}.

Definition scrape_world (r : scrape) : world :=
  match r with
  | Completed _ w | Aborted _ w | Raised _ w | Unsettled w => w
  end.

(** The server never sends an API document whose [posts] is a truthy
    value that cannot be spread. *)
Definition iterable_posts (B : browser) : Prop :=
  forall n req resp data,
    server B n req = Some resp -> json resp = Some data ->
    data_0 data <> Some PostsOther.

(** An HTTP-date, the other form RFC 9110 allows for Retry-After. *)
Definition http_date : string := "Wed, 21 Oct 2015 07:28:00 GMT".

(** Page 1 has two posts; every later request fails with a 500. *)
Definition failing_after_first_page : browser :=
  {| server := fun n _ =>
       match n with
       | O => Some (api_posts [post1; post2])
       | _ => e500
       end;
     quota_ok := fun _ => true;
     clock := fun n => 1700000000000 + Z.of_nat n;
     textContent := fun s => s;
     max_arguments := 65535 |}.

Definition patient : Config := Object_assign bob
  {| set_username := None; set_tripcode := None; set_boards := None;
     set_delayMs := None; set_maxRetries := Some 4;
     set_retryBackoffMs := None; set_startPage := None;
     set_storageKey := None |}.

Definition only_bob : UserConfig :=
  {| set_username := Some "Bob"; set_tripcode := None; set_boards := None;
     set_delayMs := None; set_maxRetries := None; set_retryBackoffMs := None;
     set_startPage := None; set_storageKey := None |}.

Definition is_dom_fetch (e : event) : bool :=
  match e with
  | EFetch (DomSearch _) => true
  | _ => false
  end.

(** A page source is deterministic when its answer to a request does not
    depend on when the request is made. *)
Definition deterministic (B : browser) : Prop :=
  forall n m req, server B n req = server B m req.

(** What an awaited computation settled with, the world left out. *)
Definition fetched {A} (o : outcome A) : option (A + string) :=
  match o with
  | Returned a _ => Some (inl a)
  | Threw e _ => Some (inr e)
  | Pending _ => None
  end.

Definition attempted (r : attempts) : option (option (page_value * Z)) :=
  match r with
  | Left v c _ => Some (Some (v, c))
  | Stopped _ => Some None
  | Waiting _ => None
  end.

(** How a scrape ended and with which accumulated posts. *)
Inductive ending : Type :=
  | EndCompleted (posts : list RawPost)
  | EndAborted (posts : list RawPost)
  | EndRaised (error : string).

Definition ending_of (r : scrape) : option ending :=
  match r with
  | Completed posts _ => Some (EndCompleted posts)
  | Aborted posts _ => Some (EndAborted posts)
  | Raised e _ => Some (EndRaised e)
  | Unsettled _ => None
  end.

(** Every ending of the loop started at [start] is also the ending of
    the loop started at [later], in any world and with the same budget. *)
Definition ahead (B : browser) (cfg : Config) (useApi : bool)
    (start later : list RawPost * Z) : Prop :=
  forall fuel w w' e,
    ending_of (page_loop B cfg useApi fuel (snd start) (fst start) 0 w)
      = Some e ->
    ending_of (page_loop B cfg useApi fuel (snd later) (fst later) 0 w')
      = Some e.

Definition post3 : RawPost :=
  [("num", Js.VStr "250"); ("thread_num", Js.VStr "200");
   ("timestamp", Js.VStr "1650000000"); ("comment", Js.VStr "third")].

(** An archive with two pages of results, whatever the time of asking. *)
Definition archive : browser :=
  {| server := fun _ req =>
       match req with
       | ApiSearch params =>
           match Js.assoc "page" params with
           | Some "1" => Some (api_posts [post1; post2])
           | Some "2" => Some (api_posts [post3])
           | _ => Some api_end
           end
       | DomSearch _ => None
       end;
     quota_ok := fun _ => true;
     clock := fun n => 1700000000000 + Z.of_nat n;
     textContent := fun s => s;
     max_arguments := 65535 |}.

(** ** The HTML source: [parsePostFromDom] *)

Module Dom.

(** An element, as far as the script reads it: its attributes, its
    [textContent] and its [innerHTML]. *)
Record element : Type := {
  attributes : list (string * string);
  text : string;
  innerHTML : string;
}.

(** An [article.post] element: its class list and what [querySelector]
    finds in it for a selector. *)
Record article : Type := {
  classList : list string;
  querySelector : string -> option element;
}.

(** [el.getAttribute(attr)] *)
Definition getAttribute (el : element) (attr : string) : Js.value :=
  match Js.assoc attr (attributes el) with
  | Some v => Js.VStr v
  | None => Js.VNull
  end.

End Dom.

(** [s.startsWith(p)], giving what follows the prefix. *)
Fixpoint strip_prefix (p s : string) : option string :=
  match p with
  | EmptyString => Some s
  | String a p' =>
      match s with
      | String b s' => if Ascii.eqb a b then strip_prefix p' s' else None
      | EmptyString => None
      end
  end.

Definition is_digit (a : ascii) : bool :=
  let c := Js.code a in (48 <=? c) && (c <=? 57).

(** [\w] *)
Definition is_word (a : ascii) : bool :=
  is_alphanumeric a || (Js.code a =? 95).

(** The longest prefix of characters of a class, and what follows it: a
    greedy [\d+] or [\w+] that is followed by a character outside the
    class never gives characters back. *)
Fixpoint take_while (f : ascii -> bool) (s : string) : string * string :=
  match s with
  | String a r =>
      if f a then let (run, rest) := take_while f r in (String a run, rest)
      else (EmptyString, s)
  | EmptyString => (EmptyString, EmptyString)
  end.

(** The leftmost position at which a pattern matches. *)
Fixpoint search {A} (pattern : string -> option A) (s : string) : option A :=
  match pattern s with
  | Some m => Some m
  | None =>
      match s with
      | String _ r => search pattern r
      | EmptyString => None
      end
  end.

(** One or more characters of a class at the head of [s]. *)
Definition some_of (f : ascii -> bool) (s : string) : option (string * string) :=
  match take_while f s with
  | (EmptyString, _) => None
  | (run, rest) => Some (run, rest)
  end.

(** [/\/thread\/(\d+)\/#(\d+)/] at the head of [s]: the two groups. *)
Definition thread_pattern (s : string) : option (string * string) :=
  match strip_prefix "/thread/" s with
  | Some s1 =>
      match some_of is_digit s1 with
      | Some (thread, s2) =>
          match strip_prefix "/#" s2 with
          | Some s3 =>
              match some_of is_digit s3 with
              | Some (num, _) => Some (thread, num)
              | None => None
              end
          | None => None
          end
      | None => None
      end
  | None => None
  end.

(** [/No\.(\d+)/] at the head of [s]. *)
Definition number_pattern (s : string) : option string :=
  match strip_prefix "No." s with
  | Some s1 => option_map fst (some_of is_digit s1)
  | None => None
  end.

(** [href.match(/^\/(\w+)\//)]: the group. *)
Definition board_match (href : string) : option string :=
  match strip_prefix "/" href with
  | Some s1 =>
      match some_of is_word s1 with
      | Some (board, s2) =>
          match strip_prefix "/" s2 with
          | Some _ => Some board
          | None => None
          end
      | None => None
      end
  | None => None
  end.

(** The loop over [article.classList]: what follows [doc_id_] in the first
    class that starts with it. *)
Fixpoint doc_id (classes : list string) : Js.value :=
  match classes with
  | [] => Js.VNull
  | cls :: rest =>
      match strip_prefix "doc_id_" cls with
      | Some id => Js.VStr id
      | None => doc_id rest
      end
  end.

(** [postLink.getAttribute('href') || ''] *)
Definition href_of (postLink : Dom.element) : string :=
  match Js.assoc "href" (Dom.attributes postLink) with
  | Some h => h
  | None => ""
  end.

Definition of_option (o : option string) : Js.value :=
  match o with
  | Some s => Js.VStr s
  | None => Js.VNull
  end.

Definition parsePostFromDom (article : Dom.article) : RawPost :=
  let getText sel :=
    match Dom.querySelector article sel with
    | Some el => Js.VStr (Js.trim (Dom.text el))
    | None => Js.VNull
    end in
  let getAttr sel attr :=
    match Dom.querySelector article sel with
    | Some el => Dom.getAttribute el attr
    | None => Js.VNull
    end in
  let docId := doc_id (Dom.classList article) in
  let postLink := Dom.querySelector article ".post_controls a" in
  let '(threadNum, num) :=
    match postLink with
    | Some el =>
        match search thread_pattern (href_of el) with
        | Some (thread, n) => (Js.VStr thread, Js.VStr n)
        | None => (Js.VNull, of_option (search number_pattern (Dom.text el)))
        end
    | None => (Js.VNull, Js.VNull)
    end in
  let board :=
    match postLink with
    | Some el => of_option (board_match (href_of el))
    | None => Js.VNull
    end in
  let timeEl := Dom.querySelector article ".time_wrap time" in
  let timestamp :=
    match timeEl with
    | Some el => Dom.getAttribute el "datetime"
    | None => Js.VNull
    end in
  let fourchanDate :=
    match timeEl with
    | Some el => Js.VStr (Js.trim (Dom.text el))
    | None => Js.VNull
    end in
  let commentEl := Dom.querySelector article ".text" in
  let commentHtml :=
    match commentEl with
    | Some el => Js.VStr (Js.trim (Dom.innerHTML el))
    | None => Js.VNull
    end in
  let commentText :=
    match commentEl with
    | Some el => Js.VStr (Js.trim (Dom.text el))
    | None => Js.VNull
    end in
  [("doc_id", docId);
   ("num", num);
   ("thread_num", threadNum);
   ("board", board);
   ("op", Js.VStr (if existsb (String.eqb "post_is_op") (Dom.classList article)
                   then "1" else "0"));
   ("timestamp", timestamp);
   ("fourchan_date", fourchanDate);
   ("name", getText ".post_author");
   ("trip", getText ".post_tripcode");
   ("title", getText ".post_title");
   ("poster_hash", getText ".poster_hash");
   ("comment", commentText);
   ("comment_html", commentHtml);
   ("media_url", getAttr ".thread_image_link" "href");
   ("thumb_url", getAttr ".post_image" "src");
   ("media_filename", getText ".post_file_filename");
   ("_source", Js.VStr "dom")].

(** The answer of the HTML search for a document with these articles. *)
Definition html_page (found : list Dom.article) : response :=
  {| status := 200; statusText := "OK"; retry_after := None; json := None;
     articles := map parsePostFromDom found |}.

(** An article as the archive renders one. *)
Definition sample_article : Dom.article :=
  {| Dom.classList := ["post"; "doc_id_4242"; "post_is_op"];
     Dom.querySelector := fun sel =>
       if (sel =? ".post_controls a")%string then
         Some {| Dom.attributes := [("href", "/x/thread/100/#101")];
                 Dom.text := "No.101"; Dom.innerHTML := "No.101" |}
       else if (sel =? ".time_wrap time")%string then
         Some {| Dom.attributes := [("datetime", "2014-03-01T12:00:00+00:00")];
                 Dom.text := " Sat 01 Mar 2014 12:00:00 ";
                 Dom.innerHTML := "" |}
       else if (sel =? ".text")%string then
         Some {| Dom.attributes := []; Dom.text := " hello  world ";
                 Dom.innerHTML := " hello <br> world " |}
       else None |}.

(** ** Further predicates *)

Fixpoint all_of (f : ascii -> bool) (s : string) : bool :=
  match s with
  | String a r => f a && all_of f r
  | EmptyString => true
  end.

(** Null, or a non-empty string of characters of a class. *)
Definition null_or_run (f : ascii -> bool) (v : Js.value) : Prop :=
  v = Js.VNull \/ exists s, v = Js.VStr s /\ s <> "" /\ all_of f s = true.

(** Value of a decimal numeral read after [acc]. *)
Fixpoint uint_value (d : Decimal.uint) (acc : Z) : Z :=
  match d with
  | Decimal.Nil => acc
  | Decimal.D0 l => uint_value l (10 * acc + 0)
  | Decimal.D1 l => uint_value l (10 * acc + 1)
  | Decimal.D2 l => uint_value l (10 * acc + 2)
  | Decimal.D3 l => uint_value l (10 * acc + 3)
  | Decimal.D4 l => uint_value l (10 * acc + 4)
  | Decimal.D5 l => uint_value l (10 * acc + 5)
  | Decimal.D6 l => uint_value l (10 * acc + 6)
  | Decimal.D7 l => uint_value l (10 * acc + 7)
  | Decimal.D8 l => uint_value l (10 * acc + 8)
  | Decimal.D9 l => uint_value l (10 * acc + 9)
  end.

(** The string does not go on with a digit. *)
Definition no_digit_ahead (s : string) : Prop :=
  match s with
  | String c _ => Js.digit_of c = None
  | EmptyString => True
  end.

(** Null or truthy: what [v || null] can be. *)
Definition null_or_truthy (v : Js.value) : Prop :=
  v = Js.VNull \/ Js.truthy v = true.

(** A string whose only white space is single spaces between other
    characters. [after_space] tells that a space may not come next. *)
Fixpoint tidy_from (after_space : bool) (s : string) : bool :=
  match s with
  | String a r =>
      if Js.is_white_space a then
        Ascii.eqb a " " && negb after_space
        && match r with EmptyString => false | _ => true end
        && tidy_from true r
      else tidy_from false r
  | EmptyString => true
  end.

Definition tidy (s : string) : bool := tidy_from true s.

(** *** What the server does at a tick *)

Section Answers.

Variable B : browser.
Variable cfg : Config.
Variable useApi : bool.

(** The request for [page] made at [tick] gets a good answer that the
    fetch turns into [v]. *)
Definition delivers (tick : nat) (page : Z) (v : page_value) : Prop :=
  exists resp,
    server B tick (page_request cfg useApi page) = Some resp
    /\ ok resp = true
    /\ if useApi
       then exists data, json resp = Some data /\ api_page data = v
       else v = match articles resp with [] => Null | posts => Posts posts end.

(** The request for [page] made at [tick] ends in a transport error:
    [fetch] rejects, the status is neither 429 nor a success, or the body
    of an API answer is not JSON. *)
Definition fails (tick : nat) (page : Z) : Prop :=
  match server B tick (page_request cfg useApi page) with
  | None => True
  | Some resp =>
      status resp <> 429
      /\ (ok resp = false \/ (useApi = true /\ json resp = None))
  end.

Fixpoint fails_in_a_row (tick : nat) (page : Z) (n : nat) : Prop :=
  match n with
  | O => True
  | S k => fails tick page /\ fails_in_a_row (S tick) page k
  end.

(** From [tick] on, the requests for [page] are answered by 429s asking
    for these delays. *)
Fixpoint limited (tick : nat) (page : Z) (delays : list (option Z)) : Prop :=
  match delays with
  | [] => True
  | d :: rest =>
      (exists resp,
         server B tick (page_request cfg useApi page) = Some resp
         /\ status resp = 429 /\ retry_delay resp = d)
      /\ limited (S tick) page rest
  end.

(** From [tick] on, page after page is served: each entry of the script
    gives the number of failed requests before the page arrives, and its
    posts; [after] says what follows the last page. *)
Fixpoint served (tick : nat) (page : Z) (script : list (nat * list RawPost))
    (after : nat -> Z -> Prop) : Prop :=
  match script with
  | [] => after tick page
  | (failures, posts) :: rest =>
      posts <> []
      /\ fails_in_a_row tick page failures
      /\ delivers (failures + tick) page (Posts posts)
      /\ served (S (failures + tick)) (page + 1) rest after
  end.

(** The requests and back-off sleeps of [n] failed attempts, the first
    being attempt number [attempt]. *)
Fixpoint retries_trail (page : Z) (attempt : Z) (n : nat) : list event :=
  match n with
  | O => []
  | S k =>
      EFetch (page_request cfg useApi page)
      :: ESleep (Some (retryBackoffMs cfg * attempt))
      :: retries_trail page (attempt + 1) k
  end.

(** The effects of fetching the pages of a script. *)
Fixpoint crawl_trail (page : Z) (script : list (nat * list RawPost))
  : list event :=
  match script with
  | [] => []
  | (failures, _) :: rest =>
      (retries_trail page 1 failures
       ++ EFetch (page_request cfg useApi page)
          :: ESleep (Some (delayMs cfg))
          :: crawl_trail (page + 1) rest)%list
  end.

(** The requests and sleeps of a fetch that meets 429s. *)
Fixpoint limited_trail (page : Z) (delays : list (option Z)) : list event :=
  match delays with
  | [] => []
  | d :: rest =>
      EFetch (page_request cfg useApi page) :: ESleep d
      :: limited_trail page rest
  end.

End Answers.

(** The number of requests a script takes. *)
Fixpoint requests (script : list (nat * list RawPost)) : nat :=
  match script with
  | [] => O
  | (failures, _) :: rest => S (failures + requests rest)
  end.

Definition script_posts (script : list (nat * list RawPost)) : list RawPost :=
  concat (map snd script).

(** No page of the script fails more often than the retries allow or
    than the breaker bears, nor holds more posts than [push] takes
    arguments. *)
Definition tolerable (B : browser) (cfg : Config)
    (script : list (nat * list RawPost)) : Prop :=
  Forall (fun entry => Z.of_nat (fst entry) <= maxRetries cfg
                       /\ (fst entry <= 4)%nat
                       /\ Z.of_nat (List.length (snd entry))
                          <= max_arguments B)
         script.

(** The world after [n] more requests and these effects. *)
Definition advance (n : nat) (events : list event) (w : world) : world :=
  {| ticks := n + ticks w; localStorage := localStorage w;
     trail := (trail w ++ events)%list |}.

(** Two browsers of the same make that face the same server. *)
Definition same_server (B B' : browser) : Prop :=
  max_arguments B = max_arguments B'
  /\ forall n req, server B n req = server B' n req.

Definition is_download (e : event) : bool :=
  match e with
  | EDownload _ => true
  | _ => false
  end.

(** The posts of the input that go to the thread under [key]. *)
Definition posts_of_key (key : string) (posts : list Post.t) : list Post.t :=
  List.filter (keyed key) posts.

(** The key of a returned thread. *)
Definition key_of (t : Thread.t) : option string :=
  Js.to_string (Thread.thread_id t).

(** A server that answers 429 three times, then with one page. *)
Definition throttled : browser :=
  scripted [Some (too_many (Some "2")); Some (too_many None);
            Some (too_many (Some http_date)); Some (api_posts [post1])].

(** Page 1 after two failures, page 2 at once, then one failure and the
    end of the results. *)
Definition flaky : browser :=
  scripted [e500; None; Some (api_posts [post1; post2]);
            Some (api_posts [post3]); e500; Some api_end].

Definition flaky_script : list (nat * list RawPost) :=
  [(2%nat, [post1; post2]); (O, [post3])].

(** As [tidy_from], a space at the end being allowed. *)
Fixpoint loose_from (after_space : bool) (s : string) : bool :=
  match s with
  | String a r =>
      if Js.is_white_space a then
        Ascii.eqb a " " && negb after_space && loose_from true r
      else loose_from false r
  | EmptyString => true
  end.

(** The fields of a normalized post that are filled by [... || null]:
    all the nullable fields but [timestamp] and [date_iso]. *)
Definition defaulted_fields (p : Post.t) : list Js.value :=
  [Post.post_id p; Post.thread_id p; Post.board p; Post.date_human p;
   Post.name p; Post.tripcode p; Post.poster_id p; Post.country p;
   Post.subject p; Post.text_html p; Post.media_filename p;
   Post.media_url p; Post.thumb_url p].

(** The document [saveProgress(posts, nextPage)] hands to [setItem]. *)
Definition progress_doc (B : browser) (cfg : Config) (posts : list RawPost)
    (nextPage : Z) (w : world) : saved_doc :=
  {| doc_posts := Some posts;
     doc_lastPage := Some nextPage;
     doc_timestamp := clock B (List.length (trail w));
     doc_config := Some (current_config cfg) |}.

(** The [datetime] attribute of the time element of an article, when it
    is there. *)
Definition datetime_of (a : Dom.article) : option string :=
  match Dom.querySelector a ".time_wrap time" with
  | Some el => Js.assoc "datetime" (Dom.attributes el)
  | None => None
  end.

(** An article in which no selector finds anything. *)
Definition bare_article : Dom.article :=
  {| Dom.classList := ["post"]; Dom.querySelector := fun _ => None |}.

(** An article whose time element carries a date in words. *)
Definition worded_article : Dom.article :=
  {| Dom.classList := ["post"];
     Dom.querySelector := fun sel =>
       if (sel =? ".time_wrap time")%string then
         Some {| Dom.attributes := [("datetime", "Sat, 01 Mar 2014")];
                 Dom.text := "Sat 01 Mar 2014"; Dom.innerHTML := "" |}
       else None |}.

(** Second invariant of the first loop of [groupByThread]: the keys are
    distinct and each bucket holds, in input order, the posts handled so
    far that have its key. *)
Definition bucketed (threads : threads_object) (done : list Post.t) : Prop :=
  List.NoDup (map fst threads)
  /\ forall k t, In (k, t) threads -> Thread.posts t = posts_of_key k done.

(** Two worlds that differ at most in what [localStorage] holds. *)
Definition alike (w w' : world) : Prop :=
  ticks w = ticks w' /\ trail w = trail w'.

Definition outcome_alike {A} (o o' : outcome A) : Prop :=
  match o, o' with
  | Returned v w, Returned v' w' => v = v' /\ alike w w'
  | Threw e w, Threw e' w' => e = e' /\ alike w w'
  | Pending w, Pending w' => alike w w'
  | _, _ => False
  end.

Definition attempts_alike (a a' : attempts) : Prop :=
  match a, a' with
  | Left v c w, Left v' c' w' => v = v' /\ c = c' /\ alike w w'
  | Stopped w, Stopped w' => alike w w'
  | Waiting w, Waiting w' => alike w w'
  | _, _ => False
  end.

(** Two runs that settle the same way, with the same posts, after the
    same requests and sleeps. *)
Definition scrape_alike (s s' : scrape) : Prop :=
  match s, s' with
  | Completed posts w, Completed posts' w' => posts = posts' /\ alike w w'
  | Aborted posts w, Aborted posts' w' => posts = posts' /\ alike w w'
  | Raised e w, Raised e' w' => e = e' /\ alike w w'
  | Unsettled w, Unsettled w' => alike w w'
  | _, _ => False
  end.

(** The same browser with a storage that takes nothing: every
    [localStorage.setItem] raises. *)
Definition without_storage (B : browser) : browser :=
  {| server := server B; quota_ok := fun _ => false;
     clock := clock B; textContent := textContent B;
     max_arguments := max_arguments B |}.

(** The files offered for download so far. *)
Definition downloaded (w : world) : list event :=
  List.filter is_download (trail w).

Definition attempts_world (a : attempts) : world :=
  match a with
  | Left _ _ w | Stopped w | Waiting w => w
  end.

(** The three files of a run for this configuration. *)
Definition three_files (cfg : Config) : list event :=
  [EDownload ("4plebs_" ++ nameSlug cfg ++ "_flat.json");
   EDownload ("4plebs_" ++ nameSlug cfg ++ "_threaded.json");
   EDownload ("4plebs_" ++ nameSlug cfg ++ "_posts.jsonl")].

(** *** The answers a run hears *)

(** How the script takes the answer to a page request: a 429 to be waited
    out, a transport error ([fetchPage] throws), or a page. *)
Inductive answer : Type :=
  | Limited
  | Failed
  | Page (v : page_value).

Definition classify (useApi : bool) (r : option response) : answer :=
  match r with
  | None => Failed
  | Some resp =>
      if status resp =? 429 then Limited
      else if negb (ok resp) then Failed
      else if useApi then
        match json resp with
        | None => Failed
        | Some data => Page (api_page data)
        end
      else Page (match articles resp with [] => Null | posts => Posts posts end)
  end.

(** The answers to the requests among [events], the first of which is
    made at [tick]. *)
Fixpoint answers (B : browser) (useApi : bool) (tick : nat)
    (events : list event) : list answer :=
  match events with
  | [] => []
  | EFetch req :: rest =>
      classify useApi (server B tick req) :: answers B useApi (S tick) rest
  | _ :: rest => answers B useApi tick rest
  end.

(** The answers heard between two worlds of one run. *)
Definition heard (B : browser) (useApi : bool) (w w' : world) : list answer :=
  answers B useApi (ticks w) (skipn (List.length (trail w)) (trail w')).

(** The number of transport errors in a row at the end of the answers,
    [c] of them having come before: a page starts the count again, a 429
    leaves it as it is. *)
Fixpoint streak (c : nat) (answers : list answer) : nat :=
  match answers with
  | [] => c
  | Failed :: rest => streak (S c) rest
  | Limited :: rest => streak c rest
  | Page _ :: rest => streak 0 rest
  end.

(** The largest number of transport errors in a row, with no page in
    between, that the answers show. *)
Fixpoint peak (c : nat) (answers : list answer) : nat :=
  match answers with
  | [] => c
  | Failed :: rest => peak (S c) rest
  | Limited :: rest => peak c rest
  | Page _ :: rest => Nat.max c (peak 0 rest)
  end.

(** The posts of the pages among the answers. *)
Fixpoint collected (answers : list answer) : list RawPost :=
  match answers with
  | [] => []
  | Page (Posts posts) :: rest => (posts ++ collected rest)%list
  | _ :: rest => collected rest
  end.

(** The number of requests among the events. *)
Fixpoint fetches (events : list event) : nat :=
  match events with
  | [] => O
  | EFetch _ :: rest => S (fetches rest)
  | _ :: rest => fetches rest
  end.

(** What happened between two worlds: these events, the requests among
    them being counted. *)
Definition ran (w w' : world) (events : list event) : Prop :=
  trail w' = (trail w ++ events)%list
  /\ ticks w' = (fetches events + ticks w)%nat.

(** No page the server sends for a source holds more posts than a call
    takes arguments. *)
Definition pages_fit (B : browser) (useApi : bool) : Prop :=
  forall n req resp,
    server B n req = Some resp ->
    if useApi then
      forall data posts,
        json resp = Some data -> data_0 data = Some (PostsArray posts) ->
        Z.of_nat (List.length posts) <= max_arguments B
    else Z.of_nat (List.length (articles resp)) <= max_arguments B.

(** A browser whose engine takes one argument, facing an API whose
    documents cannot be spread and an HTML search whose pages hold two
    posts. *)
Definition cramped : browser :=
  {| server := fun n req =>
       match req with
       | ApiSearch _ => server api_malformed n req
       | DomSearch _ =>
           Some {| status := 200; statusText := "OK"; retry_after := None;
                   json := None; articles := [post1; post2] |}
       end;
     quota_ok := fun _ => true;
     clock := fun n => 1700000000000 + Z.of_nat n;
     textContent := fun s => s;
     max_arguments := 1 |}.
(** ** Properties of the post-processing *)

Lemma missing_lacking post k : missing post k -> lacking post k.
Proof. unfold missing, lacking, field. now intros ->. Qed.

(** The falsy values. *)
Lemma lacking_cases post k :
  lacking post k ->
  field post k = Js.VUndefined \/ field post k = Js.VNull
  \/ field post k = Js.VBool false \/ field post k = Js.VNum 0
  \/ (exists places, field post k = Js.VDec 0 places)
  \/ field post k = Js.VStr "".
Proof.
  unfold lacking.
  destruct (field post k) as [| |[|]|n|m places|negative|s|props]; simpl;
    try discriminate; auto.
  - intros H. apply negb_false_iff, Z.eqb_eq in H. subst. auto.
  - intros H. apply negb_false_iff, Z.eqb_eq in H. subst.
    do 4 right. left. now exists places.
  - intros H. apply negb_false_iff, String.eqb_eq in H. subst.
    do 5 right. reflexivity.
Qed.

Lemma lacking_or post k v :
  lacking post k -> Js.or (field post k) v = v.
Proof. unfold lacking, Js.or. now intros ->. Qed.

Lemma lacking_get post k name :
  lacking post k -> Js.get (field post k) name = Js.VUndefined.
Proof.
  intros H.
  destruct (lacking_cases _ _ H) as [-> | [-> | [-> | [-> | [[q ->] | ->]]]]];
    reflexivity.
Qed.

Lemma lacking_is_one post k : lacking post k -> is_one (field post k) = false.
Proof.
  intros H.
  destruct (lacking_cases _ _ H) as [-> | [-> | [-> | [-> | [[q ->] | ->]]]]];
    try reflexivity.
  unfold is_one. apply Z.eqb_neq.
  pose proof (Z.pow_pos_nonneg 10 (Z.pos q)). lia.
Qed.

Lemma toISOString_valid ms :
  Js.valid_time ms = true -> exists iso, Js.toISOString ms = Some iso.
Proof.
  intros H. unfold Js.toISOString. rewrite H.
  destruct (Js.civil_from_days (ms / 86400000)) as [[y m] d]. eauto.
Qed.

Lemma temporal_typed post :
  lacking post "timestamp" \/ valid_epoch (field post "timestamp") ->
  exists r, temporal post = Normal r.
Proof.
  unfold temporal. intros [Hm | (n & Hn & Hv)].
  - rewrite Hm. eauto.
  - destruct (Js.truthy (field post "timestamp")); [|eauto].
    rewrite Hn. destruct (toISOString_valid _ Hv) as [iso ->]. eauto.
Qed.

(** Comment fields each of which is missing or a string give a string to
    pick. *)
Lemma comment_fields_typed post :
  (lacking post "comment_sanitized"
   \/ exists s, field post "comment_sanitized" = Js.VStr s) ->
  (lacking post "comment" \/ exists s, field post "comment" = Js.VStr s) ->
  exists s, picked_comment post = Js.VStr s.
Proof.
  unfold picked_comment. intros Hs Hc.
  { destruct Hs as [Hs | [s Hs]].
    - rewrite (lacking_or _ _ _ Hs).
      destruct Hc as [Hc | [c Hc]].
      + rewrite (lacking_or _ _ _ Hc). eauto.
      + rewrite Hc. unfold Js.or. destruct (Js.truthy (Js.VStr c)); eauto.
    - rewrite Hs. unfold Js.or at 2.
      destruct (Js.truthy (Js.VStr s)).
      + unfold Js.or. destruct (Js.truthy (Js.VStr s)); eauto.
      + destruct Hc as [Hc | [c Hc]].
        * change (field post "comment") with (field post "comment").
          rewrite (lacking_or _ _ _ Hc). eauto.
        * rewrite Hc. unfold Js.or. destruct (Js.truthy (Js.VStr c)); eauto. }
Qed.

Lemma clean_text_typed B post :
  (exists s, picked_comment post = Js.VStr s) <->
  exists text, clean_text B post = Normal text.
Proof.
  unfold clean_text. fold (picked_comment post). split.
  - intros [s ->]. eauto.
  - intros [text H]. destruct (picked_comment post); try discriminate H. eauto.
Qed.

Lemma temporal_returns post r :
  temporal post = Normal r ->
  lacking post "timestamp" \/ valid_epoch (field post "timestamp").
Proof.
  unfold temporal, lacking, valid_epoch.
  destruct (Js.truthy (field post "timestamp")); [|now left].
  destruct (Js.parseInt_value (field post "timestamp")) as [[n|]|];
    try discriminate.
  unfold Js.toISOString.
  destruct (Js.valid_time (n * 1000)) eqn:Hv; [|discriminate].
  intros _. right. now exists n.
Qed.

Lemma temporal_lacking post r :
  temporal post = Normal r -> lacking post "timestamp" -> r = (None, None).
Proof. unfold temporal. intros H Hm. rewrite Hm in H. congruence. Qed.

Lemma clean_text_lacking B post text :
  clean_text B post = Normal text ->
  lacking post "comment_sanitized" -> lacking post "comment" -> text = "".
Proof.
  unfold clean_text. intros H Hs Hc.
  rewrite (lacking_or _ _ _ Hs), (lacking_or _ _ _ Hc) in H.
  vm_compute in H. congruence.
Qed.

Lemma normalizePost_defaults B post p :
  normalizePost B post = Normal p -> defaults_for_missing post p.
Proof.
  unfold normalizePost. intros H.
  destruct (clean_text B post) as [text|] eqn:Ht; [|discriminate].
  destruct (temporal post) as [[ts iso]|] eqn:Hd; [|discriminate].
  injection H as <-.
  pose proof (temporal_lacking _ _ Hd) as Et.
  pose proof (clean_text_lacking _ _ _ Ht) as Ec.
  unfold defaults_for_missing. simpl.
  repeat match goal with |- _ /\ _ => split end; intros;
    try (specialize (Et ltac:(assumption)); injection Et as -> ->);
    try (apply Ec; assumption);
    try (apply lacking_is_one; assumption);
    unfold Js.or_null, Js.or;
    repeat match goal with
           | M : lacking _ _ |- _ =>
               rewrite ?(lacking_get _ _ _ M); unfold lacking in M
           end;
    cbn [Js.truthy];
    repeat match goal with
           | M : Js.truthy _ = false |- _ => rewrite M
           end; try reflexivity; try (split; reflexivity).
Qed.

Lemma normalizePost_typed B post :
  present_fields_typed post <-> exists p, normalizePost B post = Normal p.
Proof.
  unfold normalizePost. split.
  - intros (Ht & Hc).
    destruct (proj1 (clean_text_typed B post) Hc) as [text ->].
    destruct (temporal_typed post Ht) as [[ts iso] ->]. eauto.
  - intros [p H].
    destruct (clean_text B post) as [text|] eqn:Hc; [|discriminate].
    destruct (temporal post) as [[ts iso]|] eqn:Ht; [|discriminate].
    split; [now apply (temporal_returns post (ts, iso))|].
    apply (clean_text_typed B post). eauto.
Qed.

(** C8: [normalizePosts] does not raise on raw posts whose fields are
    missing, be it that the object has no such property or that the
    property holds null or another falsy value (a timestamp that is there
    being a number of seconds a [Date] can hold and the comment that is
    picked a string): it returns one record per raw post, every record
    has all the fields of [Post.t], and a missing raw field leaves null
    in the nullable fields (the empty string for [text], false for the
    flags). *)
Theorem normalize_tolerates_missing_fields (B : browser) (posts : list RawPost) :
  Forall present_fields_typed posts ->
  exists out,
    normalizePosts B posts = Normal out
    /\ Forall2 defaults_for_missing posts out.
Proof.
  induction 1 as [|post rest Hpost _ (out & Hout & Hall)]; simpl.
  - exists []. split; [reflexivity | constructor].
  - destruct (proj1 (normalizePost_typed B post) Hpost) as [p Hp].
    rewrite Hp, Hout. exists (p :: out). split; [reflexivity|].
    constructor; [|exact Hall]. now apply (normalizePost_defaults B).
Qed.

(** It raises in no other case: whenever it returns, what is there in the
    raw posts is typed. *)
Lemma normalize_raises_only_on_present_fields (B : browser)
    (posts : list RawPost) (out : list Post.t) :
  normalizePosts B posts = Normal out -> Forall present_fields_typed posts.
Proof.
  revert out. induction posts as [|post rest IH]; simpl; intros out H.
  - constructor.
  - destruct (normalizePost B post) as [p|] eqn:Hp; [|discriminate].
    destruct (normalizePosts B rest) as [ps|]; [|discriminate].
    constructor; [|now apply (IH ps)].
    apply (normalizePost_typed B post). eauto.
Qed.

Lemma normalize_tolerates_missing_fields_witness :
  let posts := [post1; []; [("timestamp", Js.VNull); ("comment", Js.VNull)];
                parsePostFromDom bare_article] in
  Forall present_fields_typed posts
  /\ exists out,
       normalizePosts (scripted []) posts = Normal out
       /\ Forall2 defaults_for_missing posts out.
Proof.
  intros posts.
  assert (H : Forall present_fields_typed posts).
  { repeat apply List.Forall_cons; try apply List.Forall_nil.
    - split; [right; exists 1700000000; split; reflexivity|].
      now exists "first  post".
    - split; [left; reflexivity | now exists ""].
    - split; [left; reflexivity | now exists ""].
    - split; [left; reflexivity | now exists ""]. }
  split; [exact H | exact (normalize_tolerates_missing_fields _ _ H)].
Defined.

(** A field that is there can make the callback raise: a timestamp that
    does not parse, one outside the range of [Date] or one that cannot be
    converted to a string, and a comment that is not a string. *)
Example normalize_raises_on_present_fields :
  normalizePosts (scripted []) [[("timestamp", Js.VStr "soon")]]
    = Throw "RangeError"
  /\ normalizePosts (scripted []) [[("timestamp", Js.VNum 8640000000001)]]
    = Throw "RangeError"
  /\ normalizePosts (scripted [])
       [[("timestamp", Js.VObj [("toString", Js.VNum 1)])]]
    = Throw "TypeError"
  /\ normalizePosts (scripted []) [post1; [("comment", Js.VNum 7)]]
    = Throw "TypeError".
Proof. repeat split; reflexivity. Qed.

Lemma temporal_jointly_null post ts iso :
  temporal post = Normal (ts, iso) -> ts = None <-> iso = None.
Proof.
  unfold temporal.
  destruct (Js.truthy (field post "timestamp")).
  - destruct (Js.parseInt_value (field post "timestamp")) as [[n|]|];
      try discriminate.
    destruct (Js.toISOString (n * 1000)); [|discriminate].
    intros [= <- <-]. split; discriminate.
  - intros [= <- <-]. split; reflexivity.
Qed.

Lemma normalizePost_jointly_null B post p :
  normalizePost B post = Normal p ->
  Post.timestamp p = None <-> Post.date_iso p = None.
Proof.
  unfold normalizePost.
  destruct (clean_text B post); [|discriminate].
  destruct (temporal post) as [[ts iso]|] eqn:Hd; [|discriminate].
  intros [= <-]. simpl. now apply (temporal_jointly_null post).
Qed.

(** C9: in every record [normalizePosts] produces, [timestamp] is null if
    and only if [date_iso] is null. *)
Theorem timestamp_and_date_iso_jointly_null (B : browser)
    (posts : list RawPost) (out : list Post.t) :
  normalizePosts B posts = Normal out ->
  Forall (fun p => Post.timestamp p = None <-> Post.date_iso p = None) out.
Proof.
  revert out. induction posts as [|post rest IH]; simpl; intros out H.
  - injection H as <-. constructor.
  - destruct (normalizePost B post) as [p|] eqn:Hp; [|discriminate].
    destruct (normalizePosts B rest) as [ps|]; [|discriminate].
    injection H as <-. constructor; [|now apply IH].
    now apply (normalizePost_jointly_null B post).
Qed.

Lemma timestamp_and_date_iso_jointly_null_witness :
  exists out,
    normalizePosts (scripted []) [post1; []] = Normal out
    /\ Forall (fun p => Post.timestamp p = None <-> Post.date_iso p = None) out.
Proof.
  eexists. split; [reflexivity|].
  apply (timestamp_and_date_iso_jointly_null (scripted []) [post1; []]).
  reflexivity.
Defined.

(** ** Properties of [groupByThread] *)

Section Sorting.

Context {A : Type} (cmp : A -> A -> Z).

Lemma sort_insert_perm x l : Permutation (sort_insert cmp x l) (x :: l).
Proof.
  induction l as [|y r IH]; simpl; [reflexivity|].
  destruct (cmp x y <=? 0); [reflexivity|].
  rewrite IH. apply perm_swap.
Qed.

Lemma sort_perm l : Permutation (sort cmp l) l.
Proof.
  induction l as [|x r IH]; simpl; [reflexivity|].
  rewrite sort_insert_perm. now constructor.
Qed.

End Sorting.

Lemma sort_insert_sorted x l :
  non_decreasing l -> non_decreasing (sort_insert compareFn x l).
Proof.
  unfold non_decreasing. induction 1 as [|y r Hr IH Hy]; simpl.
  - repeat constructor.
  - unfold compareFn at 1.
    destruct (timestamp_or_0 x - timestamp_or_0 y <=? 0) eqn:E.
    + apply Z.leb_le in E. constructor; [now constructor|].
      constructor; [lia|].
      eapply List.Forall_impl; [|exact Hy]. simpl. intros; lia.
    + apply Z.leb_gt in E. constructor; [exact IH|].
      eapply Permutation_Forall; [symmetry; apply sort_insert_perm|].
      constructor; [lia | exact Hy].
Qed.

Lemma sort_sorted l : non_decreasing (sort compareFn l).
Proof.
  induction l as [|x r IH]; simpl; [constructor | now apply sort_insert_sorted].
Qed.

Lemma filter_split {A} (f : A -> bool) (l : list A) :
  Permutation (List.filter f l ++ List.filter (fun x => negb (f x)) l) l.
Proof.
  induction l as [|x r IH]; simpl; [reflexivity|].
  destruct (f x); simpl.
  - now constructor.
  - rewrite <- Permutation_middle. now constructor.
Qed.

Lemma Object_values_perm threads :
  Permutation (Object_values threads) (map snd threads).
Proof.
  unfold Object_values. apply Permutation_map.
  rewrite sort_perm. apply filter_split.
Qed.

Lemma In_assoc {A} k (l : list (string * A)) x :
  In (k, x) l -> exists y, Js.assoc k l = Some y.
Proof.
  induction l as [|[k' y] r IH]; simpl; [contradiction|].
  intros [[= -> ->] | H].
  - rewrite String.eqb_refl. eauto.
  - destruct (k' =? k)%string; eauto.
Qed.

Lemma assoc_app_new {A} k (l : list (string * A)) x :
  Js.assoc k l = None -> Js.assoc k (l ++ [(k, x)]) = Some x.
Proof.
  induction l as [|[k' y] r IH]; simpl.
  - now rewrite String.eqb_refl.
  - destruct (k' =? k)%string; [discriminate | exact IH].
Qed.

(** An append to a bucket adds the post once and nothing else. *)
Lemma push_post_perm key post threads t :
  Js.assoc key threads = Some t ->
  Permutation (bucket_posts (push_post key post threads))
              (post :: bucket_posts threads).
Proof.
  unfold bucket_posts.
  induction threads as [|[k t0] r IH]; simpl; [discriminate|].
  destruct (k =? key)%string; simpl.
  - intros _. rewrite <- app_assoc. simpl. symmetry. apply Permutation_middle.
  - intros H. rewrite (IH H). symmetry. apply Permutation_middle.
Qed.

(** Entries keep their key, id and board, and their posts only grow. *)
Lemma push_post_forward key post threads k t :
  In (k, t) threads ->
  exists t', In (k, t') (push_post key post threads)
             /\ Thread.thread_id t' = Thread.thread_id t
             /\ Thread.board t' = Thread.board t
             /\ forall p, In p (Thread.posts t) -> In p (Thread.posts t').
Proof.
  induction threads as [|[k0 t0] r IH]; simpl; [contradiction|].
  intros [[= -> ->] | H].
  - destruct (k =? key)%string.
    + eexists. split; [left; reflexivity|]. simpl. repeat split; auto.
      intros p Hp. apply in_or_app. now left.
    + exists t. split; [left; reflexivity | auto].
  - destruct (IH H) as (t' & Hin & Hrest).
    destruct (k0 =? key)%string.
    + exists t. split; [right; exact H | auto].
    + exists t'. split; [right; exact Hin | exact Hrest].
Qed.

Lemma push_post_backward key post threads k t' :
  In (k, t') (push_post key post threads) ->
  exists t, In (k, t) threads
            /\ Thread.thread_id t' = Thread.thread_id t
            /\ Thread.board t' = Thread.board t.
Proof.
  induction threads as [|[k0 t0] r IH]; simpl; [contradiction|].
  destruct (k0 =? key)%string; simpl.
  - intros [[= <- <-] | H].
    + exists t0. split; [now left | auto].
    + exists t'. split; [now right | auto].
  - intros [[= <- <-] | H].
    + exists t0. split; [now left | auto].
    + destruct (IH H) as (t & Hin & Hrest). exists t. split; [now right | auto].
Qed.

Lemma push_post_hit key post threads t :
  Js.assoc key threads = Some t ->
  exists t', In (key, t') (push_post key post threads)
             /\ In post (Thread.posts t').
Proof.
  induction threads as [|[k0 t0] r IH]; simpl; [discriminate|].
  destruct (String.eqb_spec k0 key) as [->|].
  - intros _. eexists. split; [left; reflexivity|]. simpl.
    apply in_or_app. right. now left.
  - intros H. destruct (IH H) as (t' & Hin & Hp). exists t'.
    split; [right; exact Hin | exact Hp].
Qed.

Lemma first_in_thread_app key done post :
  first_in_thread key (done ++ [post]) =
  match first_in_thread key done with
  | Some p0 => Some p0
  | None => if keyed key post then Some post else None
  end.
Proof.
  unfold first_in_thread. induction done as [|p r IH]; simpl; [reflexivity|].
  destruct (keyed key p); [reflexivity | exact IH].
Qed.

Lemma created_by_later key t done post :
  created_by key t done -> created_by key t (done ++ [post]).
Proof.
  intros (p0 & Hf & Hrest). exists p0. split; [|exact Hrest].
  now rewrite first_in_thread_app, Hf.
Qed.

Lemma grouped_no_entry threads done key :
  grouped threads done -> Js.assoc key threads = None ->
  first_in_thread key done = None.
Proof.
  intros [_ Hall] Hnone. unfold first_in_thread.
  destruct (find _ done) as [p|] eqn:Hf; [|reflexivity].
  apply find_some in Hf as [Hin Hk].
  destruct (Hall p Hin) as (k & t & Hkey & Ht & _).
  unfold keyed in Hk. rewrite Hkey in Hk. apply String.eqb_eq in Hk. subst k.
  apply In_assoc in Ht as [y Hy]. congruence.
Qed.

Lemma grouped_push threads done post key :
  thread_key post = Some key ->
  (forall k t, In (k, t) threads -> created_by k t (done ++ [post])) ->
  (forall p, In p done ->
     exists k t, thread_key p = Some k
                 /\ In (k, t) threads /\ In p (Thread.posts t)) ->
  (exists t, Js.assoc key threads = Some t) ->
  grouped (push_post key post threads) (done ++ [post]).
Proof.
  intros Hkey Hcreated Hall [t0 Ht0]. split.
  - intros k t' Hin.
    destruct (push_post_backward key post threads k t' Hin)
      as (t & Ht & Hid & Hb).
    destruct (Hcreated k t Ht) as (p0 & Hf & Hid0 & Hb0).
    exists p0. repeat split; congruence.
  - intros p Hp. apply in_app_or in Hp as [Hp | [<- | []]].
    + destruct (Hall p Hp) as (k & t & Hk & Ht & Hpt).
      destruct (push_post_forward key post _ _ _ Ht)
        as (t' & Ht' & _ & _ & Hsub).
      exists k, t'. split; [exact Hk|]. split; auto.
    + destruct (push_post_hit key post threads t0 Ht0) as (t' & Hin & Hp').
      exists key, t'. auto.
Qed.

Lemma group_step_grouped threads done post threads' :
  grouped threads done ->
  group_step threads post = Normal threads' ->
  grouped threads' (done ++ [post]).
Proof.
  intros G. pose proof G as [Hcreated Hall]. unfold group_step. cbv zeta.
  fold (thread_key post).
  destruct (thread_key post) as [key|] eqn:Hkey; [|discriminate].
  destruct (Js.assoc key threads) as [t0|] eqn:Ha.
  - intros [= <-]. apply grouped_push; eauto using created_by_later.
  - destruct (inherited key); [discriminate|].
    intros [= <-]. apply grouped_push; auto.
    + intros k t Hin. apply in_app_or in Hin as [Hin | [[= <- <-] | []]].
      * eauto using created_by_later.
      * exists post. simpl. split; [|auto].
        rewrite first_in_thread_app, (grouped_no_entry _ _ _ G Ha).
        unfold keyed. now rewrite Hkey, String.eqb_refl.
    + intros p Hp. destruct (Hall p Hp) as (k & t & Hk & Ht & Hpt).
      exists k, t. split; [exact Hk|].
      split; [apply in_or_app; now left | exact Hpt].
    + eexists. now apply assoc_app_new.
Qed.

Lemma group_loop_grouped posts : forall threads done threads',
  grouped threads done ->
  group_loop threads posts = Normal threads' ->
  grouped threads' (done ++ posts).
Proof.
  induction posts as [|post rest IH]; simpl; intros threads done threads' G.
  - intros [= <-]. now rewrite app_nil_r.
  - destruct (group_step threads post) as [threads1|] eqn:Hs; [|discriminate].
    intros H. replace (done ++ post :: rest)%list
      with ((done ++ [post]) ++ rest)%list by now rewrite <- app_assoc.
    eapply IH; [|exact H]. eapply group_step_grouped; eauto.
Qed.

Lemma group_step_perm threads post threads' :
  group_step threads post = Normal threads' ->
  Permutation (bucket_posts threads') (post :: bucket_posts threads).
Proof.
  unfold group_step. cbv zeta.
  destruct (Js.to_string (thread_of post)) as [key|]; [|discriminate].
  destruct (Js.assoc key threads) as [t0|] eqn:Ha.
  - intros [= <-]. eapply push_post_perm; eauto.
  - destruct (inherited _); [discriminate|]. intros [= <-].
    erewrite push_post_perm by (now apply assoc_app_new).
    constructor. unfold bucket_posts. rewrite map_app, concat_app. simpl.
    now rewrite app_nil_r.
Qed.

Lemma group_loop_perm posts : forall threads threads',
  group_loop threads posts = Normal threads' ->
  Permutation (bucket_posts threads') (bucket_posts threads ++ posts).
Proof.
  induction posts as [|post rest IH]; simpl; intros threads threads'.
  - intros [= <-]. now rewrite app_nil_r.
  - destruct (group_step threads post) as [threads1|] eqn:Hs; [|discriminate].
    intros H. rewrite (IH _ _ H), (group_step_perm _ _ _ Hs).
    simpl. apply Permutation_middle.
Qed.

Lemma group_loop_returns posts : forall threads,
  ordinary_keys posts -> exists threads', group_loop threads posts = Normal threads'.
Proof.
  induction posts as [|post rest IH]; simpl; intros threads H; [eauto|].
  inversion H as [|? ? (key & Hk & Hp) Hrest]; subst.
  unfold group_step. cbv zeta. fold (thread_key post). rewrite Hk, Hp.
  destruct (Js.assoc key threads); now apply IH.
Qed.

Lemma string_of_Z_not_unknown n : Js.string_of_Z n <> "unknown".
Proof.
  unfold Js.string_of_Z, NilZero.string_of_int.
  destruct (Z.to_int n) as [d|d]; [|discriminate].
  destruct d; discriminate.
Qed.

(** Below 10^21 the numeral of an integer is the integer written with all
    its digits. *)
Example numeral_of_small_integers :
  map (fun n => Js.number_to_string n 0)
      [1; 7; 10; 120; 1700000000; -45; -3000; 10 ^ 21 - 1; 10 ^ 20]
  = map Js.string_of_Z
      [1; 7; 10; 120; 1700000000; -45; -3000; 10 ^ 21 - 1; 10 ^ 20]
  /\ map Js.to_string
       [Js.VNum (10 ^ 21); Js.VNum 1180591620717411300000;
        Js.VDec 5 1; Js.VDec (-17000000005) 1; Js.VDec 1 6; Js.VDec 15 8]
     = map Some ["1e+21"; "1.1805916207174113e+21"; "0.5"; "-1700000000.5";
                 "0.000001"; "1.5e-7"].
Proof. split; vm_compute; reflexivity. Qed.

(** A numeral starts with a digit or a sign. *)
Lemma string_of_Z_head s :
  exists c r, Js.string_of_Z s = String c r /\ c <> "u"%char.
Proof.
  unfold Js.string_of_Z, NilZero.string_of_int.
  destruct (Z.to_int s) as [d|d].
  - destruct d; simpl; eexists _, _; (split; [reflexivity | discriminate]).
  - simpl. eexists _, _. split; [reflexivity | discriminate].
Qed.

Lemma numeral_head s n :
  exists c r, Js.numeral s n = String c r /\ c <> "u"%char.
Proof.
  unfold Js.numeral. cbv zeta.
  destruct (string_of_Z_head s) as (c & r & -> & Hc).
  destruct (_ && (n <=? 21)) eqn:E1.
  - simpl. eauto.
  - destruct ((0 <? n) && (n <=? 21)) eqn:E2.
    + apply andb_true_iff in E2 as [E2 _]. apply Z.ltb_lt in E2.
      destruct (Z.to_nat n) as [|k] eqn:En; [lia|]. simpl. eauto.
    + destruct ((-6 <? n) && (n <=? 0)).
      * simpl. eexists _, _. split; [reflexivity | discriminate].
      * destruct r; eauto.
Qed.

Lemma number_not_unknown m e : Js.number_to_string m e <> "unknown".
Proof.
  unfold Js.number_to_string. destruct (m =? 0); [discriminate|].
  destruct (Js.shortest _ _ _) as [s dropped].
  destruct (numeral_head s
              (Z.of_nat (String.length (Js.string_of_Z s)) + dropped + e))
    as (c & r & -> & Hc).
  destruct (m <? 0); simpl; [discriminate|].
  intros [= -> _]. now apply Hc.
Qed.

Lemma to_string_unknown v :
  Js.to_string v = Some "unknown" -> v = Js.VStr "unknown".
Proof.
  destruct v as [| |[]|n|m places|[]|s|props]; unfold Js.to_string;
    try discriminate.
  - destruct (Z.abs n <? _); intros [= H].
    + now apply string_of_Z_not_unknown in H.
    + now apply number_not_unknown in H.
  - intros [= H]. now apply number_not_unknown in H.
  - now intros [= ->].
  - destruct (Js.assoc "toString" props); discriminate.
Qed.

Lemma flatten_perm ts ts' :
  Permutation ts ts' -> Permutation (flatten ts) (flatten ts').
Proof.
  unfold flatten. rewrite <- !flat_map_concat_map. apply Permutation_flat_map.
Qed.

Lemma flatten_sorted threads :
  Permutation (flatten (map snd (map (fun e : string * Thread.t =>
                                        (fst e, sort_thread (snd e))) threads)))
              (bucket_posts threads).
Proof.
  unfold flatten, bucket_posts.
  induction threads as [|[k t] r IH]; simpl; [reflexivity|].
  apply Permutation_app; [apply sort_perm | exact IH].
Qed.

(** What [groupByThread] returns, in terms of the object its first loop
    has built. *)
Lemma groupByThread_result posts ts :
  groupByThread posts = Normal ts ->
  exists threads,
    group_loop [] posts = Normal threads
    /\ Permutation (flatten ts) (bucket_posts threads)
    /\ forall t', In t' ts ->
         exists k t, In (k, t) threads /\ t' = sort_thread t.
Proof.
  unfold groupByThread.
  destruct (group_loop [] posts) as [threads|] eqn:Hl; [|discriminate].
  intros [= <-]. exists threads. split; [reflexivity|]. split.
  - rewrite (flatten_perm _ _ (Object_values_perm _)). apply flatten_sorted.
  - intros t' Hin.
    apply (Permutation_in _ (Object_values_perm _)) in Hin.
    rewrite map_map in Hin. simpl in Hin.
    apply in_map_iff in Hin as ([k t] & <- & Hin). eauto.
Qed.

Lemma grouped_start : grouped [] [].
Proof. split; intros; contradiction. Qed.

Lemma groupByThread_returns posts :
  ordinary_keys posts -> exists ts, groupByThread posts = Normal ts.
Proof.
  intros H. unfold groupByThread.
  destruct (group_loop_returns posts [] H) as [threads ->]. eauto.
Qed.

(** C10: the board of every thread [groupByThread] returns is the board of
    the first post, in input order, that goes to that thread, whatever
    the boards of the posts that follow it. *)
Theorem thread_board_is_first_posts (posts : list Post.t)
    (threads : list Thread.t) (t : Thread.t) :
  groupByThread posts = Normal threads ->
  In t threads ->
  exists key first,
    Js.to_string (Thread.thread_id t) = Some key
    /\ first_in_thread key posts = Some first
    /\ Thread.board t = Post.board first.
Proof.
  intros H Hin.
  destruct (groupByThread_result _ _ H) as (o & Hl & _ & Hmem).
  destruct (Hmem t Hin) as (k & t0 & Hk & ->).
  destruct (group_loop_grouped posts [] [] o grouped_start Hl) as [Hc _].
  destruct (Hc k t0 Hk) as (p0 & Hf & Hid & Hb).
  exists k, p0. simpl in *. split; [|split; [exact Hf | exact Hb]].
  unfold first_in_thread in Hf.
  apply find_some in Hf as [_ Hkey]. unfold keyed in Hkey.
  rewrite Hid. fold (thread_key p0).
  destruct (thread_key p0) as [k0|]; [|discriminate].
  apply String.eqb_eq in Hkey. now subst.
Qed.

Lemma thread_board_is_first_posts_witness :
  groupByThread sample_posts = Normal sample_threads
  /\ In sample_thread_200 sample_threads
  /\ exists key first,
       Some "200" = Some key
       /\ first_in_thread key sample_posts = Some first
       /\ Js.VStr "x" = Post.board first.
Proof.
  assert (H : groupByThread sample_posts = Normal sample_threads)
    by reflexivity.
  assert (Hin : In sample_thread_200 sample_threads)
    by (right; left; reflexivity).
  split; [exact H|]. split; [exact Hin|].
  exact (thread_board_is_first_posts sample_posts sample_threads
           sample_thread_200 H Hin).
Defined.

(** C7 (not met by the code): a post keyed by a name that a plain object
    inherits makes [groupByThread] raise: [threads] is created as [{}],
    so [threads[tid]] reads the inherited value, no bucket is created,
    and [threads[tid].posts] is undefined.  Nothing is returned for a
    list with such a post, the other posts of the list are not grouped
    either, and a [run] that scraped the post rejects before any file is
    offered. *)
Theorem inherited_thread_id_raises :
  let raw := [("thread_num", Js.VStr "constructor")] in
  let p := bare_post (Js.VStr "constructor") None Js.VNull in
  normalizePosts (scripted []) [raw] = Normal [p]
  /\ groupByThread [p] = Throw "TypeError"
  /\ groupByThread (sample_posts ++ [p]) = Throw "TypeError"
  /\ (~ exists threads,
         groupByThread [p] = Normal threads
         /\ Permutation (flatten threads) [p])
  /\ exists w,
       run (scripted [Some (api_posts [raw]); Some api_end]) 20 CONFIG
           only_bob fresh
       = RunRaised "TypeError" w
       /\ downloaded w = [].
Proof.
  split; [reflexivity|]. split; [reflexivity|]. split; [reflexivity|].
  split; [intros (threads & H & _); discriminate H|].
  eexists. split; reflexivity.
Qed.

(** On posts each of which has a key, none of them a name that plain
    objects inherit, [groupByThread] returns threads whose posts, taken
    together, are a permutation of the input; a post without thread id is
    in a thread whose id is "unknown"; and the timestamps of each thread,
    a missing one counting as 0, never decrease. *)
Lemma groupByThread_partitions_and_orders (posts : list Post.t) :
  ordinary_keys posts ->
  exists threads,
    groupByThread posts = Normal threads
    /\ Permutation (flatten threads) posts
    /\ (forall p, In p posts -> Js.truthy (Post.thread_id p) = false ->
        exists t, In t threads
                  /\ Thread.thread_id t = Js.VStr "unknown"
                  /\ In p (Thread.posts t))
    /\ (forall t, In t threads -> non_decreasing (Thread.posts t)).
Proof.
  intros Hkeys. destruct (groupByThread_returns posts Hkeys) as [ts Hts].
  exists ts. split; [exact Hts|].
  destruct (groupByThread_result _ _ Hts) as (o & Hl & Hperm & Hmem).
  destruct (group_loop_grouped posts [] [] o grouped_start Hl) as [Hc Hall].
  simpl in Hc, Hall. split; [|split].
  - rewrite Hperm. apply (group_loop_perm posts [] o Hl).
  - intros p Hp Hfalsy.
    assert (Hkey : thread_key p = Some "unknown").
    { unfold thread_key, thread_of, Js.or. now rewrite Hfalsy. }
    destruct (Hall p Hp) as (k & t & Hk & Ht & Hpt).
    rewrite Hkey in Hk. injection Hk as <-.
    exists (sort_thread t). split; [|split].
    + unfold groupByThread in Hts. rewrite Hl in Hts. injection Hts as <-.
      apply (Permutation_in _ (Permutation_sym (Object_values_perm _))).
      rewrite map_map. simpl.
      apply in_map_iff. exists ("unknown", t). split; [reflexivity | exact Ht].
    + simpl. destruct (Hc _ _ Ht) as (p0 & Hf & Hid & _).
      unfold first_in_thread in Hf. apply find_some in Hf as [_ Hk].
      unfold keyed, thread_key in Hk. rewrite Hid.
      destruct (Js.to_string (thread_of p0)) as [k0|] eqn:Hk0; [|discriminate].
      apply String.eqb_eq in Hk. subst k0.
      now apply to_string_unknown.
    + simpl. apply (Permutation_in _ (Permutation_sym (sort_perm _ _))).
      exact Hpt.
  - intros t Ht. destruct (Hmem t Ht) as (k & t0 & _ & ->). simpl.
    apply sort_sorted.
Qed.

Lemma groupByThread_partitions_and_orders_witness :
  ordinary_keys sample_posts
  /\ exists threads,
       groupByThread sample_posts = Normal threads
       /\ Permutation (flatten threads) sample_posts
       /\ (forall p, In p sample_posts ->
           Js.truthy (Post.thread_id p) = false ->
           exists t, In t threads
                     /\ Thread.thread_id t = Js.VStr "unknown"
                     /\ In p (Thread.posts t))
       /\ (forall t, In t threads -> non_decreasing (Thread.posts t)).
Proof.
  assert (H : ordinary_keys sample_posts).
  { repeat (apply List.Forall_cons; [eexists; split; reflexivity|]).
    apply List.Forall_nil. }
  split; [exact H | exact (groupByThread_partitions_and_orders _ H)].
Defined.

(** On the sample, the numeric string keys come first, in ascending
    order, and each thread is sorted with ties in input order. *)
Example groupByThread_sample :
  groupByThread sample_posts = Normal sample_threads
  /\ map Thread.thread_id sample_threads
     = [Js.VStr "100"; Js.VStr "200"; Js.VStr "unknown"]
  /\ map timestamp_or_0 (Thread.posts sample_thread_200) = [10; 30].
Proof. repeat split. Qed.

(** ** Properties of the scraping engine *)

Section Resume.

Variable cfg : Config.

Lemma same_true saved current :
  same saved current = true <-> saved = Some current.
Proof.
  unfold same. destruct saved as [s|].
  - rewrite String.eqb_eq. split; congruence.
  - split; discriminate.
Qed.

Lemma config_matches_true c :
  config_matches cfg c = true <->
  saved_username c = Some (username cfg)
  /\ saved_tripcode c = Some (tripcode cfg)
  /\ saved_boards c = Some (boards cfg).
Proof.
  unfold config_matches. rewrite !andb_true_iff, !same_true. tauto.
Qed.

Lemma config_matches_current : config_matches cfg (current_config cfg) = true.
Proof. apply config_matches_true. repeat split. Qed.

Lemma loadProgress_differs w :
  stored_query_differs cfg w -> loadProgress cfg w = ([], 0).
Proof.
  unfold stored_query_differs, loadProgress. intros H.
  destruct (localStorage w !! storageKey cfg) as [[doc|]|]; try reflexivity.
  destruct (doc_config doc) as [c|] eqn:Hc; [|reflexivity].
  destruct (config_matches cfg c) eqn:Hm; [|reflexivity].
  apply config_matches_true in Hm. now destruct (H doc c eq_refl Hc).
Qed.

(** A record saved for the current query seeds the accumulator and, when
    its page number is positive, the page. *)
Lemma resume_from_matching_record w doc c :
  localStorage w !! storageKey cfg = Some (ItemDoc doc) ->
  doc_config doc = Some c ->
  saved_username c = Some (username cfg) ->
  saved_tripcode c = Some (tripcode cfg) ->
  saved_boards c = Some (boards cfg) ->
  resume_point cfg w =
    (match doc_posts doc with Some posts => posts | None => [] end,
     match doc_lastPage doc with
     | Some n => if n >? 0 then n else startPage cfg
     | None => startPage cfg
     end).
Proof.
  intros Hl Hc Hu Ht Hb. unfold resume_point, loadProgress.
  rewrite Hl, Hc.
  rewrite (proj2 (config_matches_true c) (conj Hu (conj Ht Hb))).
  now destruct (doc_lastPage doc).
Qed.

(** C6: unless storage holds a record whose saved query equals the
    current one in username, tripcode and boards (so: when a field
    differs, or the record is absent or unreadable), the scrape starts
    with an empty accumulator at [startPage]. *)
Theorem resume_requires_matching_query (B : browser) (useApi : bool)
    (fuel : nat) (w : world) :
  stored_query_differs cfg w ->
  resume_point cfg w = ([], startPage cfg)
  /\ scrapeAllPosts B cfg useApi fuel w
     = page_loop B cfg useApi fuel (startPage cfg) [] 0 w.
Proof.
  intros H. unfold scrapeAllPosts, resume_point.
  now rewrite (loadProgress_differs w H).
Qed.

(** Conversely, a start that is seeded comes from a matching record. *)
Lemma seeded_only_by_matching_record w :
  resume_point cfg w <> ([], startPage cfg) ->
  exists doc c,
    localStorage w !! storageKey cfg = Some (ItemDoc doc)
    /\ doc_config doc = Some c
    /\ saved_username c = Some (username cfg)
    /\ saved_tripcode c = Some (tripcode cfg)
    /\ saved_boards c = Some (boards cfg).
Proof.
  unfold resume_point, loadProgress. intros H.
  destruct (localStorage w !! storageKey cfg) as [[doc|]|];
    try (now destruct H).
  destruct (doc_config doc) as [c|] eqn:Hc; [|now destruct H].
  destruct (config_matches cfg c) eqn:Hm; [|now destruct H].
  apply config_matches_true in Hm. exists doc, c. tauto.
Qed.

End Resume.

Lemma resume_requires_matching_query_witness :
  stored_query_differs bob stale
  /\ resume_point bob stale = ([], 1)
  /\ scrapeAllPosts (scripted []) bob true 3 stale
     = page_loop (scripted []) bob true 3 1 [] 0 stale.
Proof.
  assert (H : stored_query_differs bob stale).
  { intros doc c Hl Hc (_ & _ & Hb). vm_compute in Hl.
    injection Hl as <-. simpl in Hc. injection Hc as <-. discriminate Hb. }
  split; [exact H|].
  exact (resume_requires_matching_query bob (scripted []) true 3 stale H).
Defined.

Section Engine.

Variable B : browser.
Variable cfg : Config.

Lemma fetchApiPage_storage fuel : forall page w,
  localStorage (world_of (fetchApiPage B cfg fuel page w)) = localStorage w.
Proof.
  induction fuel as [|fuel IH]; intros page w; simpl; [reflexivity|].
  destruct (server B (ticks w) (api_request cfg page)) as [resp|];
    [|reflexivity].
  destruct (status resp =? 429); [now rewrite IH|].
  destruct (negb (ok resp)); [reflexivity|].
  now destruct (json resp).
Qed.

Lemma fetchDomPage_storage fuel : forall page w,
  localStorage (world_of (fetchDomPage B cfg fuel page w)) = localStorage w.
Proof.
  induction fuel as [|fuel IH]; intros page w; simpl; [reflexivity|].
  destruct (server B (ticks w) (dom_request cfg page)) as [resp|];
    [|reflexivity].
  destruct (status resp =? 429); [now rewrite IH|].
  destruct (negb (ok resp)); [reflexivity|].
  now destruct (articles resp).
Qed.

Variable useApi : bool.

Lemma fetchPage_storage fuel page w :
  localStorage (world_of (fetchPage B cfg useApi fuel page w)) = localStorage w.
Proof.
  unfold fetchPage. destruct useApi;
    [apply fetchApiPage_storage | apply fetchDomPage_storage].
Qed.

(** One unfolding of [fetchPage]. *)
Lemma fetchPage_step fuel page w :
  fetchPage B cfg useApi (S fuel) page w =
  let (r, w1) := fetch B (page_request cfg useApi page) w in
  match r with
  | None => Threw "Failed to fetch" w1
  | Some resp =>
      if status resp =? 429 then
        fetchPage B cfg useApi fuel page (sleep (retry_delay resp) w1)
      else if negb (ok resp) then Threw (http_error resp) w1
      else if useApi then
        match json resp with
        | None => Threw "SyntaxError" w1
        | Some data => Returned (api_page data) w1
        end
      else
        match articles resp with
        | [] => Returned Null w1
        | posts => Returned (Posts posts) w1
        end
  end.
Proof.
  unfold fetchPage, page_request. destruct useApi; simpl.
  - destruct (server B (ticks w) (api_request cfg page)) as [resp|];
      [|reflexivity].
    now destruct (status resp =? 429), (negb (ok resp)).
  - destruct (server B (ticks w) (dom_request cfg page)) as [resp|];
      [|reflexivity].
    now destruct (status resp =? 429), (negb (ok resp)).
Qed.

(** One unfolding of the retry loop. *)
Lemma retry_loop_step fuel page posts attempt c w :
  attempt <= maxRetries cfg ->
  retry_loop B cfg useApi (S fuel) page posts attempt c w =
  match fetchPage B cfg useApi fuel page w with
  | Returned pagePosts w => Left pagePosts 0 w
  | Threw _ w =>
      if 5 <=? c + 1 then Stopped (saveProgress B cfg posts page w)
      else retry_loop B cfg useApi fuel page posts (attempt + 1) (c + 1)
             (if attempt + 1 <=? maxRetries cfg
              then sleep (Some (retryBackoffMs cfg * (attempt + 1))) w
              else w)
  | Pending w => Waiting w
  end.
Proof.
  intros H. simpl. apply Z.leb_le in H. now rewrite H.
Qed.

Lemma retry_loop_exhausted fuel page posts attempt c w :
  maxRetries cfg < attempt ->
  retry_loop B cfg useApi fuel page posts attempt c w = Left Null c w.
Proof.
  intros H. apply Z.leb_gt in H. destruct fuel; simpl; now rewrite H.
Qed.

(** Any successful fetch resets the count of consecutive failures: the
    loop is left with posts only by [break], the count being 0. *)
Lemma success_resets_consecutive_errors fuel : forall page posts attempt c w v c' w',
  retry_loop B cfg useApi fuel page posts attempt c w = Left v c' w' ->
  c' = 0 \/ (v = Null /\ c' <> 0).
Proof.
  induction fuel as [|fuel IH]; intros page posts attempt c w v c' w'.
  - simpl. destruct (attempt <=? maxRetries cfg); [discriminate|].
    intros [= <- <- <-]. destruct (Z.eq_dec c 0); auto.
  - destruct (Z.le_gt_cases attempt (maxRetries cfg)) as [Hle|Hgt].
    + rewrite (retry_loop_step _ _ _ _ _ _ Hle).
      destruct (fetchPage B cfg useApi fuel page w) as [pp w1|e w1|w1];
        [intros [= <- <- <-]; now left | | discriminate].
      destruct (5 <=? c + 1); [discriminate | apply IH].
    + rewrite (retry_loop_exhausted _ _ _ _ _ _ Hgt).
      intros [= <- <- <-]. destruct (Z.eq_dec c 0); auto.
Qed.

End Engine.

(** *** Rate limiting *)

Lemma retryAfter_default resp :
  retry_after resp = None \/ retry_after resp = Some "" ->
  retry_delay resp = Some 30000.
Proof.
  unfold retry_delay, retryAfter. now intros [-> | ->].
Qed.

Lemma retryAfter_header resp h :
  retry_after resp = Some h -> h <> "" ->
  retry_delay resp = option_map (fun n => n * 1000) (Js.parseInt h).
Proof.
  unfold retry_delay, retryAfter, nonempty. intros -> Hne.
  destruct (String.eqb_spec h ""); [contradiction | reflexivity].
Qed.

(** C3 (not met by the code): a 429 whose Retry-After is there but does
    not start with an integer, such as the HTTP-date RFC 9110 allows, is
    not waited out for 30 seconds.  The fallback ['30'] only replaces a
    header that is missing or empty; for this one [parseInt] gives NaN,
    the sleep is asked for NaN milliseconds, which is no wait at all, and
    the request is made again at once, from either source. *)
Theorem unparseable_retry_after_is_not_30_seconds :
  let resp := too_many (Some http_date) in
  let B := scripted [Some resp; Some api_end] in
  Js.parseInt http_date = None
  /\ retry_delay resp = None
  /\ retry_delay resp <> Some 30000
  /\ retry_delay (too_many None) = Some 30000
  /\ (exists w,
        fetchApiPage B bob 2 1 fresh = Returned Null w
        /\ trail w = [EFetch (api_request bob 1); ESleep None;
                      EFetch (api_request bob 1)])
  /\ (exists w,
        fetchDomPage B bob 2 1 fresh = Returned Null w
        /\ trail w = [EFetch (dom_request bob 1); ESleep None;
                      EFetch (dom_request bob 1)]).
Proof.
  split; [reflexivity|]. split; [reflexivity|]. split; [discriminate|].
  split; [reflexivity|].
  split; eexists; split; reflexivity.
Qed.

(** A 429 answer to a page request, from either source, is absorbed by
    [fetchPage]: after it the fetch goes on as a fetch of the same page,
    and what the retry loop does next is decided by that fetch alone,
    [attempt] and [consecutiveErrors] being what they were before the 429
    (they go up only if the repeated fetch raises); in between, exactly
    one sleep is asked for, of 1000 times the integer [parseInt] reads at
    the start of the Retry-After header, and of 30000 ms when the header
    is missing or empty. *)
Lemma rate_limited_request_is_repeated (B : browser) (cfg : Config)
    (useApi : bool) (fuel : nat) (page : Z) (posts : list RawPost)
    (attempt consecutiveErrors : Z) (w : world) (resp : response) :
  server B (ticks w) (page_request cfg useApi page) = Some resp ->
  status resp = 429 ->
  attempt <= maxRetries cfg ->
  let w' := sleep (retry_delay resp)
              (snd (fetch B (page_request cfg useApi page) w)) in
  fetchPage B cfg useApi (S fuel) page w = fetchPage B cfg useApi fuel page w'
  /\ retry_loop B cfg useApi (S (S fuel)) page posts attempt
       consecutiveErrors w
     = match fetchPage B cfg useApi fuel page w' with
       | Returned pagePosts w => Left pagePosts 0 w
       | Threw _ w =>
           if 5 <=? consecutiveErrors + 1
           then Stopped (saveProgress B cfg posts page w)
           else retry_loop B cfg useApi (S fuel) page posts (attempt + 1)
                  (consecutiveErrors + 1)
                  (if attempt + 1 <=? maxRetries cfg
                   then sleep (Some (retryBackoffMs cfg * (attempt + 1))) w
                   else w)
       | Pending w => Waiting w
       end
  /\ trail w' = (trail w ++ [EFetch (page_request cfg useApi page);
                             ESleep (retry_delay resp)])%list
  /\ (retry_after resp = None \/ retry_after resp = Some "" ->
      retry_delay resp = Some 30000)
  /\ (forall h n, retry_after resp = Some h -> Js.parseInt h = Some n ->
      retry_delay resp = Some (n * 1000)).
Proof.
  intros Hresp H429 Hattempt w'.
  assert (Hfetch : fetchPage B cfg useApi (S fuel) page w
                   = fetchPage B cfg useApi fuel page w').
  { rewrite fetchPage_step. unfold fetch. rewrite Hresp, H429. reflexivity. }
  split; [exact Hfetch|]. split; [|split; [|split]].
  - rewrite retry_loop_step by exact Hattempt. now rewrite Hfetch.
  - subst w'. simpl. now rewrite <- app_assoc.
  - apply retryAfter_default.
  - intros h n Hh Hn. destruct (String.eqb_spec h "") as [->|Hne].
    + discriminate Hn.
    + now rewrite (retryAfter_header resp h Hh Hne), Hn.
Qed.

Lemma rate_limited_request_is_repeated_witness :
  let B := scripted [Some (too_many (Some "7")); Some api_end] in
  let w' := sleep (Some 7000) (snd (fetch B (api_request bob 1) fresh)) in
  fetchPage B bob true 2 1 fresh = fetchPage B bob true 1 1 w'
  /\ retry_loop B bob true 3 1 [] 2 2 fresh
     = Left Null 0
         {| ticks := 2; localStorage := ∅;
            trail := [EFetch (api_request bob 1); ESleep (Some 7000);
                      EFetch (api_request bob 1)] |}.
Proof.
  intros B w'.
  destruct (rate_limited_request_is_repeated B bob true 1 1 [] 2 2 fresh
              (too_many (Some "7")) eq_refl eq_refl ltac:(simpl; lia))
    as (Hf & _).
  split; [exact Hf | reflexivity].
Defined.

(** *** How a scrape ends *)

Section Endings.

Variable B : browser.
Variable cfg : Config.
Variable useApi : bool.

Lemma retry_loop_storage fuel : forall page posts attempt c w,
  match retry_loop B cfg useApi fuel page posts attempt c w with
  | Left _ _ w' | Waiting w' => localStorage w' = localStorage w
  | Stopped w' =>
      exists w1, localStorage w1 = localStorage w
                 /\ w' = saveProgress B cfg posts page w1
  end.
Proof.
  induction fuel as [|fuel IH]; intros page posts attempt c w.
  - simpl. now destruct (attempt <=? maxRetries cfg).
  - destruct (Z.le_gt_cases attempt (maxRetries cfg)) as [Hle|Hgt].
    + rewrite (retry_loop_step _ _ _ _ _ _ _ _ _ Hle).
      pose proof (fetchPage_storage B cfg useApi fuel page w) as Hs.
      destruct (fetchPage B cfg useApi fuel page w) as [pp w1|e w1|w1];
        simpl in Hs; try exact Hs.
      destruct (5 <=? c + 1); [now exists w1|].
      specialize (IH page posts (attempt + 1) (c + 1)
                    (if attempt + 1 <=? maxRetries cfg
                     then sleep (Some (retryBackoffMs cfg * (attempt + 1))) w1
                     else w1)).
      assert (Hw : localStorage
                     (if attempt + 1 <=? maxRetries cfg
                      then sleep (Some (retryBackoffMs cfg * (attempt + 1))) w1
                      else w1) = localStorage w)
        by (now destruct (attempt + 1 <=? maxRetries cfg)).
      destruct (retry_loop _ _ _ _ _ _ _ _ _); try congruence.
      destruct IH as (w2 & Hw2 & ->). exists w2. split; congruence.
    + now rewrite (retry_loop_exhausted _ _ _ _ _ _ _ _ _ Hgt).
Qed.

(** The normal return of [scrapeAllPosts] leaves no record in storage. *)
Lemma completed_clears_progress fuel : forall page posts c w posts' w',
  page_loop B cfg useApi fuel page posts c w = Completed posts' w' ->
  localStorage w' !! storageKey cfg = None.
Proof.
  induction fuel as [|fuel IH]; intros page posts c w posts' w'; simpl;
    [discriminate|].
  destruct (retry_loop B cfg useApi fuel page posts 0 c w)
    as [[|pp|] c1 w1|w1|w1]; try discriminate.
  - intros [= <- <-]. simpl. apply lookup_delete_eq.
  - destruct (max_arguments B <? _); [discriminate | apply IH].
Qed.

(** The return in the catch block leaves the accumulated posts
    checkpointed, provided storage takes the write. *)
Lemma aborted_keeps_progress fuel : forall page posts c w posts' w',
  (forall doc, quota_ok B doc = true) ->
  page_loop B cfg useApi fuel page posts c w = Aborted posts' w' ->
  exists nextPage,
    checkpoint cfg posts' nextPage (localStorage w' !! storageKey cfg).
Proof.
  induction fuel as [|fuel IH]; intros page posts c w posts' w' Hq; simpl;
    [discriminate|].
  pose proof (retry_loop_storage fuel page posts 0 c w) as Hs.
  destruct (retry_loop B cfg useApi fuel page posts 0 c w)
    as [[|pp|] c1 w1|w1|w1]; try discriminate.
  - destruct (max_arguments B <? _); [discriminate | now apply IH].
  - intros [= <- <-]. destruct Hs as (w2 & _ & ->).
    exists page. unfold saveProgress. rewrite Hq. simpl.
    rewrite lookup_insert_eq. eexists. split; [reflexivity|]. now simpl.
Qed.

(** With fewer than four retries per page the count of consecutive
    failures never reaches 5: it is 0 when a page is started, and the
    attempts on one page are at most [maxRetries + 1]. *)
Lemma retry_loop_never_stops fuel : forall page posts attempt c w,
  maxRetries cfg < 4 -> c <= attempt ->
  forall w', retry_loop B cfg useApi fuel page posts attempt c w <> Stopped w'.
Proof.
  induction fuel as [|fuel IH]; intros page posts attempt c w Hmax Hc w'.
  - simpl. now destruct (attempt <=? maxRetries cfg).
  - destruct (Z.le_gt_cases attempt (maxRetries cfg)) as [Hle|Hgt].
    + rewrite (retry_loop_step _ _ _ _ _ _ _ _ _ Hle).
      destruct (fetchPage B cfg useApi fuel page w) as [pp w1|e w1|w1];
        try discriminate.
      destruct (Z.leb_spec 5 (c + 1)); [lia|]. apply IH; lia.
    + now rewrite (retry_loop_exhausted _ _ _ _ _ _ _ _ _ Hgt).
Qed.

(** Pages are only ever appended to the accumulated posts. *)
Lemma page_loop_extends fuel : forall page posts c w,
  match page_loop B cfg useApi fuel page posts c w with
  | Completed posts' _ | Aborted posts' _ =>
      exists more, posts' = (posts ++ more)%list
  | _ => True
  end.
Proof.
  induction fuel as [|fuel IH]; intros page posts c w; simpl; [exact I|].
  destruct (retry_loop B cfg useApi fuel page posts 0 c w)
    as [[|pagePosts|] c1 w1|w1|w1]; try exact I;
    try (exists []; now rewrite app_nil_r).
  destruct (max_arguments B <? _); [exact I|].
  specialize (IH (page + 1) (posts ++ pagePosts)%list c1
                (sleep (Some (delayMs cfg))
                   (saveProgress B cfg (posts ++ pagePosts) (page + 1) w1))).
  destruct (page_loop _ _ _ _ _ _ _ _) as [p w2|p w2|e w2|w2]; try exact I;
    destruct IH as [more ->]; exists (pagePosts ++ more)%list;
    now rewrite app_assoc.
Qed.

Lemma breaker_unreachable fuel : forall page posts c w posts' w',
  maxRetries cfg < 4 -> c <= 0 ->
  page_loop B cfg useApi fuel page posts c w <> Aborted posts' w'.
Proof.
  induction fuel as [|fuel IH]; intros page posts c w posts' w' Hmax Hc; simpl;
    [discriminate|].
  pose proof (retry_loop_never_stops fuel page posts 0 c w Hmax Hc) as Hn.
  pose proof (success_resets_consecutive_errors B cfg useApi fuel
                page posts 0 c w) as Hz.
  destruct (retry_loop B cfg useApi fuel page posts 0 c w)
    as [[|pp|] c1 w1|w1|w1]; try discriminate.
  - destruct (Hz _ _ _ eq_refl) as [-> | [[=] _]].
    destruct (max_arguments B <? _); [discriminate | apply IH; lia].
  - now destruct (Hn w1).
Qed.

End Endings.

(** *** Pages that [push] can take *)

Section Fits.

Variable B : browser.
Variable cfg : Config.
Variable useApi : bool.
Hypothesis Hfit : pages_fit B useApi.

Lemma api_page_posts data pp :
  api_page data = Posts pp -> data_0 data = Some (PostsArray pp).
Proof.
  unfold api_page. destruct (Js.truthy (data_error data)); [discriminate|].
  destruct (data_0 data) as [[|[|? ?]|]|]; try discriminate.
  now intros [= <-].
Qed.

Lemma fetchPage_fits fuel : forall page w pp w',
  fetchPage B cfg useApi fuel page w = Returned (Posts pp) w' ->
  Z.of_nat (length pp) <= max_arguments B.
Proof.
  induction fuel as [|fuel IH]; intros page w pp w'.
  - unfold fetchPage. now destruct useApi.
  - rewrite fetchPage_step. unfold fetch.
    destruct (server B (ticks w) (page_request cfg useApi page))
      as [resp|] eqn:Hr; [|discriminate].
    destruct (status resp =? 429); [apply IH|].
    destruct (negb (ok resp)); [discriminate|].
    pose proof (Hfit _ _ _ Hr) as Hsize.
    destruct useApi.
    + destruct (json resp) as [data|] eqn:Hj; [|discriminate].
      intros [= Hp _]. apply api_page_posts in Hp. eauto.
    + destruct (articles resp) as [|a r] eqn:Ha; [discriminate|].
      now intros [= <- _].
Qed.

Lemma retry_loop_fits fuel : forall page posts attempt c w pp c' w',
  retry_loop B cfg useApi fuel page posts attempt c w = Left (Posts pp) c' w' ->
  Z.of_nat (length pp) <= max_arguments B.
Proof.
  induction fuel as [|fuel IH]; intros page posts attempt c w pp c' w'.
  - simpl. now destruct (attempt <=? maxRetries cfg).
  - destruct (Z.le_gt_cases attempt (maxRetries cfg)) as [Hle|Hgt].
    + rewrite retry_loop_step by exact Hle.
      pose proof (fetchPage_fits fuel page w) as Hf.
      destruct (fetchPage B cfg useApi fuel page w) as [v w1|e w1|w1];
        try discriminate.
      * intros [= -> _ <-]. eauto.
      * destruct (5 <=? c + 1); [discriminate | apply IH].
    + now rewrite retry_loop_exhausted by exact Hgt.
Qed.

End Fits.

(** *** The fallback *)

Section Fallback.

Variable B : browser.
Variable cfg : Config.
Hypothesis Hiter : iterable_posts B.
Hypothesis Hfit : pages_fit B true.

Lemma fetchApiPage_iterable fuel : forall page w w',
  fetchApiPage B cfg fuel page w <> Returned NotIterable w'.
Proof.
  induction fuel as [|fuel IH]; intros page w w'; simpl; [discriminate|].
  destruct (server B (ticks w) (api_request cfg page)) as [resp|] eqn:Hr;
    [|discriminate].
  destruct (status resp =? 429); [apply IH|].
  destruct (negb (ok resp)); [discriminate|].
  destruct (json resp) as [data|] eqn:Hj; [|discriminate].
  unfold api_page. destruct (Js.truthy (data_error data)); [discriminate|].
  pose proof (Hiter _ _ _ _ Hr Hj) as Hd.
  destruct (data_0 data) as [[|[|? ?]|]|]; try discriminate.
  now destruct Hd.
Qed.

Lemma retry_loop_iterable fuel : forall page posts attempt c w c' w',
  retry_loop B cfg true fuel page posts attempt c w <> Left NotIterable c' w'.
Proof.
  induction fuel as [|fuel IH]; intros page posts attempt c w c' w'.
  - simpl. now destruct (attempt <=? maxRetries cfg).
  - destruct (Z.le_gt_cases attempt (maxRetries cfg)) as [Hle|Hgt].
    + rewrite (retry_loop_step _ _ _ _ _ _ _ _ _ Hle).
      pose proof (fetchApiPage_iterable fuel page w) as Hf.
      unfold fetchPage.
      destruct (fetchApiPage B cfg fuel page w) as [pp w1|e w1|w1];
        try discriminate.
      * intros [= -> _ <-]. now destruct (Hf w1).
      * destruct (5 <=? c + 1); [discriminate | apply IH].
    + now rewrite (retry_loop_exhausted _ _ _ _ _ _ _ _ _ Hgt).
Qed.

Lemma api_scrape_never_rejects fuel : forall page posts c w e w',
  page_loop B cfg true fuel page posts c w <> Raised e w'.
Proof.
  induction fuel as [|fuel IH]; intros page posts c w e w'; simpl;
    [discriminate|].
  pose proof (retry_loop_iterable fuel page posts 0 c w) as Hn.
  pose proof (retry_loop_fits B cfg true Hfit fuel page posts 0 c w) as Hs.
  destruct (retry_loop B cfg true fuel page posts 0 c w)
    as [[|pp|] c1 w1|w1|w1]; try discriminate.
  - specialize (Hs pp c1 w1 eq_refl).
    destruct (Z.ltb_spec (max_arguments B) (Z.of_nat (length pp))); [lia|].
    apply IH.
  - now destruct (Hn c1 w1).
Qed.

(** Whatever transport errors the API answers with, [scrapeAllPosts]
    returns normally as long as its pages can be spread, so the catch
    block of [run] is not entered and the HTML source is never tried. *)
Lemma transport_errors_never_fall_back fuel w :
  scrape_with_fallback B cfg fuel w = scrapeAllPosts B cfg true fuel w.
Proof.
  unfold scrape_with_fallback, scrapeAllPosts.
  destruct (resume_point cfg w) as [posts page].
  pose proof (api_scrape_never_rejects fuel page posts 0 w) as Hn.
  destruct (page_loop B cfg true fuel page posts 0 w); try reflexivity.
  now destruct (Hn error w0).
Qed.

End Fallback.

(** *** Runs on which the engine departs from its description *)

(** C1 (not met by the code): with the default three retries, page 1 is
    fetched and checkpointed, then page 2 fails four times with HTTP 500.
    No answer signalled the end of the results, yet the inner loop is left
    with [pagePosts] still null, which the code takes for the end: the
    run returns through [clearProgress()] and the checkpoint is gone. *)
Theorem progress_deleted_after_failed_retries :
  let B := failing_after_first_page in
  (forall n req, server B (S n) req = e500)
  /\ (exists w,
     scrapeAllPosts B bob true 3 fresh = Unsettled w
     /\ checkpoint bob [post1; post2] 2 (localStorage w !! storageKey bob))
  /\ exists w,
       scrapeAllPosts B bob true 20 fresh = Completed [post1; post2] w
       /\ localStorage w !! storageKey bob = None
       /\ trail w =
          [EFetch (api_request bob 1); ESleep (Some 13000);
           EFetch (api_request bob 2); ESleep (Some 5000);
           EFetch (api_request bob 2); ESleep (Some 10000);
           EFetch (api_request bob 2); ESleep (Some 15000);
           EFetch (api_request bob 2)].
Proof.
  split; [reflexivity|]. split.
  - eexists. split; [reflexivity|].
    eexists. split; [vm_compute; reflexivity|]. repeat split.
  - eexists. split; [reflexivity|]. split; reflexivity.
Qed.

(** The server fails every request after the first.  With the default
    three retries the engine asks four times for page 2 and then returns
    as if the results had ended, progress cleared: a fifth request for
    the page is never made, so no run with this configuration hears five
    transport errors in a row or ends in the catch block. *)
Example fifth_failure_is_never_requested :
  let B := failing_after_first_page in
  (forall n req, server B (S n) req = e500)
  /\ (exists w,
        scrapeAllPosts B bob true 20 fresh = Completed [post1; post2] w
        /\ ticks w = 5%nat
        /\ localStorage w !! storageKey bob = None)
  /\ (forall fuel w posts w',
        scrapeAllPosts B bob true fuel w <> Aborted posts w').
Proof.
  split; [reflexivity|]. split.
  - eexists. split; [reflexivity|]. split; reflexivity.
  - intros fuel w posts w'. unfold scrapeAllPosts.
    destruct (resume_point bob w) as [ps page].
    apply breaker_unreachable; [reflexivity | discriminate].
Qed.

(** With four retries per page the fifth consecutive failure does end the
    run in the catch block, the accumulated posts checkpointed. *)
Example breaker_trips_with_four_retries :
  exists w,
    scrapeAllPosts failing_after_first_page patient true 20 fresh
      = Aborted [post1; post2] w
    /\ ticks w = 6%nat
    /\ checkpoint patient [post1; post2] 2
         (localStorage w !! storageKey patient).
Proof.
  eexists. split; [reflexivity|]. split; [reflexivity|].
  eexists. split; [vm_compute; reflexivity|]. repeat split.
Qed.

(** C4 (not met by the code): the API answers 403 to every request while
    the HTML search holds a post.  [scrapeAllPosts] catches each error
    itself and returns normally, with or without the breaker tripping, so
    [run] reports no posts and never asks the HTML source. *)
Theorem blocked_api_never_falls_back :
  (exists w,
     run api_blocked 20 CONFIG only_bob fresh = RunPosts [] w
     /\ existsb is_dom_fetch (trail w) = false
     /\ ticks w = 4%nat)
  /\ (exists w w',
        scrapeAllPosts api_blocked patient true 20 fresh = Aborted [] w
        /\ run api_blocked 20 patient only_bob fresh = RunPosts [] w'
        /\ existsb is_dom_fetch (trail w') = false)
  /\ exists w,
       scrapeAllPosts api_blocked bob false 20 fresh = Completed [post1] w.
Proof.
  split; [|split].
  - eexists. split; [reflexivity|]. split; reflexivity.
  - eexists. eexists. split; [reflexivity|]. split; reflexivity.
  - eexists. reflexivity.
Qed.

(** The catch block of [run] is entered when [scrapeAllPosts] itself
    rejects; the whole scrape is then started over, once, on the HTML
    source. *)
Example rejection_falls_back_to_dom :
  exists normalized w,
    scrapeAllPosts api_malformed bob true 20 fresh
      = Raised "TypeError" (snd (fetch api_malformed (api_request bob 1) fresh))
    /\ run api_malformed 20 CONFIG only_bob fresh = RunPosts normalized w
    /\ normalizePosts api_malformed [post1] = Normal normalized
    /\ List.filter is_dom_fetch (trail w)
       = [EFetch (dom_request bob 1); EFetch (dom_request bob 2)].
Proof. eexists. eexists. repeat split; reflexivity. Qed.

(** *** Resuming from a checkpoint *)

Section Determinism.

Variable B : browser.
Variable cfg : Config.
Variable useApi : bool.
Hypothesis Hdet : deterministic B.

(** A fetch that settles does so in the same way in any world and with
    any larger budget. *)
Lemma fetchPage_agrees fuel : forall fuel' page w w' x,
  (fuel <= fuel')%nat ->
  fetched (fetchPage B cfg useApi fuel page w) = Some x ->
  fetched (fetchPage B cfg useApi fuel' page w') = Some x.
Proof.
  induction fuel as [|fuel IH]; intros fuel' page w w' x Hle.
  - unfold fetchPage. now destruct useApi.
  - destruct fuel' as [|fuel']; [lia|].
    rewrite !fetchPage_step. unfold fetch.
    rewrite (Hdet (ticks w') (ticks w)).
    destruct (server B (ticks w) (page_request cfg useApi page)) as [resp|];
      [|exact id].
    destruct (status resp =? 429); [apply IH; lia|].
    destruct (negb (ok resp)); [exact id|].
    destruct useApi.
    + now destruct (json resp).
    + now destruct (articles resp).
Qed.

Lemma retry_loop_agrees fuel : forall fuel' page posts attempt c w w' x,
  (fuel <= fuel')%nat ->
  attempted (retry_loop B cfg useApi fuel page posts attempt c w) = Some x ->
  attempted (retry_loop B cfg useApi fuel' page posts attempt c w') = Some x.
Proof.
  induction fuel as [|fuel IH]; intros fuel' page posts attempt c w w' x Hle;
    destruct (Z.le_gt_cases attempt (maxRetries cfg)) as [Ha|Ha];
    try (now rewrite !(retry_loop_exhausted B cfg useApi _ _ _ _ _ _ Ha)).
  - simpl. apply Z.leb_le in Ha. now rewrite Ha.
  - destruct fuel' as [|fuel']; [lia|].
    rewrite !(retry_loop_step B cfg useApi _ _ _ _ _ _ Ha).
    pose proof (fetchPage_agrees fuel fuel' page w w') as Hf.
    destruct (fetchPage B cfg useApi fuel page w) as [v w1|e w1|w1];
      [| |discriminate];
      (specialize (Hf _ ltac:(lia) eq_refl));
      destruct (fetchPage B cfg useApi fuel' page w') as [v' w1'|e' w1'|w1'];
      try discriminate; simpl in Hf.
    + now injection Hf as ->.
    + destruct (5 <=? c + 1); [exact id|]. apply IH. lia.
Qed.

Lemma page_loop_agrees fuel : forall fuel' page posts c w w' e,
  (fuel <= fuel')%nat ->
  ending_of (page_loop B cfg useApi fuel page posts c w) = Some e ->
  ending_of (page_loop B cfg useApi fuel' page posts c w') = Some e.
Proof.
  induction fuel as [|fuel IH]; intros fuel' page posts c w w' e Hle;
    [discriminate|].
  destruct fuel' as [|fuel']; [lia|]. simpl.
  pose proof (retry_loop_agrees fuel fuel' page posts 0 c w w') as Hr.
  destruct (retry_loop B cfg useApi fuel page posts 0 c w)
    as [v c1 w1|w1|w1]; [| |discriminate];
    (specialize (Hr _ ltac:(lia) eq_refl));
    destruct (retry_loop B cfg useApi fuel' page posts 0 c w')
      as [v' c1' w1'|w1'|w1']; try discriminate; simpl in Hr.
  - injection Hr as -> ->. destruct v as [|pp|]; try exact id.
    destruct (max_arguments B <? _); [exact id | apply IH; lia].
  - exact id.
Qed.

Lemma ahead_refl start : ahead B cfg useApi start start.
Proof. intros fuel w w' e. now apply page_loop_agrees. Qed.

Lemma ahead_trans a b c :
  ahead B cfg useApi a b -> ahead B cfg useApi b c -> ahead B cfg useApi a c.
Proof. intros Hab Hbc fuel w w' e H. eapply Hbc, (Hab fuel w w), H. Qed.

(** A page fetched with posts that can be spread takes the loop one
    state ahead. *)
Lemma ahead_step fuel page posts w pagePosts c1 w1 :
  retry_loop B cfg useApi fuel page posts 0 0 w = Left (Posts pagePosts) c1 w1 ->
  Z.of_nat (length pagePosts) <= max_arguments B ->
  ahead B cfg useApi (posts, page) ((posts ++ pagePosts)%list, page + 1).
Proof.
  intros Hr Hsize n wa wb e H. destruct n as [|f]; [discriminate H|].
  cbn [fst snd] in *. simpl in H.
  assert (Hc1 : c1 = 0).
  { destruct (success_resets_consecutive_errors _ _ _ _ _ _ _ _ _ _ _ _ Hr)
      as [-> | [[=] _]]. reflexivity. }
  subst c1.
  assert (Ha : attempted (retry_loop B cfg useApi f page posts 0 0 wa) = None
               \/ attempted (retry_loop B cfg useApi f page posts 0 0 wa)
                  = Some (Some (Posts pagePosts, 0))).
  { destruct (attempted (retry_loop B cfg useApi f page posts 0 0 wa))
      as [x|] eqn:Hx; [right | now left].
    destruct (Nat.le_ge_cases fuel f) as [Hle|Hle].
    - rewrite <- Hx. apply (retry_loop_agrees fuel f _ _ _ _ w wa _ Hle).
      now rewrite Hr.
    - pose proof (retry_loop_agrees f fuel _ _ _ _ wa w _ Hle Hx) as Hy.
      rewrite Hr in Hy. simpl in Hy. congruence. }
  destruct (retry_loop B cfg useApi f page posts 0 0 wa) as [v c w2|w2|w2];
    simpl in Ha; destruct Ha as [Ha|Ha]; try discriminate.
  injection Ha as -> ->.
  destruct (Z.ltb_spec (max_arguments B) (Z.of_nat (length pagePosts)));
    [lia|].
  eapply (page_loop_agrees f (S f)); [lia | exact H].
Qed.

Lemma resume_point_storage w w' :
  localStorage w' !! storageKey cfg = localStorage w !! storageKey cfg ->
  resume_point cfg w' = resume_point cfg w.
Proof. unfold resume_point, loadProgress. now intros ->. Qed.

Lemma resume_point_saved posts nextPage w :
  0 < nextPage ->
  resume_point cfg (saveProgress B cfg posts nextPage w) = (posts, nextPage)
  \/ localStorage (saveProgress B cfg posts nextPage w) = localStorage w.
Proof.
  intros Hpos. unfold saveProgress.
  destruct (quota_ok B _); [left | now right].
  unfold resume_point, loadProgress. simpl.
  rewrite lookup_insert_eq. simpl. rewrite config_matches_current.
  apply Z.gtb_lt in Hpos. now rewrite Hpos.
Qed.

(** Whenever the loop is interrupted, what storage holds resumes to a
    state the uninterrupted run goes through. *)
Lemma interrupted_run_checkpoint start fuel : forall page posts w w1,
  ahead B cfg useApi start (resume_point cfg w) ->
  ahead B cfg useApi start (posts, page) ->
  1 <= page ->
  page_loop B cfg useApi fuel page posts 0 w = Unsettled w1 ->
  ahead B cfg useApi start (resume_point cfg w1).
Proof.
  induction fuel as [|fuel IH]; intros page posts w w1 Hstore Hstate Hpage;
    simpl.
  - now intros [= <-].
  - pose proof (retry_loop_storage B cfg useApi fuel page posts 0 0 w) as Hs.
    destruct (retry_loop B cfg useApi fuel page posts 0 0 w)
      as [[|pp|] c1 w2|w2|w2] eqn:Hr; try discriminate.
    + assert (Hc1 : c1 = 0).
      { destruct (success_resets_consecutive_errors _ _ _ _ _ _ _ _ _ _ _ _ Hr)
          as [-> | [[=] _]]. reflexivity. }
      subst c1.
      destruct (Z.ltb_spec (max_arguments B) (Z.of_nat (length pp)))
        as [Hbig|Hsize]; [discriminate|].
      apply IH; [| |lia].
      * rewrite (resume_point_storage
                   (saveProgress B cfg (posts ++ pp) (page + 1) w2))
          by reflexivity.
        destruct (resume_point_saved (posts ++ pp) (page + 1) w2 ltac:(lia))
          as [-> | Hsame].
        -- eapply ahead_trans; [exact Hstate | eapply ahead_step; eassumption].
        -- rewrite (resume_point_storage w) by (now rewrite Hsame, Hs).
           exact Hstore.
      * eapply ahead_trans; [exact Hstate | eapply ahead_step; eassumption].
    + intros [= <-]. rewrite (resume_point_storage w) by (now rewrite Hs).
      exact Hstore.
Qed.

Lemma resume_from_checkpoint w posts page :
  checkpoint cfg posts page (localStorage w !! storageKey cfg) ->
  resume_point cfg w = (posts, if page >? 0 then page else startPage cfg).
Proof.
  intros (doc & Hdoc & Hposts & Hpage & Hcfg).
  unfold resume_point, loadProgress.
  now rewrite Hdoc, Hcfg, config_matches_current, Hposts, Hpage.
Qed.


End Determinism.

Lemma archive_deterministic : deterministic archive.
Proof. intros n m req. reflexivity. Qed.


(** The resumed run asks for page 2 first, not for page 1 again. *)
Example resumed_run_starts_at_saved_page :
  let w1 := scrape_world (scrapeAllPosts archive bob true 3 fresh) in
  let resumed :=
    {| ticks := O; localStorage := localStorage w1; trail := [] |} in
  resume_point bob resumed = ([post1; post2], 2)
  /\ trail (scrape_world (scrapeAllPosts archive bob true 20 resumed))
     = [EFetch (api_request bob 2); ESleep (Some 13000);
        EFetch (api_request bob 3)].
Proof. split; reflexivity. Qed.

(** * Further properties of the script *)

(** ** Progress persistence *)


(** X2: after [clearProgress] nothing is loaded, whatever was stored, and
    neither [clearProgress] nor [saveProgress] touches another key of
    [localStorage]. *)
Theorem cleared_progress_is_gone (B : browser) (cfg : Config)
    (posts : list RawPost) (nextPage : Z) (w : world) :
  loadProgress cfg (clearProgress cfg w) = ([], 0)
  /\ resume_point cfg (clearProgress cfg w) = ([], startPage cfg)
  /\ forall key, key <> storageKey cfg ->
       localStorage (clearProgress cfg w) !! key = localStorage w !! key
       /\ localStorage (saveProgress B cfg posts nextPage w) !! key
          = localStorage w !! key.
Proof.
  assert (H : loadProgress cfg (clearProgress cfg w) = ([], 0)).
  { unfold loadProgress, clearProgress. simpl. now rewrite lookup_delete_eq. }
  split; [exact H|]. split.
  - unfold resume_point. now rewrite H.
  - intros key Hkey. split.
    + unfold clearProgress. simpl. now rewrite lookup_delete_ne.
    + unfold saveProgress. destruct (quota_ok B _); [|reflexivity].
      simpl. now rewrite lookup_insert_ne.
Qed.

(** ** Numbers and their decimal strings *)

Lemma append_cons a s r : (String a s ++ r) = String a (s ++ r).
Proof. reflexivity. Qed.

Lemma leading_digits_stop acc rest :
  no_digit_ahead rest -> Js.leading_digits acc rest = acc.
Proof. destruct rest as [|c r]; simpl; [reflexivity|]. now intros ->. Qed.

Lemma leading_digits_uint d : forall acc rest,
  no_digit_ahead rest ->
  Js.leading_digits acc (NilEmpty.string_of_uint d ++ rest) =
  match d with
  | Decimal.Nil => acc
  | _ => Some (uint_value d (match acc with Some n => n | None => 0 end))
  end.
Proof.
  induction d; intros acc rest Hrest;
    [now apply leading_digits_stop | ..];
    cbn [NilEmpty.string_of_uint]; rewrite append_cons;
    cbn [Js.leading_digits];
    match goal with
    | |- context [Js.digit_of ?c] =>
        let v := eval vm_compute in (Js.digit_of c) in
        change (Js.digit_of c) with v
    end; cbv iota; rewrite (IHd _ _ Hrest); now destruct d.
Qed.

Lemma uint_value_acc d : forall acc,
  Z.pos (Pos.of_uint_acc d acc) = uint_value d (Z.pos acc).
Proof.
  induction d; intros acc; cbn [Pos.of_uint_acc uint_value];
    [reflexivity | rewrite IHd; f_equal; lia ..].
Qed.

Lemma uint_value_of_uint d : uint_value d 0 = Z.of_N (Pos.of_uint d).
Proof.
  induction d; cbn [Pos.of_uint uint_value]; try reflexivity;
    try exact IHd; cbn [Z.of_N]; now rewrite uint_value_acc.
Qed.

Lemma parseInt_uint d rest :
  no_digit_ahead rest -> d <> Decimal.Nil ->
  Js.parseInt (NilEmpty.string_of_uint d ++ rest) = Some (Z.of_uint d)
  /\ Js.parseInt (String "-" (NilEmpty.string_of_uint d) ++ rest)
     = Some (- Z.of_uint d).
Proof.
  intros Hrest Hd. unfold Z.of_uint. rewrite <- uint_value_of_uint. split.
  - pose proof (leading_digits_uint d None rest Hrest) as H.
    destruct d; try contradiction; unfold Js.parseInt;
      cbn [NilEmpty.string_of_uint] in *; rewrite append_cons in *;
      cbn [Js.skip_white];
      match goal with
      | |- context [Js.is_white_space ?c] =>
          let v := eval vm_compute in (Js.is_white_space c) in
          change (Js.is_white_space c) with v
      end; cbv iota; exact H.
  - unfold Js.parseInt. rewrite append_cons. cbn [Js.skip_white].
    change (Js.is_white_space "-") with false. cbv iota.
    rewrite (leading_digits_uint d None rest Hrest).
    destruct d; try contradiction; reflexivity.
Qed.

(** [parseInt] reads back the decimal string of an integer, whatever
    follows it that is not a digit. *)
Lemma parseInt_decimal n rest :
  no_digit_ahead rest -> Js.parseInt (Js.string_of_Z n ++ rest) = Some n.
Proof.
  intros Hrest. unfold Js.string_of_Z.
  rewrite <- (DecimalZ.of_to n) at 2.
  assert (Hto : forall p,
            NilZero.string_of_uint (Pos.to_uint p)
            = NilEmpty.string_of_uint (Pos.to_uint p)).
  { intros p. pose proof (Unsigned.to_uint_nonnil p).
    now destruct (Pos.to_uint p). }
  destruct n as [|p|p]; cbn [Z.to_int NilZero.string_of_int Z.of_int].
  - apply (parseInt_uint Decimal.zero rest Hrest). discriminate.
  - rewrite Hto. apply (parseInt_uint _ rest Hrest), Unsigned.to_uint_nonnil.
  - rewrite Hto. apply (parseInt_uint _ rest Hrest), Unsigned.to_uint_nonnil.
Qed.

Lemma append_empty s : (s ++ "") = s.
Proof. induction s as [|a s IH]; [reflexivity|]. now rewrite append_cons, IH. Qed.

Lemma parseInt_string_of_Z n : Js.parseInt (Js.string_of_Z n) = Some n.
Proof.
  rewrite <- (append_empty (Js.string_of_Z n)). now apply parseInt_decimal.
Qed.

Lemma string_of_Z_nonempty n : Js.string_of_Z n <> "".
Proof.
  intros H. pose proof (parseInt_string_of_Z n) as Hp. rewrite H in Hp.
  discriminate Hp.
Qed.

(** ** The requests *)

Lemma last_app_single {A} (l : list A) (x d : A) : List.last (l ++ [x]) d = x.
Proof. apply List.last_last. Qed.


(** ** Normalization *)

Lemma normalizePosts_each B posts : forall out,
  normalizePosts B posts = Normal out ->
  Forall2 (fun raw p => normalizePost B raw = Normal p) posts out.
Proof.
  induction posts as [|post rest IH]; simpl; intros out H.
  - injection H as <-. constructor.
  - destruct (normalizePost B post) as [p|] eqn:Hp; [|discriminate].
    destruct (normalizePosts B rest) as [ps|]; [|discriminate].
    injection H as <-. constructor; [exact Hp | now apply IH].
Qed.

Lemma Forall2_right {A C} (R : A -> C -> Prop) (P : C -> Prop) l l' :
  (forall a c, R a c -> P c) -> Forall2 R l l' -> Forall P l'.
Proof. intros H. induction 1; constructor; eauto. Qed.

Lemma normalizePost_fields B raw p :
  normalizePost B raw = Normal p ->
  exists text ts iso,
    clean_text B raw = Normal text
    /\ temporal raw = Normal (ts, iso)
    /\ Post.text p = text /\ Post.timestamp p = ts /\ Post.date_iso p = iso.
Proof.
  unfold normalizePost.
  destruct (clean_text B raw) as [text|]; [|discriminate].
  destruct (temporal raw) as [[ts iso]|]; [|discriminate].
  intros [= <-]. exists text, ts, iso. repeat split.
Qed.

(** X4: a raw timestamp that is an integer number below 10^21 in
    magnitude is kept as it is, and [date_iso] is the ISO string of that
    many seconds; the number 0 is taken for a missing timestamp, both
    fields being null. *)
Theorem numeric_timestamp_is_kept (B : browser) (posts : list RawPost)
    (out : list Post.t) :
  normalizePosts B posts = Normal out ->
  Forall2 (fun raw p =>
             forall n, field raw "timestamp" = Js.VNum n ->
               Z.abs n < 10 ^ 21 ->
               Post.timestamp p = (if n =? 0 then None else Some n)
               /\ Post.date_iso p
                  = (if n =? 0 then None else Js.toISOString (n * 1000)))
          posts out.
Proof.
  intros H. eapply Forall2_impl; [apply normalizePosts_each, H|].
  intros raw p Hp n Hn Hsmall. simpl in Hp.
  destruct (normalizePost_fields B raw p Hp)
    as (text & ts & iso & _ & Ht & _ & -> & ->).
  unfold temporal in Ht. rewrite Hn in Ht. cbn [Js.truthy] in Ht.
  destruct (n =? 0); cbn [negb] in Ht; [now injection Ht as <- <-|].
  unfold Js.parseInt_value, Js.to_string in Ht.
  change (10 ^ 21) with 1000000000000000000000 in Hsmall.
  apply Z.ltb_lt in Hsmall. rewrite Hsmall in Ht. cbn [option_map] in Ht.
  rewrite parseInt_string_of_Z in Ht.
  destruct (Js.toISOString (n * 1000)); [|discriminate].
  now injection Ht as <- <-.
Qed.

Lemma numeric_timestamp_is_kept_witness :
  exists out,
    normalizePosts (scripted []) [post1; [("timestamp", Js.VNum 0)]] = Normal out
    /\ map Post.timestamp out = [Some 1700000000; None]
    /\ (Z.abs 1700000000 < 10 ^ 21 /\ Z.abs 0 < 10 ^ 21)
    /\ Forall2 (fun raw p =>
                  forall n, field raw "timestamp" = Js.VNum n ->
                    Z.abs n < 10 ^ 21 ->
                    Post.timestamp p = (if n =? 0 then None else Some n)
                    /\ Post.date_iso p
                       = (if n =? 0 then None else Js.toISOString (n * 1000)))
               [post1; [("timestamp", Js.VNum 0)]] out.
Proof.
  eexists. split; [reflexivity|]. split; [reflexivity|].
  split; [split; reflexivity|].
  apply (numeric_timestamp_is_kept (scripted [])). reflexivity.
Defined.

(** Any other number is read through the numeral [ToString] writes for
    it: 10^21 is written 1e+21 and read as 1, 1700000000.5 is cut to its
    integer part, 0.00000015 is written 1.5e-7 and read as 1, and the
    infinity that the JSON numeral 1e999 gives is not read at all. *)
Example other_numeric_timestamps :
  map Js.parseInt_value
      [Js.VNum (10 ^ 21); Js.VDec 17000000005 1; Js.VDec 15 8; Js.VInf false]
  = [Some (Some 1); Some (Some 1700000000); Some (Some 1); Some None]
  /\ (exists out,
       normalizePosts (scripted []) [[("timestamp", Js.VNum (10 ^ 21))];
                                     [("timestamp", Js.VDec 17000000005 1)]]
       = Normal out
       /\ map Post.timestamp out = [Some 1; Some 1700000000])
  /\ normalizePosts (scripted []) [[("timestamp", Js.VInf false)]]
     = Throw "RangeError".
Proof.
  split; [vm_compute; reflexivity|].
  split; [|vm_compute; reflexivity].
  eexists. split; vm_compute; reflexivity.
Qed.

Lemma or_null_shape v : null_or_truthy (Js.or v Js.VNull).
Proof.
  unfold null_or_truthy, Js.or. destruct (Js.truthy v) eqn:E; auto.
Qed.

Lemma toISOString_nonempty ms iso : Js.toISOString ms = Some iso -> iso <> "".
Proof.
  unfold Js.toISOString. destruct (Js.valid_time ms); [|discriminate].
  destruct (Js.civil_from_days (ms / 86400000)) as [[y m] d].
  intros [= <-]. destruct (Js.iso_year y); discriminate.
Qed.

(** X5: in every normalized post, the thirteen fields that are filled by
    [... || null] are null or truthy (never undefined, never an empty
    string, never the number 0), and [date_iso] is null or a non-empty
    string.  The one nullable field left, [timestamp], can hold a falsy
    value that is not null: it is 0 for the raw timestamp "0". *)
Theorem nullable_fields_are_null_or_truthy (B : browser)
    (posts : list RawPost) (out : list Post.t) :
  normalizePosts B posts = Normal out ->
  Forall (fun p => Forall null_or_truthy (defaulted_fields p)
                   /\ Post.date_iso p <> Some "") out.
Proof.
  intros H. eapply Forall2_right; [|apply normalizePosts_each, H].
  intros raw p Hp. simpl in Hp. unfold normalizePost in Hp.
  destruct (clean_text B raw) as [text|]; [|discriminate].
  destruct (temporal raw) as [[ts iso]|] eqn:Ht; [|discriminate].
  injection Hp as <-. unfold defaulted_fields, Js.or_null. simpl. split.
  - repeat (apply List.Forall_cons; [apply or_null_shape|]).
    apply List.Forall_nil.
  - unfold temporal in Ht.
    destruct (Js.truthy (field raw "timestamp")); [|now injection Ht as _ <-].
    destruct (Js.parseInt_value (field raw "timestamp")) as [[n|]|];
      try discriminate.
    destruct (Js.toISOString (n * 1000)) as [s|] eqn:Hs; [|discriminate].
    injection Ht as _ <-. intros [= ->].
    now apply toISOString_nonempty in Hs.
Qed.

Lemma nullable_fields_are_null_or_truthy_witness :
  exists out,
    normalizePosts (scripted [])
      [post1; [("num", Js.VStr ""); ("timestamp", Js.VStr "0")]] = Normal out
    /\ map Post.timestamp out = [Some 1700000000; Some 0]
    /\ Forall (fun p => Forall null_or_truthy (defaulted_fields p)
                        /\ Post.date_iso p <> Some "") out.
Proof.
  eexists. split; [reflexivity|]. split; [reflexivity|].
  apply (nullable_fields_are_null_or_truthy (scripted [])
           [post1; [("num", Js.VStr ""); ("timestamp", Js.VStr "0")]]).
  reflexivity.
Defined.

Lemma media_link_or_url m k mu :
  Js.or (Js.or (Js.get m k) mu) Js.VNull <> Js.VNull ->
  Js.truthy (Js.or m mu) = true.
Proof.
  unfold Js.or. destruct (Js.truthy (Js.get m k)) eqn:Eg.
  - destruct m; simpl in Eg; try discriminate. reflexivity.
  - destruct (Js.truthy mu) eqn:Emu; [|congruence].
    intros _. now destruct (Js.truthy m) eqn:Em.
Qed.

(** X6: a normalized post that has a media URL is flagged as having
    media. *)
Theorem media_url_implies_has_media (B : browser) (posts : list RawPost)
    (out : list Post.t) :
  normalizePosts B posts = Normal out ->
  Forall (fun p => Post.media_url p <> Js.VNull -> Post.has_media p = true) out.
Proof.
  intros H. eapply Forall2_right; [|apply normalizePosts_each, H].
  intros raw p Hp. simpl in Hp. unfold normalizePost in Hp.
  destruct (clean_text B raw) as [text|]; [|discriminate].
  destruct (temporal raw) as [[ts iso]|]; [|discriminate].
  injection Hp as <-. simpl. apply media_link_or_url.
Qed.

Lemma media_url_implies_has_media_witness :
  exists out,
    normalizePosts (scripted [])
      [[("media", Js.VObj [("media_link", Js.VStr "/x/image/1.jpg")])];
       [("media_url", Js.VStr "/x/image/2.jpg")]; post1] = Normal out
    /\ map Post.has_media out = [true; true; false]
    /\ Forall (fun p => Post.media_url p <> Js.VNull ->
                        Post.has_media p = true) out.
Proof.
  eexists. split; [reflexivity|]. split; [reflexivity|].
  apply (media_url_implies_has_media (scripted [])
           [[("media", Js.VObj [("media_link", Js.VStr "/x/image/1.jpg")])];
            [("media_url", Js.VStr "/x/image/2.jpg")]; post1]).
  reflexivity.
Defined.

Lemma collapse_white_loose s : forall b,
  loose_from b (Js.collapse_white b s) = true.
Proof.
  induction s as [|a r IH]; intros b; simpl; [reflexivity|].
  destruct (Js.is_white_space a) eqn:Ha.
  - destruct b; [apply IH|]. simpl. now rewrite IH.
  - simpl. rewrite Ha. apply IH.
Qed.

Lemma skip_white_loose s :
  loose_from false s = true -> loose_from true (Js.skip_white s) = true.
Proof.
  destruct s as [|a r]; simpl; [reflexivity|].
  destruct (Js.is_white_space a) eqn:Ha; simpl.
  - intros H. apply andb_true_iff in H as [_ Hr].
    destruct r as [|c r']; [reflexivity|]. cbn [Js.skip_white].
    cbn [loose_from] in Hr.
    destruct (Js.is_white_space c) eqn:Hc.
    + rewrite andb_false_r in Hr. discriminate Hr.
    + cbn [loose_from]. now rewrite Hc.
  - now rewrite Ha.
Qed.

Lemma trim_end_empty s : Js.trim_end s = "" -> Js.all_white s = true.
Proof.
  destruct s as [|a r]; [reflexivity|].
  cbn [Js.trim_end]. now destruct (Js.all_white (String a r)).
Qed.

Lemma trim_end_tidy s : forall b,
  loose_from b s = true -> tidy_from b (Js.trim_end s) = true.
Proof.
  induction s as [|a r IH]; intros b; [reflexivity|].
  cbn [Js.trim_end loose_from].
  destruct (Js.all_white (String a r)) eqn:Hw; [reflexivity|].
  cbn [tidy_from]. cbn [Js.all_white] in Hw.
  destruct (Js.is_white_space a) eqn:Ha.
  - intros H. apply andb_true_iff in H as [H Hr].
    apply andb_true_iff in H as [Hsp Hb].
    rewrite (IH true Hr), Hsp, Hb. simpl.
    destruct (Js.trim_end r) eqn:Ht; [|reflexivity].
    apply trim_end_empty in Ht. simpl in Hw. congruence.
  - apply IH.
Qed.

(** X7: the text of every normalized post is tidy: its only white space
    is single spaces, none of them at either end. *)
Theorem normalized_text_is_tidy (B : browser) (posts : list RawPost)
    (out : list Post.t) :
  normalizePosts B posts = Normal out ->
  Forall (fun p => tidy (Post.text p) = true) out.
Proof.
  intros H. eapply Forall2_right; [|apply normalizePosts_each, H].
  intros raw p Hp. simpl in Hp.
  destruct (normalizePost_fields B raw p Hp)
    as (text & ts & iso & Ht & _ & -> & _).
  unfold clean_text in Ht.
  destruct (Js.or _ _); try discriminate. injection Ht as <-.
  unfold tidy, Js.trim. apply trim_end_tidy, skip_white_loose.
  apply collapse_white_loose.
Qed.

Lemma normalized_text_is_tidy_witness :
  exists out,
    normalizePosts (scripted [])
      [post1; [("comment", Js.VStr "  two
 lines   here  ")]] = Normal out
    /\ map Post.text out = ["first post"; "two lines here"]
    /\ Forall (fun p => tidy (Post.text p) = true) out.
Proof.
  eexists. split; [reflexivity|]. split; [reflexivity|].
  apply (normalized_text_is_tidy (scripted [])
           [post1; [("comment", Js.VStr "  two
 lines   here  ")]]).
  reflexivity.
Defined.

(** ** File names *)

Lemma slug_word s : all_of is_word (slug s) = true.
Proof.
  induction s as [|a r IH]; [reflexivity|]. cbn [slug all_of].
  rewrite IH, andb_true_r. unfold is_word.
  destruct (is_alphanumeric a) eqn:Ha; [now rewrite Ha | reflexivity].
Qed.

Lemma slug_length s : String.length (slug s) = String.length s.
Proof. induction s as [|a r IH]; simpl; congruence. Qed.

(** X8: the name put into the three file names is never empty, consists
    of letters, digits and underscores only, and has the length of the
    username (of the tripcode when there is no username). *)
Theorem nameSlug_is_a_safe_name (cfg : Config) :
  nameSlug cfg <> ""
  /\ all_of is_word (nameSlug cfg) = true
  /\ String.length (nameSlug cfg) =
     String.length (if nonempty (username cfg) then username cfg
                    else if nonempty (tripcode cfg) then tripcode cfg
                    else "anon").
Proof.
  unfold nameSlug. split; [|split; [apply slug_word | apply slug_length]].
  intros H. apply (f_equal String.length) in H. rewrite slug_length in H.
  unfold nonempty in H.
  destruct (String.eqb_spec (username cfg) "") as [_|Hu]; simpl in H.
  - destruct (String.eqb_spec (tripcode cfg) "") as [_|Ht]; simpl in H;
      [discriminate|]. destruct (tripcode cfg); [now destruct Ht | discriminate].
  - destruct (username cfg); [now destruct Hu | discriminate].
Qed.

(** ** The HTML source *)

Lemma take_while_all f s run rest :
  take_while f s = (run, rest) -> all_of f run = true.
Proof.
  revert run rest. induction s as [|a r IH]; simpl; intros run rest.
  - now intros [= <- <-].
  - destruct (f a) eqn:Ha; [|now intros [= <- <-]].
    destruct (take_while f r) as [run' rest'].
    intros [= <- <-]. simpl. now rewrite Ha, (IH run' rest').
Qed.

Lemma some_of_run f s run rest :
  some_of f s = Some (run, rest) -> run <> "" /\ all_of f run = true.
Proof.
  unfold some_of. destruct (take_while f s) as [r0 rest0] eqn:E.
  destruct r0 as [|a r0]; [discriminate|]. intros [= <- <-].
  split; [discriminate | eapply take_while_all, E].
Qed.

Lemma search_found {A} (pattern : string -> option A) s m :
  search pattern s = Some m -> exists t, pattern t = Some m.
Proof.
  induction s as [|a r IH]; simpl.
  - destruct (pattern "") eqn:E; [|discriminate]. intros [= <-]. eauto.
  - destruct (pattern (String a r)) eqn:E; [intros [= <-]; eauto | exact IH].
Qed.

Lemma thread_pattern_digits s thread num :
  thread_pattern s = Some (thread, num) ->
  (thread <> "" /\ all_of is_digit thread = true)
  /\ (num <> "" /\ all_of is_digit num = true).
Proof.
  unfold thread_pattern.
  destruct (strip_prefix "/thread/" s) as [s1|]; [|discriminate].
  destruct (some_of is_digit s1) as [[t s2]|] eqn:E1; [|discriminate].
  destruct (strip_prefix "/#" s2) as [s3|]; [|discriminate].
  destruct (some_of is_digit s3) as [[n s4]|] eqn:E2; [|discriminate].
  intros [= <- <-]. split; eapply some_of_run; eauto.
Qed.

Lemma number_pattern_digits s num :
  number_pattern s = Some num -> num <> "" /\ all_of is_digit num = true.
Proof.
  unfold number_pattern.
  destruct (strip_prefix "No." s) as [s1|]; [|discriminate].
  destruct (some_of is_digit s1) as [[n s2]|] eqn:E; [|discriminate].
  intros [= <-]. eapply some_of_run; eauto.
Qed.

Lemma board_match_word href board :
  board_match href = Some board -> board <> "" /\ all_of is_word board = true.
Proof.
  unfold board_match.
  destruct (strip_prefix "/" href) as [s1|]; [|discriminate].
  destruct (some_of is_word s1) as [[b s2]|] eqn:E; [|discriminate].
  destruct (strip_prefix "/" s2); [|discriminate].
  intros [= <-]. eapply some_of_run; eauto.
Qed.

(** The thread and post numbers [parsePostFromDom] reads. *)
Lemma dom_numbers a :
  let raw := parsePostFromDom a in
  null_or_run is_digit (field raw "thread_num")
  /\ null_or_run is_digit (field raw "num")
  /\ (field raw "thread_num" <> Js.VNull -> field raw "num" <> Js.VNull).
Proof.
  unfold parsePostFromDom.
  destruct (Dom.querySelector a ".post_controls a") as [el|];
    [|cbn; repeat split; try (now left); congruence].
  destruct (search thread_pattern (href_of el)) as [[t n]|] eqn:E.
  - apply search_found in E as [s E].
    apply thread_pattern_digits in E as [[Ht1 Ht2] [Hn1 Hn2]].
    cbn. repeat split; try (right; eauto); discriminate.
  - cbn. split; [now left|]. split; [|congruence].
    destruct (search number_pattern (Dom.text el)) as [n|] eqn:En;
      [|now left].
    apply search_found in En as [s En].
    apply number_pattern_digits in En as [Hn1 Hn2]. right. eauto.
Qed.

(** X9: a post read from the HTML has, for its thread and post numbers,
    null or a non-empty string of digits, a thread number only together
    with a post number; its board is null or a non-empty string of word
    characters, its [op] flag is "1" or "0" and its source tag "dom". *)
Theorem dom_post_fields (a : Dom.article) :
  null_or_run is_digit (field (parsePostFromDom a) "thread_num")
  /\ null_or_run is_digit (field (parsePostFromDom a) "num")
  /\ (field (parsePostFromDom a) "thread_num" <> Js.VNull ->
      field (parsePostFromDom a) "num" <> Js.VNull)
  /\ null_or_run is_word (field (parsePostFromDom a) "board")
  /\ (field (parsePostFromDom a) "op" = Js.VStr "1"
      \/ field (parsePostFromDom a) "op" = Js.VStr "0")
  /\ field (parsePostFromDom a) "_source" = Js.VStr "dom".
Proof.
  destruct (dom_numbers a) as (Ht & Hn & Htn).
  split; [exact Ht|]. split; [exact Hn|]. split; [exact Htn|].
  unfold parsePostFromDom.
  destruct (match Dom.querySelector a ".post_controls a" with
            | Some el =>
                match search thread_pattern (href_of el) with
                | Some (thread, n) => (Js.VStr thread, Js.VStr n)
                | None =>
                    (Js.VNull,
                     of_option (search number_pattern (Dom.text el)))
                end
            | None => (Js.VNull, Js.VNull)
            end) as [threadNum num].
  cbn. split; [|split; [|reflexivity]].
  - destruct (Dom.querySelector a ".post_controls a") as [el|]; [|now left].
    destruct (board_match (href_of el)) as [b|] eqn:E; [|now left].
    apply board_match_word in E as [Hb1 Hb2]. right. eauto.
  - destruct (existsb _ _); auto.
Qed.

Example parsePostFromDom_sample :
  parsePostFromDom sample_article =
  [("doc_id", Js.VStr "4242"); ("num", Js.VStr "101");
   ("thread_num", Js.VStr "100"); ("board", Js.VStr "x");
   ("op", Js.VStr "1");
   ("timestamp", Js.VStr "2014-03-01T12:00:00+00:00");
   ("fourchan_date", Js.VStr "Sat 01 Mar 2014 12:00:00");
   ("name", Js.VNull); ("trip", Js.VNull); ("title", Js.VNull);
   ("poster_hash", Js.VNull); ("comment", Js.VStr "hello  world");
   ("comment_html", Js.VStr "hello <br> world");
   ("media_url", Js.VNull); ("thumb_url", Js.VNull);
   ("media_filename", Js.VNull); ("_source", Js.VStr "dom")].
Proof. reflexivity. Qed.

Lemma digits_not_inherited s :
  s <> "" -> all_of is_digit s = true -> inherited s = false.
Proof.
  destruct s as [|c r]; [contradiction|]. intros _ H. simpl in H.
  apply andb_true_iff in H as [Hc _].
  destruct c as [[] [] [] [] [] [] [] []]; try discriminate Hc; reflexivity.
Qed.

Lemma normalizePosts_map {A} B (f : A -> RawPost) l : forall out,
  normalizePosts B (map f l) = Normal out ->
  Forall2 (fun a p => normalizePost B (f a) = Normal p) l out.
Proof.
  induction l as [|a rest IH]; simpl; intros out H.
  - injection H as <-. constructor.
  - destruct (normalizePost B (f a)) as [p|] eqn:Hp; [|discriminate].
    destruct (normalizePosts B (map f rest)) as [ps|]; [|discriminate].
    injection H as <-. constructor; [exact Hp | now apply IH].
Qed.

Lemma normalizePost_thread_id B raw p :
  normalizePost B raw = Normal p ->
  Post.thread_id p = Js.or_null (field raw "thread_num").
Proof.
  unfold normalizePost.
  destruct (clean_text B raw); [|discriminate].
  destruct (temporal raw) as [[ts iso]|]; [|discriminate].
  now intros [= <-].
Qed.

Lemma dom_key_ordinary B a p :
  normalizePost B (parsePostFromDom a) = Normal p ->
  exists key, thread_key p = Some key /\ inherited key = false.
Proof.
  intros H. unfold thread_key, thread_of.
  rewrite (normalizePost_thread_id _ _ _ H).
  destruct (dom_numbers a) as ([-> | (s & -> & Hs & Hd)] & _);
    [now exists "unknown"|].
  assert (Ht : Js.truthy (Js.VStr s) = true).
  { simpl. now destruct (String.eqb_spec s ""). }
  unfold Js.or_null, Js.or. rewrite Ht, Ht.
  exists s. split; [reflexivity | now apply digits_not_inherited].
Qed.

(** X10: posts read from the HTML and normalized are never keyed by an
    inherited property name, so [groupByThread] returns for them. *)
Theorem dom_posts_are_grouped (B : browser) (found : list Dom.article)
    (normalized : list Post.t) :
  normalizePosts B (map parsePostFromDom found) = Normal normalized ->
  ordinary_keys normalized
  /\ exists threads, groupByThread normalized = Normal threads.
Proof.
  intros H.
  assert (Hkeys : ordinary_keys normalized).
  { eapply Forall2_right; [|apply normalizePosts_map, H].
    intros a p Hp. now apply (dom_key_ordinary B a). }
  split; [exact Hkeys | now apply groupByThread_returns].
Qed.

Lemma dom_posts_are_grouped_witness :
  exists normalized threads,
    normalizePosts (scripted []) (map parsePostFromDom [sample_article])
      = Normal normalized
    /\ ordinary_keys normalized
    /\ groupByThread normalized = Normal threads
    /\ map Thread.thread_id threads = [Js.VStr "100"].
Proof.
  eexists. eexists.
  assert (H : normalizePosts (scripted [])
                (map parsePostFromDom [sample_article]) = Normal _)
    by reflexivity.
  split; [exact H|].
  split; [exact (proj1 (dom_posts_are_grouped _ _ _ H))|].
  split; reflexivity.
Defined.

Lemma dom_clean_text B a : exists text,
  clean_text B (parsePostFromDom a) = Normal text.
Proof.
  unfold clean_text, parsePostFromDom.
  destruct (match Dom.querySelector a ".post_controls a" with
            | Some el => _ | None => _ end) as [threadNum num].
  cbn. unfold Js.or.
  destruct (Dom.querySelector a ".text") as [el|]; simpl; [|eauto].
  destruct (negb (Js.trim (Dom.text el) =? "")%string); simpl; eauto.
Qed.

Lemma dom_timestamp a :
  field (parsePostFromDom a) "timestamp" = of_option (datetime_of a).
Proof.
  unfold parsePostFromDom, datetime_of.
  destruct (match Dom.querySelector a ".post_controls a" with
            | Some el => _ | None => _ end) as [threadNum num].
  cbn. destruct (Dom.querySelector a ".time_wrap time") as [el|];
    [|reflexivity].
  unfold Dom.getAttribute. now destruct (Js.assoc _ _).
Qed.

(** X11: normalizing posts read from the HTML never raises a TypeError;
    when it raises, it is a RangeError, and some article has a
    [datetime] attribute that is not empty and that [parseInt] does not
    read as a number of seconds a [Date] can hold. *)
Theorem dom_normalization_fails_on_datetime_only (B : browser)
    (found : list Dom.article) (e : string) :
  normalizePosts B (map parsePostFromDom found) = Throw e ->
  e = "RangeError"
  /\ exists a d,
       In a found /\ datetime_of a = Some d /\ d <> ""
       /\ forall n, Js.parseInt d = Some n -> Js.valid_time (n * 1000) = false.
Proof.
  induction found as [|a rest IH]; simpl; [discriminate|].
  destruct (normalizePost B (parsePostFromDom a)) as [p|err] eqn:Hp.
  - destruct (normalizePosts B (map parsePostFromDom rest)) as [ps|];
      [discriminate|].
    intros H. destruct (IH H) as (He & a' & d & Hin & Hrest).
    split; [exact He|]. exists a', d. split; [now right | exact Hrest].
  - intros [= ->]. unfold normalizePost in Hp.
    destruct (dom_clean_text B a) as [text Ht]. rewrite Ht in Hp.
    destruct (temporal (parsePostFromDom a)) as [[ts iso]|terr] eqn:Hd;
      [discriminate|].
    injection Hp as ->. unfold temporal in Hd. rewrite dom_timestamp in Hd.
    destruct (datetime_of a) as [d|] eqn:Hdt; [|discriminate Hd].
    simpl in Hd. unfold Js.parseInt_value in Hd. simpl in Hd.
    destruct (String.eqb_spec d "") as [|Hne]; [discriminate Hd|].
    simpl in Hd.
    assert (He : e = "RangeError"
                 /\ forall n, Js.parseInt d = Some n ->
                      Js.valid_time (n * 1000) = false).
    { destruct (Js.parseInt d) as [n|].
      - destruct (Js.toISOString (n * 1000)) eqn:Hiso; [discriminate Hd|].
        injection Hd as <-. split; [reflexivity|]. intros n' [= <-].
        unfold Js.toISOString in Hiso.
        destruct (Js.valid_time (n * 1000)); [|reflexivity].
        now destruct (Js.civil_from_days _) as [[? ?] ?].
      - injection Hd as <-. split; [reflexivity | discriminate]. }
    destruct He as [-> Hbad]. split; [reflexivity|].
    exists a, d. split; [now left|]. split; [exact Hdt|]. now split.
Qed.

Lemma dom_normalization_fails_on_datetime_only_witness :
  normalizePosts (scripted [])
    (map parsePostFromDom [sample_article; worded_article])
    = Throw "RangeError"
  /\ exists a d,
       In a [sample_article; worded_article]
       /\ datetime_of a = Some d /\ d <> ""
       /\ forall n, Js.parseInt d = Some n -> Js.valid_time (n * 1000) = false.
Proof.
  assert (H : normalizePosts (scripted [])
                (map parsePostFromDom [sample_article; worded_article])
              = Throw "RangeError") by reflexivity.
  split; [exact H|].
  exact (proj2 (dom_normalization_fails_on_datetime_only _ _ _ H)).
Defined.

(** X12: the timestamp of a normalized HTML post is the integer its
    [datetime] attribute starts with; for an ISO date such as
    2014-03-01T12:00:00 that is the year, taken as a number of seconds. *)
Theorem dom_timestamp_is_leading_integer (B : browser) (a : Dom.article)
    (p : Post.t) (n : Z) (rest : string) :
  datetime_of a = Some (Js.string_of_Z n ++ rest) ->
  no_digit_ahead rest ->
  normalizePost B (parsePostFromDom a) = Normal p ->
  Post.timestamp p = Some n
  /\ Post.date_iso p = Js.toISOString (n * 1000).
Proof.
  intros Hdt Hrest Hp.
  destruct (normalizePost_fields B _ p Hp)
    as (text & ts & iso & _ & Ht & _ & -> & ->).
  unfold temporal in Ht. rewrite dom_timestamp, Hdt in Ht.
  unfold Js.parseInt_value in Ht. simpl in Ht.
  rewrite (parseInt_decimal n rest Hrest) in Ht.
  destruct (String.eqb_spec (Js.string_of_Z n ++ rest) "") as [He|_].
  { pose proof (string_of_Z_nonempty n) as Hne.
    destruct (Js.string_of_Z n); [now destruct Hne | discriminate He]. }
  simpl in Ht.
  destruct (Js.toISOString (n * 1000)); [|discriminate Ht].
  now injection Ht as <- <-.
Qed.

Lemma dom_timestamp_is_leading_integer_witness :
  exists p,
    normalizePost (scripted []) (parsePostFromDom sample_article) = Normal p
    /\ Post.timestamp p = Some 2014
    /\ Post.date_iso p = Some "1970-01-01T00:33:34.000Z".
Proof.
  eexists. 
  assert (H : normalizePost (scripted []) (parsePostFromDom sample_article)
              = Normal _) by reflexivity.
  split; [exact H|].
  exact (dom_timestamp_is_leading_integer (scripted []) sample_article _
           2014 "-03-01T12:00:00+00:00" eq_refl eq_refl H).
Defined.

(** ** Grouping, thread by thread *)

Lemma push_post_keys key post threads :
  map fst (push_post key post threads) = map fst threads.
Proof.
  induction threads as [|[k t] r IH]; simpl; [reflexivity|].
  destruct (k =? key)%string; simpl; [reflexivity | now rewrite IH].
Qed.

Lemma push_post_entries key post threads k t' :
  List.NoDup (map fst threads) ->
  In (k, t') (push_post key post threads) ->
  (k <> key /\ In (k, t') threads)
  \/ (k = key /\ exists t, In (k, t) threads
                           /\ Thread.posts t' = (Thread.posts t ++ [post])%list).
Proof.
  induction threads as [|[k0 t0] r IH]; simpl; [contradiction|].
  intros Hnd. inversion Hnd as [|? ? Hnotin Hnd']; subst.
  destruct (String.eqb_spec k0 key) as [->|Hne]; simpl.
  - intros [[= <- <-] | Hin].
    + right. split; [reflexivity|]. exists t0. split; [now left | reflexivity].
    + left. split; [|now right].
      intros ->. apply Hnotin. apply in_map_iff. now exists (key, t').
  - intros [[= <- <-] | Hin].
    + left. split; [exact Hne | now left].
    + destruct (IH Hnd' Hin) as [[Hk Hi] | (Hk & t & Hi & Hp)].
      * left. split; [exact Hk | now right].
      * right. split; [exact Hk|]. exists t. split; [now right | exact Hp].
Qed.

Lemma posts_of_key_app k done post :
  posts_of_key k (done ++ [post]) =
  (posts_of_key k done
   ++ if keyed k post then [post] else [])%list.
Proof. unfold posts_of_key. now rewrite List.filter_app. Qed.

Lemma assoc_none_notin {A} k (l : list (string * A)) :
  Js.assoc k l = None -> ~ In k (map fst l).
Proof.
  intros Hnone Hin. apply in_map_iff in Hin as ([k' x] & Hk & Hin).
  simpl in Hk. subst k'. apply In_assoc in Hin as [y Hy]. congruence.
Qed.

Lemma first_none_no_posts key done :
  first_in_thread key done = None -> posts_of_key key done = [].
Proof.
  unfold first_in_thread, posts_of_key.
  induction done as [|p r IH]; simpl; [reflexivity|].
  destruct (keyed key p); [discriminate | exact IH].
Qed.

Lemma bucketed_push threads done post key :
  thread_key post = Some key ->
  List.NoDup (map fst threads) ->
  (forall k t, In (k, t) threads -> Thread.posts t = posts_of_key k done) ->
  bucketed (push_post key post threads) (done ++ [post]).
Proof.
  intros Hkey Hnd Hposts. split; [now rewrite push_post_keys|].
  intros k t' Hin. rewrite posts_of_key_app. unfold keyed. rewrite Hkey.
  destruct (push_post_entries _ _ _ _ _ Hnd Hin)
    as [[Hk Hi] | (-> & t & Hi & ->)].
  - rewrite (Hposts _ _ Hi).
    destruct (String.eqb_spec key k) as [E|_];
      [now destruct Hk | now rewrite app_nil_r].
  - now rewrite (Hposts _ _ Hi), String.eqb_refl.
Qed.

Lemma group_step_bucketed threads done post threads' :
  grouped threads done -> bucketed threads done ->
  group_step threads post = Normal threads' ->
  bucketed threads' (done ++ [post]).
Proof.
  intros G [Hnd Hposts]. unfold group_step. cbv zeta.
  fold (thread_key post).
  destruct (thread_key post) as [key|] eqn:Hkey; [|discriminate].
  destruct (Js.assoc key threads) as [t0|] eqn:Ha.
  - intros [= <-]. now apply bucketed_push.
  - destruct (inherited key); [discriminate|].
    intros [= <-]. apply bucketed_push; [exact Hkey | |].
    + rewrite map_app. simpl. apply List.NoDup_app; [exact Hnd | |].
      * constructor; [intros [] | constructor].
      * intros k Hk [<- | []]. now apply (assoc_none_notin _ _ Ha).
    + intros k t Hin. apply in_app_or in Hin as [Hin | [[= <- <-] | []]].
      * now apply Hposts.
      * simpl. symmetry. apply first_none_no_posts.
        now apply (grouped_no_entry threads).
Qed.

Lemma group_loop_bucketed posts : forall threads done threads',
  grouped threads done -> bucketed threads done ->
  group_loop threads posts = Normal threads' ->
  bucketed threads' (done ++ posts).
Proof.
  induction posts as [|post rest IH]; simpl; intros threads done threads' G Bk.
  - intros [= <-]. now rewrite app_nil_r.
  - destruct (group_step threads post) as [threads1|] eqn:Hs; [|discriminate].
    intros H. replace (done ++ post :: rest)%list
      with ((done ++ [post]) ++ rest)%list by now rewrite <- app_assoc.
    eapply IH; [| |exact H].
    + eapply group_step_grouped; eauto.
    + eapply group_step_bucketed; eauto.
Qed.

Lemma created_key k t done : created_by k t done -> key_of t = Some k.
Proof.
  intros (p0 & Hf & Hid & _). unfold first_in_thread in Hf.
  apply find_some in Hf as [_ Hk]. unfold keyed, thread_key in Hk.
  unfold key_of. rewrite Hid.
  destruct (Js.to_string (thread_of p0)) as [k0|]; [|discriminate].
  apply String.eqb_eq in Hk. now subst.
Qed.

(** X13: [groupByThread] groups by key and nothing else: the threads it
    returns have distinct keys, every post of the input has its thread,
    no thread is empty, and the posts of a thread are exactly the posts
    of the input with its key, sorted by timestamp with ties left in
    input order. *)
Theorem threads_are_the_key_classes (posts : list Post.t)
    (threads : list Thread.t) :
  groupByThread posts = Normal threads ->
  List.NoDup (map key_of threads)
  /\ (forall p, In p posts ->
      exists key t, thread_key p = Some key
                    /\ In t threads /\ key_of t = Some key)
  /\ (forall t, In t threads ->
      exists key, key_of t = Some key
                  /\ Thread.posts t <> []
                  /\ Thread.posts t
                     = sort compareFn (posts_of_key key posts)).
Proof.
  intros H. unfold groupByThread in H.
  destruct (group_loop [] posts) as [o|] eqn:Hl; [|discriminate].
  injection H as <-.
  pose proof (group_loop_grouped posts [] [] o grouped_start Hl) as G.
  assert (Bk : bucketed o posts).
  { apply (group_loop_bucketed posts [] [] o grouped_start); [|exact Hl].
    split; [apply List.NoDup_nil | intros k t []]. }
  destruct G as [Hc Hall]. destruct Bk as [Hnd Hposts]. simpl in Hc, Hall.
  set (g := fun e : string * Thread.t => (fst e, sort_thread (snd e))).
  assert (Hperm : Permutation (Object_values (map g o))
                    (map (fun e => sort_thread (snd e)) o)).
  { rewrite Object_values_perm, map_map. reflexivity. }
  assert (Hkeys : map key_of (map (fun e => sort_thread (snd e)) o)
                  = map Some (map fst o)).
  { rewrite !map_map. apply map_ext_in. intros [k t] Hin. simpl.
    apply (created_key k t posts), Hc, Hin. }
  split; [|split].
  - eapply Permutation_NoDup;
      [symmetry; apply Permutation_map, Hperm|]. rewrite Hkeys.
    apply Finite.Injective_map_NoDup; [|exact Hnd]. now intros x y [= ->].
  - intros p Hp. destruct (Hall p Hp) as (k & t & Hk & Ht & _).
    exists k, (sort_thread t). split; [exact Hk|]. split.
    + apply (Permutation_in _ (Permutation_sym Hperm)).
      apply in_map_iff. now exists (k, t).
    + apply (created_key _ t posts), Hc, Ht.
  - intros t' Ht'. apply (Permutation_in _ Hperm) in Ht'.
    apply in_map_iff in Ht' as ([k t] & <- & Hin). simpl.
    destruct (Hc k t Hin) as (p0 & Hf & Hid & Hb).
    assert (Hk : key_of t = Some k)
      by (apply (created_key k t posts), Hc, Hin).
    exists k. split; [exact Hk|].
    simpl. rewrite (Hposts k t Hin). split; [|reflexivity].
    unfold first_in_thread in Hf. apply find_some in Hf as [Hin0 Hk0].
    intros Hempty.
    assert (Hmem : In p0 (posts_of_key k posts))
      by (apply filter_In; now split).
    apply (Permutation_in _ (Permutation_sym (sort_perm compareFn _))) in Hmem.
    now rewrite Hempty in Hmem.
Qed.

Lemma threads_are_the_key_classes_witness :
  groupByThread sample_posts = Normal sample_threads
  /\ List.NoDup (map key_of sample_threads)
  /\ (forall t, In t sample_threads ->
      exists key, key_of t = Some key
                  /\ Thread.posts t <> []
                  /\ Thread.posts t
                     = sort compareFn (posts_of_key key sample_posts)).
Proof.
  assert (H : groupByThread sample_posts = Normal sample_threads)
    by reflexivity.
  destruct (threads_are_the_key_classes _ _ H) as (Hnd & _ & Hposts).
  split; [exact H|]. split; [exact Hnd | exact Hposts].
Defined.

(** ** The engine, request by request *)

Section Requests.

Variable B : browser.
Variable cfg : Config.
Variable useApi : bool.

Lemma advance_advance n m e e' w :
  advance n e (advance m e' w) = advance (n + m) (e' ++ e)%list w.
Proof.
  unfold advance. simpl. f_equal; [lia | now rewrite app_assoc].
Qed.

Lemma sleep_advance n e ms w :
  sleep ms (advance n e w) = advance n (e ++ [ESleep ms])%list w.
Proof. unfold sleep, record, advance. simpl. now rewrite app_assoc. Qed.

Lemma fetch_world req w : snd (fetch B req w) = advance 1 [EFetch req] w.
Proof. reflexivity. Qed.

Lemma saveProgress_ticks posts page w :
  ticks (saveProgress B cfg posts page w) = ticks w
  /\ trail (saveProgress B cfg posts page w) = trail w.
Proof. unfold saveProgress. now destruct (quota_ok B _). Qed.

Lemma ok_not_limited resp : ok resp = true -> (status resp =? 429) = false.
Proof.
  unfold ok. intros H. apply andb_true_iff in H as [_ H].
  apply Z.leb_le in H. apply Z.eqb_neq. lia.
Qed.

Lemma fetch_delivers fuel page v w :
  delivers B cfg useApi (ticks w) page v -> (1 <= fuel)%nat ->
  fetchPage B cfg useApi fuel page w
  = Returned v (advance 1 [EFetch (page_request cfg useApi page)] w).
Proof.
  intros (resp & Hr & Hok & Hv) Hfuel.
  destruct fuel as [|fuel]; [lia|]. rewrite fetchPage_step. unfold fetch.
  rewrite Hr, (ok_not_limited _ Hok), Hok. simpl.
  destruct useApi.
  - destruct Hv as (data & -> & <-). reflexivity.
  - subst v. now destruct (articles resp).
Qed.

Lemma fetch_fails fuel page w :
  fails B cfg useApi (ticks w) page -> (1 <= fuel)%nat ->
  exists e,
    fetchPage B cfg useApi fuel page w
    = Threw e (advance 1 [EFetch (page_request cfg useApi page)] w).
Proof.
  unfold fails. intros Hf Hfuel.
  destruct fuel as [|fuel]; [lia|]. rewrite fetchPage_step. unfold fetch.
  destruct (server B (ticks w) (page_request cfg useApi page)) as [resp|]; [|eauto].
  destruct Hf as [H429 Hbad]. apply Z.eqb_neq in H429. rewrite H429.
  destruct (ok resp) eqn:Hok; simpl; [|eauto].
  destruct Hbad as [|[-> ->]]; [discriminate | eauto].
Qed.

(** A fetch that meets 429s sleeps each of them out and goes on. *)
Lemma fetch_limited delays : forall fuel page w,
  limited B cfg useApi (ticks w) page delays ->
  fetchPage B cfg useApi (length delays + fuel) page w
  = fetchPage B cfg useApi fuel page
      (advance (length delays) (limited_trail cfg useApi page delays) w).
Proof.
  induction delays as [|d rest IH]; intros fuel page w; simpl.
  - intros _. unfold advance. simpl. rewrite app_nil_r. now destruct w.
  - intros [(resp & Hr & H429 & Hd) Hrest].
    rewrite fetchPage_step. unfold fetch. rewrite Hr, H429, Hd. simpl.
    rewrite IH by exact Hrest.
    f_equal. unfold advance, sleep, record. simpl.
    f_equal; [lia | now rewrite <- !app_assoc].
Qed.

Lemma fails_in_a_row_split n m tick page :
  fails_in_a_row B cfg useApi tick page (n + m) <->
  fails_in_a_row B cfg useApi tick page n
  /\ fails_in_a_row B cfg useApi (n + tick) page m.
Proof.
  revert tick. induction n as [|n IH]; intros tick; simpl; [tauto|].
  rewrite IH. replace (n + S tick)%nat with (S (n + tick)) by lia. tauto.
Qed.

(** Failures that neither use up the retries nor trip the breaker leave
    the loop running, each followed by its back-off sleep. *)
Lemma retry_loop_failures n : forall fuel page posts attempt c w,
  fails_in_a_row B cfg useApi (ticks w) page n ->
  attempt + Z.of_nat n <= maxRetries cfg ->
  c + Z.of_nat n < 5 ->
  (1 <= fuel)%nat ->
  retry_loop B cfg useApi (n + fuel) page posts attempt c w
  = retry_loop B cfg useApi fuel page posts
      (attempt + Z.of_nat n) (c + Z.of_nat n)
      (advance n (retries_trail cfg useApi page (attempt + 1) n) w).
Proof.
  induction n as [|n IH]; intros fuel page posts attempt c w Hf Ha Hc Hfuel.
  - simpl. rewrite !Z.add_0_r. unfold advance. simpl. rewrite app_nil_r.
    now destruct w.
  - destruct Hf as [Hf Hrest]. cbn [Nat.add].
    rewrite retry_loop_step by lia.
    destruct (fetch_fails (n + fuel) page w Hf ltac:(lia)) as [e ->].
    destruct (Z.leb_spec 5 (c + 1)); [lia|].
    destruct (Z.leb_spec (attempt + 1) (maxRetries cfg)); [|lia].
    rewrite sleep_advance, IH; try lia; [|exact Hrest].
    rewrite advance_advance. cbn [retries_trail].
    replace (attempt + 1 + Z.of_nat n) with (attempt + Z.of_nat (S n)) by lia.
    replace (c + 1 + Z.of_nat n) with (c + Z.of_nat (S n)) by lia.
    f_equal. unfold advance. f_equal; lia.
Qed.

(** After them, a good answer leaves the loop with the page and the
    count of consecutive failures back at 0. *)
Lemma retry_loop_recovers n fuel page posts attempt c w v :
  fails_in_a_row B cfg useApi (ticks w) page n ->
  delivers B cfg useApi (n + ticks w) page v ->
  attempt + Z.of_nat n <= maxRetries cfg ->
  c + Z.of_nat n < 5 ->
  (n + 2 <= fuel)%nat ->
  retry_loop B cfg useApi fuel page posts attempt c w
  = Left v 0
      (advance (S n)
         (retries_trail cfg useApi page (attempt + 1) n
          ++ [EFetch (page_request cfg useApi page)])%list w).
Proof.
  intros Hf Hd Ha Hc Hfuel.
  replace fuel with (n + (fuel - n))%nat by lia.
  rewrite retry_loop_failures; try lia; [|exact Hf].
  destruct (fuel - n)%nat as [|f] eqn:E; [lia|].
  rewrite retry_loop_step by lia.
  rewrite (fetch_delivers f page v
             (advance n (retries_trail cfg useApi page (attempt + 1) n) w)
             Hd ltac:(lia)).
  now rewrite advance_advance.
Qed.

End Requests.

Section Crawl.

Variable B : browser.
Variable cfg : Config.
Variable useApi : bool.

Lemma script_posts_cons j ps rest :
  script_posts ((j, ps) :: rest) = (ps ++ script_posts rest)%list.
Proof. reflexivity. Qed.

(** The pages of a script are fetched one after the other, each after
    its failed attempts, and the loop goes on from the page after them. *)
Lemma served_pages script : forall fuel page posts w after,
  tolerable B cfg script ->
  served B cfg useApi (ticks w) page script after ->
  (7 <= fuel)%nat ->
  exists w',
    page_loop B cfg useApi (length script + fuel) page posts 0 w
    = page_loop B cfg useApi fuel (page + Z.of_nat (length script))
        (posts ++ script_posts script) 0 w'
    /\ ticks w' = (requests script + ticks w)%nat
    /\ trail w' = (trail w ++ crawl_trail cfg useApi page script)%list
    /\ after (ticks w') (page + Z.of_nat (length script)).
Proof.
  induction script as [|[j ps] rest IH];
    intros fuel page posts w after Htol Hserved Hfuel.
  - exists w. simpl. change (Z.of_nat 0) with 0. unfold script_posts. simpl.
    rewrite Z.add_0_r, !app_nil_r. repeat split. exact Hserved.
  - inversion Htol as [|? ? (Hj & Hj4 & Hsize) Htol']; subst.
    simpl in Hj, Hj4, Hsize.
    destruct Hserved as (Hps & Hfails & Hdel & Hrest).
    set (w1 := advance (S j)
                 (retries_trail cfg useApi page (0 + 1) j
                  ++ [EFetch (page_request cfg useApi page)])%list w).
    set (w2 := sleep (Some (delayMs cfg))
                 (saveProgress B cfg (posts ++ ps) (page + 1) w1)).
    assert (Hticks : ticks w2 = S (j + ticks w)).
    { unfold w2. simpl.
      now rewrite (proj1 (saveProgress_ticks B cfg _ _ w1)). }
    assert (Htrail : trail w2
                     = (trail w ++ retries_trail cfg useApi page 1 j
                        ++ [EFetch (page_request cfg useApi page);
                            ESleep (Some (delayMs cfg))])%list).
    { unfold w2. simpl.
      rewrite (proj2 (saveProgress_ticks B cfg _ _ w1)). unfold w1. simpl.
      now rewrite <- !app_assoc. }
    rewrite <- Hticks in Hrest.
    destruct (IH fuel (page + 1) (posts ++ ps)%list w2 after Htol' Hrest Hfuel)
      as (w' & Hloop & Ht & Htr & Hafter).
    exists w'. split; [|split; [|split]].
    + cbn [length Nat.add page_loop].
      rewrite (retry_loop_recovers B cfg useApi j (length rest + fuel)
                 page posts 0 0 w (Posts ps) Hfails Hdel) by lia.
      fold w1. destruct ps as [|p ps']; [now destruct Hps|].
      destruct (Z.ltb_spec (max_arguments B) (Z.of_nat (length (p :: ps'))))
        as [Hbig|_]; [lia|].
      fold w2. rewrite Hloop. rewrite script_posts_cons.
      replace (page + 1 + Z.of_nat (length rest))
        with (page + Z.of_nat (S (length rest))) by lia.
      now rewrite <- app_assoc.
    + rewrite Ht, Hticks. simpl. lia.
    + rewrite Htr, Htrail. cbn [crawl_trail]. now rewrite <- !app_assoc.
    + replace (page + Z.of_nat (length ((j, ps) :: rest)))
        with (page + 1 + Z.of_nat (length rest)) by (simpl length; lia).
      exact Hafter.
Qed.

(** X14: pages that each arrive after at most [maxRetries] (and at most
    four) failed attempts, none of them with more posts than a call takes
    arguments, are all collected, in order, after the seeded posts; the
    end of the results, after as few failures, makes the run return them
    and remove the stored progress.  The requests are made one at a
    time: the failed ones followed by a sleep of [retryBackoffMs] times
    the attempt number, each page by a sleep of [delayMs]. *)
Theorem served_pages_are_collected (fuel : nat) (w : world)
    (script : list (nat * list RawPost)) (last : nat) :
  let seed := fst (resume_point cfg w) in
  let page := snd (resume_point cfg w) in
  let final := page + Z.of_nat (length script) in
  tolerable B cfg script ->
  Z.of_nat last <= maxRetries cfg -> (last <= 4)%nat ->
  served B cfg useApi (ticks w) page script
    (fun t p => fails_in_a_row B cfg useApi t p last
                /\ delivers B cfg useApi (last + t) p Null) ->
  (length script + 7 <= fuel)%nat ->
  exists w',
    scrapeAllPosts B cfg useApi fuel w
      = Completed (seed ++ script_posts script) w'
    /\ ticks w' = (requests script + S last + ticks w)%nat
    /\ trail w' = (trail w ++ crawl_trail cfg useApi page script
                   ++ retries_trail cfg useApi final 1 last
                   ++ [EFetch (page_request cfg useApi final)])%list
    /\ localStorage w' !! storageKey cfg = None.
Proof.
  intros seed page final Htol Hlast Hlast4 Hserved Hfuel.
  unfold scrapeAllPosts. subst seed page final.
  destruct (resume_point cfg w) as [seed page]. cbn [fst snd] in *.
  replace fuel with (length script + (fuel - length script))%nat by lia.
  destruct (served_pages script (fuel - length script) page seed w _
              Htol Hserved ltac:(lia))
    as (w1 & -> & Ht & Htr & Hfails & Hdel).
  destruct (fuel - length script)%nat as [|f] eqn:E; [lia|].
  cbn [page_loop].
  rewrite (retry_loop_recovers B cfg useApi last f _ _ 0 0 w1 Null Hfails Hdel)
    by lia.
  eexists. split; [reflexivity|]. simpl.
  split; [lia|]. split; [|apply lookup_delete_eq].
  rewrite Htr. now rewrite <- !app_assoc.
Qed.

(** X15: with at least four retries per page, five failed requests in a
    row for one page end the run in the catch block, whatever pages (of a
    size [push] can take) came before: the posts accumulated so far are
    returned and, storage permitting, checkpointed with the failing page
    as the page to resume from.  Five requests are made for that page,
    with four back-off sleeps between them. *)
Theorem five_failures_abort_with_checkpoint (fuel : nat) (w : world)
    (script : list (nat * list RawPost)) :
  let seed := fst (resume_point cfg w) in
  let page := snd (resume_point cfg w) in
  let final := page + Z.of_nat (length script) in
  tolerable B cfg script ->
  4 <= maxRetries cfg ->
  (forall doc, quota_ok B doc = true) ->
  served B cfg useApi (ticks w) page script
    (fun t p => fails_in_a_row B cfg useApi t p 5) ->
  (length script + 7 <= fuel)%nat ->
  exists w',
    scrapeAllPosts B cfg useApi fuel w
      = Aborted (seed ++ script_posts script) w'
    /\ ticks w' = (requests script + 5 + ticks w)%nat
    /\ trail w' = (trail w ++ crawl_trail cfg useApi page script
                   ++ retries_trail cfg useApi final 1 4
                   ++ [EFetch (page_request cfg useApi final)])%list
    /\ checkpoint cfg (seed ++ script_posts script) final
         (localStorage w' !! storageKey cfg).
Proof.
  intros seed page final Htol Hmax Hquota Hserved Hfuel.
  unfold scrapeAllPosts. subst seed page final.
  destruct (resume_point cfg w) as [seed page]. cbn [fst snd] in *.
  replace fuel with (length script + (fuel - length script))%nat by lia.
  destruct (served_pages script (fuel - length script) page seed w _
              Htol Hserved ltac:(lia))
    as (w1 & -> & Ht & Htr & Hfails).
  apply (fails_in_a_row_split B cfg useApi 4 1) in Hfails as [H4 [H5 _]].
  destruct (fuel - length script)%nat as [|f] eqn:E; [lia|].
  cbn [page_loop].
  replace f with (4 + (f - 4))%nat by lia.
  rewrite (retry_loop_failures B cfg useApi 4 (f - 4)) by (try exact H4; lia).
  destruct (f - 4)%nat as [|f'] eqn:E'; [lia|].
  rewrite retry_loop_step by (simpl; lia).
  match goal with |- context [fetchPage _ _ _ _ _ ?w0] =>
    destruct (fetch_fails B cfg useApi f' _ w0 H5 ltac:(lia)) as [e ->] end.
  cbn [Z.of_nat Pos.of_succ_nat Pos.succ Z.add Pos.add Z.leb Z.compare
       Pos.compare Pos.compare_cont].
  eexists. split; [reflexivity|].
  rewrite advance_advance.
  rewrite (proj1 (saveProgress_ticks B cfg _ _ _)),
          (proj2 (saveProgress_ticks B cfg _ _ _)).
  simpl ticks. simpl trail. split; [lia|]. split.
  - rewrite Htr. now rewrite <- !app_assoc.
  - unfold saveProgress. rewrite Hquota. simpl.
    rewrite lookup_insert_eq. eexists. split; [reflexivity|]. now simpl.
Qed.

(** X16: with fewer than four retries per page, a page whose
    [maxRetries + 1] requests all fail ends the run as if the results
    had ended, whatever pages (of a size [push] can take) came before:
    the posts accumulated so far are returned by the normal return and
    the stored progress is removed. *)
Theorem used_up_retries_end_the_run (fuel : nat) (w : world)
    (script : list (nat * list RawPost)) :
  let seed := fst (resume_point cfg w) in
  let page := snd (resume_point cfg w) in
  tolerable B cfg script ->
  0 <= maxRetries cfg < 4 ->
  served B cfg useApi (ticks w) page script
    (fun t p => fails_in_a_row B cfg useApi t p
                  (S (Z.to_nat (maxRetries cfg)))) ->
  (length script + 7 <= fuel)%nat ->
  exists w',
    scrapeAllPosts B cfg useApi fuel w
      = Completed (seed ++ script_posts script) w'
    /\ ticks w' = (requests script + S (Z.to_nat (maxRetries cfg))
                   + ticks w)%nat
    /\ localStorage w' !! storageKey cfg = None.
Proof.
  intros seed page Htol Hmax Hserved Hfuel.
  unfold scrapeAllPosts. subst seed page.
  destruct (resume_point cfg w) as [seed page]. cbn [fst snd] in *.
  replace fuel with (length script + (fuel - length script))%nat by lia.
  destruct (served_pages script (fuel - length script) page seed w _
              Htol Hserved ltac:(lia))
    as (w1 & -> & Ht & Htr & Hfails).
  set (m := Z.to_nat (maxRetries cfg)) in *.
  replace (S m) with (m + 1)%nat in Hfails by lia.
  apply (fails_in_a_row_split B cfg useApi m 1) in Hfails as [Hm [Hlast _]].
  destruct (fuel - length script)%nat as [|f] eqn:E; [lia|].
  cbn [page_loop].
  replace f with (m + (f - m))%nat by lia.
  rewrite (retry_loop_failures B cfg useApi m (f - m)) by (try exact Hm; lia).
  destruct (f - m)%nat as [|f'] eqn:E'; [lia|].
  rewrite retry_loop_step by lia.
  match goal with |- context [fetchPage _ _ _ _ _ ?w0] =>
    destruct (fetch_fails B cfg useApi f' _ w0 Hlast ltac:(lia)) as [e ->] end.
  destruct (Z.leb_spec 5 (0 + Z.of_nat m + 1)); [lia|].
  destruct (Z.leb_spec (0 + Z.of_nat m + 1) (maxRetries cfg)); [lia|].
  rewrite retry_loop_exhausted by lia.
  eexists. split; [reflexivity|]. simpl. split; [lia|].
  apply lookup_delete_eq.
Qed.

End Crawl.

Lemma served_pages_are_collected_witness :
  exists w',
    scrapeAllPosts flaky bob true 9 fresh
      = Completed [post1; post2; post3] w'
    /\ ticks w' = 6%nat
    /\ trail w' =
       [EFetch (api_request bob 1); ESleep (Some 5000);
        EFetch (api_request bob 1); ESleep (Some 10000);
        EFetch (api_request bob 1); ESleep (Some 13000);
        EFetch (api_request bob 2); ESleep (Some 13000);
        EFetch (api_request bob 3); ESleep (Some 5000);
        EFetch (api_request bob 3)]
    /\ localStorage w' !! storageKey bob = None.
Proof.
  apply (served_pages_are_collected flaky bob true 9 fresh flaky_script 1).
  - repeat constructor; simpl; lia.
  - simpl. lia.
  - lia.
  - simpl.
    repeat match goal with |- _ /\ _ => split end;
      try discriminate; try exact I;
      try (unfold fails; simpl; first [exact I | split; [discriminate | now left]]);
      (eexists; split; [reflexivity | split; [reflexivity |]];
       eexists; split; reflexivity).
  - simpl. lia.
Defined.

Lemma five_failures_abort_with_checkpoint_witness :
  exists w',
    scrapeAllPosts failing_after_first_page patient true 8 fresh
      = Aborted [post1; post2] w'
    /\ ticks w' = 6%nat
    /\ trail w' =
       [EFetch (api_request patient 1); ESleep (Some 13000);
        EFetch (api_request patient 2); ESleep (Some 5000);
        EFetch (api_request patient 2); ESleep (Some 10000);
        EFetch (api_request patient 2); ESleep (Some 15000);
        EFetch (api_request patient 2); ESleep (Some 20000);
        EFetch (api_request patient 2)]
    /\ checkpoint patient [post1; post2] 2
         (localStorage w' !! storageKey patient).
Proof.
  apply (five_failures_abort_with_checkpoint failing_after_first_page
           patient true 8 fresh [(O, [post1; post2])]).
  - repeat constructor; simpl; lia.
  - simpl. lia.
  - reflexivity.
  - simpl.
    repeat match goal with |- _ /\ _ => split end;
      try discriminate; try exact I;
      try (unfold fails; simpl; split; [discriminate | now left]).
    eexists; split; [reflexivity | split; [reflexivity |]];
      eexists; split; reflexivity.
  - simpl. lia.
Defined.

Lemma used_up_retries_end_the_run_witness :
  exists w',
    scrapeAllPosts failing_after_first_page bob true 8 fresh
      = Completed [post1; post2] w'
    /\ ticks w' = 5%nat
    /\ localStorage w' !! storageKey bob = None.
Proof.
  apply (used_up_retries_end_the_run failing_after_first_page
           bob true 8 fresh [(O, [post1; post2])]).
  - repeat constructor; simpl; lia.
  - simpl. lia.
  - simpl.
    repeat match goal with |- _ /\ _ => split end;
      try discriminate; try exact I;
      try (unfold fails; simpl; split; [discriminate | now left]).
    eexists; split; [reflexivity | split; [reflexivity |]];
      eexists; split; reflexivity.
  - simpl. lia.
Defined.

(** *** Rate limits inside the retry loop *)

Section Limits.

Variable B : browser.
Variable cfg : Config.
Variable useApi : bool.

(** X17: 429 answers are not failures.  However many of them a page
    meets, each is slept out for the delay its header asks for and the
    request is made again; when the page then arrives, the retry loop is
    left with it whatever the attempt number was, and the count of
    consecutive failures is back at 0. *)
Theorem rate_limits_are_not_failures (fuel : nat) (page : Z)
    (posts : list RawPost) (attempt c : Z) (w : world)
    (delays : list (option Z)) (v : page_value) :
  limited B cfg useApi (ticks w) page delays ->
  delivers B cfg useApi (length delays + ticks w) page v ->
  attempt <= maxRetries cfg ->
  (length delays + 2 <= fuel)%nat ->
  retry_loop B cfg useApi fuel page posts attempt c w
  = Left v 0
      (advance (S (length delays))
         (limited_trail cfg useApi page delays
          ++ [EFetch (page_request cfg useApi page)])%list w).
Proof.
  intros Hl Hd Ha Hfuel.
  destruct fuel as [|fuel]; [lia|].
  rewrite retry_loop_step by exact Ha.
  replace fuel with (length delays + (fuel - length delays))%nat by lia.
  rewrite (fetch_limited B cfg useApi delays) by exact Hl.
  rewrite (fetch_delivers B cfg useApi (fuel - length delays) page v
             (advance (length delays)
                (limited_trail cfg useApi page delays) w) Hd ltac:(lia)).
  now rewrite advance_advance.
Qed.

End Limits.

Lemma rate_limits_are_not_failures_witness :
  retry_loop throttled bob true 5 1 [] 3 4 fresh
  = Left (Posts [post1]) 0
      {| ticks := 4; localStorage := ∅;
         trail := [EFetch (api_request bob 1); ESleep (Some 2000);
                   EFetch (api_request bob 1); ESleep (Some 30000);
                   EFetch (api_request bob 1); ESleep None;
                   EFetch (api_request bob 1)] |}.
Proof.
  apply (rate_limits_are_not_failures throttled bob true 5 1 [] 3 4 fresh
           [Some 2000; Some 30000; None] (Posts [post1])).
  - simpl. repeat match goal with |- _ /\ _ => split end; try exact I;
      (eexists; split; [reflexivity | split; reflexivity]).
  - eexists; split; [reflexivity | split; [reflexivity |]];
      eexists; split; reflexivity.
  - simpl. lia.
  - simpl. lia.
Defined.

(** *** Storage that cannot be written *)

Section Storage.

Variables B B' : browser.
Variable cfg : Config.
Hypothesis Hserver : same_server B B'.

Lemma alike_refl w : alike w w.
Proof. now split. Qed.

Lemma alike_sleep ms w w' : alike w w' -> alike (sleep ms w) (sleep ms w').
Proof. intros [Ht Htr]. split; simpl; congruence. Qed.

Lemma alike_saveProgress posts page w w' :
  alike w w' ->
  alike (saveProgress B cfg posts page w) (saveProgress B' cfg posts page w').
Proof.
  intros [Ht Htr]. unfold alike.
  rewrite !(proj1 (saveProgress_ticks _ _ _ _ _)),
          !(proj2 (saveProgress_ticks _ _ _ _ _)). now split.
Qed.

Lemma fetchApiPage_alike fuel : forall page w w',
  alike w w' ->
  outcome_alike (fetchApiPage B cfg fuel page w)
                (fetchApiPage B' cfg fuel page w').
Proof.
  induction fuel as [|fuel IH]; intros page w w' Hal; simpl; [exact Hal|].
  destruct Hal as [Ht Htr]. rewrite (proj2 Hserver (ticks w)), Ht.
  destruct (server B' (ticks w') (api_request cfg page)) as [resp|].
  - destruct (status resp =? 429).
    + apply IH. split; simpl; congruence.
    + destruct (negb (ok resp)).
      * simpl. repeat split; simpl; congruence.
      * destruct (json resp); simpl; repeat split; simpl; congruence.
  - simpl. repeat split; simpl; congruence.
Qed.

Lemma fetchDomPage_alike fuel : forall page w w',
  alike w w' ->
  outcome_alike (fetchDomPage B cfg fuel page w)
                (fetchDomPage B' cfg fuel page w').
Proof.
  induction fuel as [|fuel IH]; intros page w w' Hal; simpl; [exact Hal|].
  destruct Hal as [Ht Htr]. rewrite (proj2 Hserver (ticks w)), Ht.
  destruct (server B' (ticks w') (dom_request cfg page)) as [resp|].
  - destruct (status resp =? 429).
    + apply IH. split; simpl; congruence.
    + destruct (negb (ok resp)).
      * simpl. repeat split; simpl; congruence.
      * destruct (articles resp); simpl; repeat split; simpl; congruence.
  - simpl. repeat split; simpl; congruence.
Qed.

Variable useApi : bool.

Lemma fetchPage_alike fuel page w w' :
  alike w w' ->
  outcome_alike (fetchPage B cfg useApi fuel page w)
                (fetchPage B' cfg useApi fuel page w').
Proof.
  unfold fetchPage. destruct useApi;
    [apply fetchApiPage_alike | apply fetchDomPage_alike].
Qed.

Lemma retry_loop_alike fuel : forall page posts attempt c w w',
  alike w w' ->
  attempts_alike (retry_loop B cfg useApi fuel page posts attempt c w)
                 (retry_loop B' cfg useApi fuel page posts attempt c w').
Proof.
  induction fuel as [|fuel IH]; intros page posts attempt c w w' Hal.
  - simpl. destruct (attempt <=? maxRetries cfg); simpl; auto.
  - destruct (Z.le_gt_cases attempt (maxRetries cfg)) as [Hle|Hgt].
    + rewrite !retry_loop_step by exact Hle.
      pose proof (fetchPage_alike fuel page w w' Hal) as Hf.
      destruct (fetchPage B cfg useApi fuel page w) as [v w1|e w1|w1],
               (fetchPage B' cfg useApi fuel page w') as [v' w1'|e' w1'|w1'];
        simpl in Hf; try contradiction.
      * destruct Hf as [-> Hal1]. simpl. auto.
      * destruct Hf as [_ Hal1].
        destruct (5 <=? c + 1).
        -- simpl. now apply alike_saveProgress.
        -- apply IH. destruct (attempt + 1 <=? maxRetries cfg);
             [now apply alike_sleep | exact Hal1].
      * exact Hf.
    + rewrite !retry_loop_exhausted by exact Hgt. simpl. auto.
Qed.

Lemma page_loop_alike fuel : forall page posts c w w',
  alike w w' ->
  scrape_alike (page_loop B cfg useApi fuel page posts c w)
               (page_loop B' cfg useApi fuel page posts c w').
Proof.
  induction fuel as [|fuel IH]; intros page posts c w w' Hal; simpl;
    [exact Hal|].
  pose proof (retry_loop_alike fuel page posts 0 c w w' Hal) as Hr.
  destruct (retry_loop B cfg useApi fuel page posts 0 c w)
      as [v c1 w1|w1|w1],
    (retry_loop B' cfg useApi fuel page posts 0 c w')
      as [v' c1' w1'|w1'|w1'];
    simpl in Hr; try contradiction.
  - destruct Hr as (<- & <- & Hal1). destruct v as [|pagePosts|].
    + simpl. split; [reflexivity|]. destruct Hal1. now split.
    + rewrite <- (proj1 Hserver).
      destruct (max_arguments B <? _); [simpl; now split|].
      apply IH. now apply alike_sleep, alike_saveProgress.
    + simpl. now split.
  - simpl. now split.
  - exact Hr.
Qed.

(** X18: writing the progress is best effort.  Two browsers of the same
    make that get the same answers from the server make the same
    requests, sleep the same sleeps and settle the same way with the same
    posts, even if the storage of one accepts every record and that of
    the other refuses some or all of them. *)
Theorem refused_saves_do_not_change_the_run (fuel : nat) (w : world) :
  scrape_alike (scrapeAllPosts B cfg useApi fuel w)
               (scrapeAllPosts B' cfg useApi fuel w).
Proof.
  unfold scrapeAllPosts. destruct (resume_point cfg w) as [posts page].
  apply page_loop_alike, alike_refl.
Qed.

End Storage.

Lemma refused_saves_do_not_change_the_run_witness :
  scrape_alike (scrapeAllPosts flaky bob true 9 fresh)
               (scrapeAllPosts (without_storage flaky) bob true 9 fresh).
Proof.
  apply (refused_saves_do_not_change_the_run flaky (without_storage flaky)
           bob).
  split; [reflexivity | intros n req; reflexivity].
Defined.

(** *** What every run keeps *)

Section Always.

Variable B : browser.
Variable cfg : Config.

(** X19: the posts a scrape returns, by either of its two returns, begin
    with the posts it loaded from the stored progress: pages are only
    ever appended. *)
Theorem loaded_posts_are_kept (useApi : bool) (fuel : nat) (w : world) :
  match scrapeAllPosts B cfg useApi fuel w with
  | Completed posts _ | Aborted posts _ =>
      exists more, posts = (fst (loadProgress cfg w) ++ more)%list
  | _ => True
  end.
Proof.
  unfold scrapeAllPosts, resume_point.
  destruct (loadProgress cfg w) as [posts lastPage]. simpl.
  apply page_loop_extends.
Qed.

Lemma fetchDomPage_iterable fuel : forall page w,
  match fetchDomPage B cfg fuel page w with
  | Returned NotIterable _ => False
  | _ => True
  end.
Proof.
  induction fuel as [|fuel IH]; intros page w; simpl; [exact I|].
  destruct (server B (ticks w) (dom_request cfg page)) as [resp|];
    [|exact I].
  destruct (status resp =? 429); [apply IH|].
  destruct (negb (ok resp)); [exact I|].
  now destruct (articles resp).
Qed.

Lemma dom_retry_loop_iterable fuel : forall page posts attempt c w,
  match retry_loop B cfg false fuel page posts attempt c w with
  | Left NotIterable _ _ => False
  | _ => True
  end.
Proof.
  induction fuel as [|fuel IH]; intros page posts attempt c w.
  - simpl. now destruct (attempt <=? maxRetries cfg).
  - destruct (Z.le_gt_cases attempt (maxRetries cfg)) as [Hle|Hgt].
    + rewrite retry_loop_step by exact Hle.
      pose proof (fetchDomPage_iterable fuel page w) as Hf.
      unfold fetchPage.
      destruct (fetchDomPage B cfg fuel page w) as [[|pp|] w1|e w1|w1];
        try exact I; try contradiction.
      destruct (5 <=? c + 1); [exact I | apply IH].
    + now rewrite retry_loop_exhausted by exact Hgt.
Qed.

Lemma dom_page_loop_settles fuel :
  pages_fit B false ->
  forall page posts c w,
    match page_loop B cfg false fuel page posts c w with
    | Raised _ _ => False
    | _ => True
    end.
Proof.
  intros Hfit.
  induction fuel as [|fuel IH]; intros page posts c w; simpl; [exact I|].
  pose proof (dom_retry_loop_iterable fuel page posts 0 c w) as Hn.
  pose proof (retry_loop_fits B cfg false Hfit fuel page posts 0 c w) as Hs.
  destruct (retry_loop B cfg false fuel page posts 0 c w)
    as [[|pp|] c1 w1|w1|w1]; try exact I; try contradiction.
  specialize (Hs pp c1 w1 eq_refl).
  destruct (Z.ltb_spec (max_arguments B) (Z.of_nat (length pp))); [lia|].
  apply IH.
Qed.

(** X20: as long as no HTML page holds more posts than a call takes
    arguments, the scrape of the HTML pages never rejects, whatever the
    server answers, so the scrape [run] awaits in its catch block cannot
    reject in its turn: the scraping step of [run] settles without a
    rejection, whatever made the API scrape reject. *)
Theorem fallback_scrape_never_rejects (fuel : nat) (w : world) :
  pages_fit B false ->
  match scrapeAllPosts B cfg false fuel w with
  | Raised _ _ => False
  | _ => True
  end
  /\ match scrape_with_fallback B cfg fuel w with
     | Raised _ _ => False
     | _ => True
     end.
Proof.
  intros Hfit.
  assert (Hdom : forall w0, match scrapeAllPosts B cfg false fuel w0 with
                            | Raised _ _ => False
                            | _ => True
                            end).
  { intros w0. unfold scrapeAllPosts.
    destruct (resume_point cfg w0) as [posts page].
    now apply dom_page_loop_settles. }
  split; [apply Hdom|].
  unfold scrape_with_fallback.
  destruct (scrapeAllPosts B cfg true fuel w) as [p w1|p w1|e w1|w1];
    try exact I.
  apply Hdom.
Qed.

Lemma filter_quiet e (t : list event) :
  is_download e = false ->
  List.filter is_download (t ++ [e]) = List.filter is_download t.
Proof.
  intros He. rewrite List.filter_app. simpl. rewrite He. apply app_nil_r.
Qed.

Lemma fetchApiPage_downloaded fuel : forall page w,
  downloaded (world_of (fetchApiPage B cfg fuel page w)) = downloaded w.
Proof.
  induction fuel as [|fuel IH]; intros page w; simpl; [reflexivity|].
  destruct (server B (ticks w) (api_request cfg page)) as [resp|].
  - destruct (status resp =? 429).
    + rewrite IH. unfold downloaded. simpl.
      now rewrite !filter_quiet by reflexivity.
    + destruct (negb (ok resp)); [now apply filter_quiet|].
      destruct (json resp); now apply filter_quiet.
  - now apply filter_quiet.
Qed.

Lemma fetchDomPage_downloaded fuel : forall page w,
  downloaded (world_of (fetchDomPage B cfg fuel page w)) = downloaded w.
Proof.
  induction fuel as [|fuel IH]; intros page w; simpl; [reflexivity|].
  destruct (server B (ticks w) (dom_request cfg page)) as [resp|].
  - destruct (status resp =? 429).
    + rewrite IH. unfold downloaded. simpl.
      now rewrite !filter_quiet by reflexivity.
    + destruct (negb (ok resp)); [now apply filter_quiet|].
      destruct (articles resp); now apply filter_quiet.
  - now apply filter_quiet.
Qed.

Lemma sleep_downloaded ms w : downloaded (sleep ms w) = downloaded w.
Proof.
  unfold downloaded, sleep, record. simpl.
  rewrite List.filter_app. simpl. apply app_nil_r.
Qed.

Lemma saveProgress_downloaded posts page w :
  downloaded (saveProgress B cfg posts page w) = downloaded w.
Proof.
  unfold downloaded. now rewrite (proj2 (saveProgress_ticks B cfg posts page w)).
Qed.

Lemma retry_loop_downloaded useApi fuel : forall page posts attempt c w,
  downloaded (attempts_world
                (retry_loop B cfg useApi fuel page posts attempt c w))
  = downloaded w.
Proof.
  induction fuel as [|fuel IH]; intros page posts attempt c w.
  - simpl. now destruct (attempt <=? maxRetries cfg).
  - destruct (Z.le_gt_cases attempt (maxRetries cfg)) as [Hle|Hgt].
    + rewrite retry_loop_step by exact Hle.
      assert (Hf : downloaded (world_of (fetchPage B cfg useApi fuel page w))
                   = downloaded w).
      { unfold fetchPage. destruct useApi;
          [apply fetchApiPage_downloaded | apply fetchDomPage_downloaded]. }
      destruct (fetchPage B cfg useApi fuel page w) as [v w1|e w1|w1];
        simpl in Hf; simpl; try exact Hf.
      destruct (5 <=? c + 1).
      * simpl. now rewrite saveProgress_downloaded.
      * rewrite IH. destruct (attempt + 1 <=? maxRetries cfg);
          [now rewrite sleep_downloaded | exact Hf].
    + now rewrite retry_loop_exhausted by exact Hgt.
Qed.

Lemma page_loop_downloaded useApi fuel : forall page posts c w,
  downloaded (scrape_world (page_loop B cfg useApi fuel page posts c w))
  = downloaded w.
Proof.
  induction fuel as [|fuel IH]; intros page posts c w; simpl; [reflexivity|].
  pose proof (retry_loop_downloaded useApi fuel page posts 0 c w) as Hr.
  destruct (retry_loop B cfg useApi fuel page posts 0 c w)
    as [[|pp|] c1 w1|w1|w1]; simpl in Hr; simpl; try exact Hr.
  destruct (max_arguments B <? _); [exact Hr|].
  now rewrite IH, sleep_downloaded, saveProgress_downloaded.
Qed.

Lemma scrape_downloaded useApi fuel w :
  downloaded (scrape_world (scrapeAllPosts B cfg useApi fuel w))
  = downloaded w.
Proof.
  unfold scrapeAllPosts. destruct (resume_point cfg w) as [posts page].
  apply page_loop_downloaded.
Qed.

Lemma fallback_downloaded fuel w :
  downloaded (scrape_world (scrape_with_fallback B cfg fuel w))
  = downloaded w.
Proof.
  unfold scrape_with_fallback.
  pose proof (scrape_downloaded true fuel w) as Ha.
  destruct (scrapeAllPosts B cfg true fuel w) as [p w1|p w1|e w1|w1];
    try exact Ha.
  simpl in Ha. now rewrite scrape_downloaded.
Qed.

End Always.

Lemma api_malformed_fits : pages_fit api_malformed false.
Proof.
  intros n [params|path] resp; simpl; intros [= <-]; simpl; [lia|].
  destruct (List.last path "" =? "1")%string; simpl; lia.
Qed.

Lemma fallback_scrape_never_rejects_witness :
  pages_fit api_malformed false
  /\ (exists w, scrapeAllPosts api_malformed bob true 9 fresh
                = Raised "TypeError" w)
  /\ match scrapeAllPosts api_malformed bob false 9 fresh with
     | Raised _ _ => False
     | _ => True
     end
  /\ match scrape_with_fallback api_malformed bob 9 fresh with
     | Raised _ _ => False
     | _ => True
     end.
Proof.
  split; [exact api_malformed_fits|].
  split; [eexists; reflexivity|].
  apply (fallback_scrape_never_rejects api_malformed bob 9 fresh).
  exact api_malformed_fits.
Defined.

(** A page with more posts than the engine takes arguments does make the
    scrape reject, from [push] outside the [try], and [run] with it when
    the page comes from the HTML search. *)
Example oversized_page_rejects :
  (exists w, scrapeAllPosts cramped bob false 5 fresh = Raised "RangeError" w)
  /\ (exists w, scrape_with_fallback cramped bob 5 fresh
                = Raised "RangeError" w)
  /\ (exists w, run cramped 5 CONFIG only_bob fresh = RunRaised "RangeError" w).
Proof. repeat split; eexists; reflexivity. Qed.

Lemma normalizePosts_length B posts out :
  normalizePosts B posts = Normal out -> length out = length posts.
Proof.
  intros H. apply normalizePosts_each in H.
  induction H; simpl; congruence.
Qed.

(** X21: the downloads of [run] come all or none.  A run that returns
    posts has offered exactly the three files, flat, threaded and JSONL
    in this order and named after the configured identity, after
    everything else it did; a run that returns the empty list, refuses
    its configuration, rejects or is still scraping has offered no
    file. *)
Theorem run_downloads_three_files_or_none (B : browser) (fuel : nat)
    (config : Config) (userConfig : UserConfig) (w : world) :
  match run B fuel config userConfig w with
  | RunPosts (_ :: _) w' =>
      exists before,
        trail w' = (before ++ three_files (Object_assign config userConfig))%list
        /\ List.filter is_download before = downloaded w
  | RunPosts [] w' | RunRefused w' | RunRaised _ w' | RunUnsettled w' =>
      downloaded w' = downloaded w
  end.
Proof.
  unfold run. set (cfg := Object_assign config userConfig).
  destruct (negb (nonempty (username cfg)) && negb (nonempty (tripcode cfg)));
    [reflexivity|].
  pose proof (fallback_downloaded B cfg fuel w) as Hs.
  assert (Hp : forall rawPosts w1,
            downloaded w1 = downloaded w ->
            match process B cfg rawPosts w1 with
            | RunPosts (_ :: _) w' =>
                exists before,
                  trail w' = (before ++ three_files cfg)%list
                  /\ List.filter is_download before = downloaded w
            | RunPosts [] w' | RunRefused w' | RunRaised _ w'
            | RunUnsettled w' => downloaded w' = downloaded w
            end).
  { intros rawPosts w1 Hw1. unfold process.
    destruct rawPosts as [|raw rest]; [exact Hw1|].
    destruct (normalizePosts B (raw :: rest)) as [normalized|e] eqn:Hn;
      [|exact Hw1].
    destruct (groupByThread normalized) as [threads|e]; [|exact Hw1].
    destruct (boards_join normalized); [|exact Hw1].
    apply normalizePosts_length in Hn.
    destruct normalized as [|p ps]; [discriminate|].
    exists (trail w1). split; [|exact Hw1].
    unfold downloads, record, three_files. simpl.
    now rewrite <- !app_assoc. }
  destruct (scrape_with_fallback B cfg fuel w) as [p w1|p w1|e w1|w1];
    simpl in Hs; try exact Hs; now apply Hp.
Qed.

(** ** The answers a run hears, and the circuit breaker *)

Section Heard.

Variable B : browser.
Variable cfg : Config.
Variable useApi : bool.

Lemma fetches_app e1 e2 : fetches (e1 ++ e2) = (fetches e1 + fetches e2)%nat.
Proof.
  induction e1 as [|[req|ms|f] r IH]; simpl; [reflexivity | | |];
    now rewrite IH.
Qed.

Lemma answers_app e1 : forall tick e2,
  answers B useApi tick (e1 ++ e2)
  = (answers B useApi tick e1
     ++ answers B useApi (fetches e1 + tick) e2)%list.
Proof.
  induction e1 as [|[req|ms|f] r IH]; intros tick e2; simpl;
    [reflexivity | | |]; rewrite IH; [|reflexivity|reflexivity].
  now replace (fetches r + S tick)%nat with (S (fetches r + tick)) by lia.
Qed.

Lemma ran_refl w : ran w w [].
Proof. split; [now rewrite app_nil_r | reflexivity]. Qed.

Lemma ran_trans w1 w2 w3 e1 e2 :
  ran w1 w2 e1 -> ran w2 w3 e2 -> ran w1 w3 (e1 ++ e2).
Proof.
  intros [Htr1 Ht1] [Htr2 Ht2]. split.
  - now rewrite Htr2, Htr1, app_assoc.
  - rewrite Ht2, Ht1, fetches_app. lia.
Qed.

Lemma ran_answers w1 w2 e1 e2 :
  ran w1 w2 e1 ->
  answers B useApi (ticks w1) (e1 ++ e2)
  = (answers B useApi (ticks w1) e1 ++ answers B useApi (ticks w2) e2)%list.
Proof. intros [_ Ht]. now rewrite answers_app, Ht. Qed.

Lemma ran_sleep ms w : ran w (sleep ms w) [ESleep ms].
Proof. now split. Qed.

Lemma ran_saveProgress posts page w w1 evs :
  ran w w1 evs -> ran w (saveProgress B cfg posts page w1) evs.
Proof.
  intros [Htr Ht]. unfold ran.
  now rewrite (proj1 (saveProgress_ticks B cfg posts page w1)),
              (proj2 (saveProgress_ticks B cfg posts page w1)).
Qed.

Lemma heard_ran w w' evs :
  ran w w' evs -> heard B useApi w w' = answers B useApi (ticks w) evs.
Proof. intros [Htr _]. unfold heard. now rewrite Htr, drop_app_length. Qed.

Lemma streak_app h1 : forall c h2,
  streak c (h1 ++ h2) = streak (streak c h1) h2.
Proof. induction h1 as [|[| |v] r IH]; intros c h2; simpl; auto. Qed.

Lemma peak_ge h : forall c, (c <= peak c h)%nat.
Proof.
  induction h as [|[| |v] r IH]; intros c; simpl; auto.
  - specialize (IH (S c)). lia.
  - lia.
Qed.

Lemma streak_le_peak h : forall c, (streak c h <= peak c h)%nat.
Proof.
  induction h as [|[| |v] r IH]; intros c; simpl; auto.
  specialize (IH O). lia.
Qed.

Lemma peak_app h1 : forall c h2,
  peak c (h1 ++ h2) = Nat.max (peak c h1) (peak (streak c h1) h2).
Proof.
  induction h1 as [|[| |v] r IH]; intros c h2; simpl; auto.
  - pose proof (peak_ge h2 c). lia.
  - rewrite IH. lia.
Qed.

Lemma collected_app h1 h2 :
  collected (h1 ++ h2) = (collected h1 ++ collected h2)%list.
Proof.
  induction h1 as [|[| |[|pp|]] r IH]; simpl; auto.
  now rewrite IH, app_assoc.
Qed.

(** What one call of [fetchPage] hears: 429s, then a page or a transport
    error (or nothing more, when the budget is used up). *)
Lemma fetchPage_heard fuel : forall page w,
  exists evs,
    ran w (world_of (fetchPage B cfg useApi fuel page w)) evs
    /\ (forall c,
        streak c (answers B useApi (ticks w) evs)
        = match fetchPage B cfg useApi fuel page w with
          | Returned _ _ => O
          | Threw _ _ => S c
          | Pending _ => c
          end
        /\ peak c (answers B useApi (ticks w) evs)
           = match fetchPage B cfg useApi fuel page w with
             | Threw _ _ => S c
             | _ => c
             end)
    /\ collected (answers B useApi (ticks w) evs)
       = match fetchPage B cfg useApi fuel page w with
         | Returned (Posts pp) _ => pp
         | _ => []
         end
    /\ match fetchPage B cfg useApi fuel page w with
       | Threw _ _ =>
           exists evs0,
             evs = (evs0 ++ [EFetch (page_request cfg useApi page)])%list
       | _ => True
       end.
Proof.
  induction fuel as [|fuel IH]; intros page w.
  - exists []. replace (fetchPage B cfg useApi 0 page w) with (@Pending page_value w)
      by (unfold fetchPage; now destruct useApi).
    split; [apply ran_refl|]. simpl. auto.
  - rewrite fetchPage_step. unfold fetch.
    set (req := page_request cfg useApi page).
    set (w1 := {| ticks := S (ticks w); localStorage := localStorage w;
                  trail := (trail w ++ [EFetch req])%list |}).
    assert (Hone : ran w w1 [EFetch req]) by now split.
    assert (Hfail : forall e,
              classify useApi (server B (ticks w) req) = Failed ->
              ran w (world_of (@Threw page_value e w1)) [EFetch req]
              /\ (forall c,
                  streak c (answers B useApi (ticks w) [EFetch req]) = S c
                  /\ peak c (answers B useApi (ticks w) [EFetch req]) = S c)
              /\ collected (answers B useApi (ticks w) [EFetch req]) = []
              /\ exists evs0, [EFetch req] = (evs0 ++ [EFetch req])%list).
    { intros e Hc. simpl. rewrite Hc. simpl.
      repeat split; auto. now exists []. }
    assert (Hpage : forall v,
              classify useApi (server B (ticks w) req) = Page v ->
              ran w (world_of (Returned v w1)) [EFetch req]
              /\ (forall c,
                  streak c (answers B useApi (ticks w) [EFetch req]) = O
                  /\ peak c (answers B useApi (ticks w) [EFetch req]) = c)
              /\ collected (answers B useApi (ticks w) [EFetch req])
                 = match v with Posts pp => pp | _ => [] end
              /\ True).
    { intros v Hc. simpl. rewrite Hc. simpl.
      repeat split; auto; [lia|].
      destruct v; auto. apply app_nil_r. }
    destruct (server B (ticks w) req) as [resp|] eqn:Hr.
    + destruct (status resp =? 429) eqn:H429.
      * destruct (IH page (sleep (retry_delay resp) w1))
          as (evs & Hran & Hsp & Hcol & Hlast).
        exists (EFetch req :: ESleep (retry_delay resp) :: evs).
        assert (Hans : answers B useApi (ticks w)
                         (EFetch req :: ESleep (retry_delay resp) :: evs)
                       = Limited
                         :: answers B useApi
                              (ticks (sleep (retry_delay resp) w1)) evs).
        { simpl. rewrite Hr. unfold classify. now rewrite H429. }
        rewrite Hans. split; [|split; [|split]].
        -- change (EFetch req :: ESleep (retry_delay resp) :: evs)
             with (([EFetch req] ++ [ESleep (retry_delay resp)]) ++ evs)%list.
           eapply ran_trans; [|exact Hran].
           eapply ran_trans; [exact Hone | apply ran_sleep].
        -- intros c. simpl. apply Hsp.
        -- simpl. exact Hcol.
        -- destruct (fetchPage B cfg useApi fuel page _); auto.
           destruct Hlast as [evs0 ->].
           now exists (EFetch req :: ESleep (retry_delay resp) :: evs0).
      * destruct (negb (ok resp)) eqn:Hok.
        -- exists [EFetch req]. apply Hfail.
           unfold classify. now rewrite H429, Hok.
        -- destruct useApi eqn:Hu.
           ++ destruct (json resp) as [data|] eqn:Hj.
              ** exists [EFetch req]. apply Hpage.
                 unfold classify. now rewrite H429, Hok, Hj.
              ** exists [EFetch req]. apply Hfail.
                 unfold classify. now rewrite H429, Hok, Hj.
           ++ exists [EFetch req].
              destruct (articles resp) as [|a r] eqn:Ha.
              ** apply (Hpage Null). unfold classify.
                 now rewrite H429, Hok, Ha.
              ** apply (Hpage (Posts (a :: r))). unfold classify.
                 now rewrite H429, Hok, Ha.
    + exists [EFetch req]. now apply Hfail.
Qed.

(** What the retry loop hears: the count it is left with is the number
    of transport errors in a row at the end of the answers, and it is
    left by the return in the catch block exactly when that number
    reaches 5. *)
Lemma retry_loop_heard fuel : forall page posts attempt (c : nat) w,
  (c < 5)%nat ->
  exists w1 evs,
    ran w w1 evs
    /\ match retry_loop B cfg useApi fuel page posts attempt (Z.of_nat c) w with
       | Left v c' w' =>
           w' = w1
           /\ c' = Z.of_nat (streak c (answers B useApi (ticks w) evs))
           /\ (peak c (answers B useApi (ticks w) evs) < 5)%nat
           /\ collected (answers B useApi (ticks w) evs)
              = match v with Posts pp => pp | _ => [] end
       | Stopped w' =>
           w' = saveProgress B cfg posts page w1
           /\ streak c (answers B useApi (ticks w) evs) = 5%nat
           /\ peak c (answers B useApi (ticks w) evs) = 5%nat
           /\ collected (answers B useApi (ticks w) evs) = []
           /\ exists evs0,
                evs = (evs0 ++ [EFetch (page_request cfg useApi page)])%list
       | Waiting w' =>
           w' = w1 /\ (peak c (answers B useApi (ticks w) evs) < 5)%nat
       end.
Proof.
  induction fuel as [|fuel IH]; intros page posts attempt c w Hc.
  - exists w, []. split; [apply ran_refl|]. simpl.
    destruct (attempt <=? maxRetries cfg); simpl; auto.
  - destruct (Z.le_gt_cases attempt (maxRetries cfg)) as [Hle|Hgt].
    + rewrite retry_loop_step by exact Hle.
      destruct (fetchPage_heard fuel page w)
        as (evs1 & Hran1 & Hsp & Hcol & Hlast).
      destruct (Hsp c) as [Hstreak Hpeak].
      destruct (fetchPage B cfg useApi fuel page w) as [v w1|e w1|w1];
        simpl in Hran1.
      * exists w1, evs1. split; [exact Hran1|].
        rewrite Hstreak, Hpeak, Hcol. auto.
      * destruct (Z.leb_spec 5 (Z.of_nat c + 1)) as [Hfive|Hless].
        -- exists w1, evs1. split; [exact Hran1|].
           rewrite Hstreak, Hpeak, Hcol.
           repeat split; auto; lia.
        -- set (w2 := if attempt + 1 <=? maxRetries cfg
                      then sleep (Some (retryBackoffMs cfg * (attempt + 1))) w1
                      else w1).
           assert (Hran2 : exists evs2,
                     ran w w2 (evs1 ++ evs2)
                     /\ answers B useApi (ticks w) (evs1 ++ evs2)
                        = answers B useApi (ticks w) evs1).
           { unfold w2. destruct (attempt + 1 <=? maxRetries cfg).
             - eexists. split; [eapply ran_trans; [exact Hran1|apply ran_sleep]|].
               rewrite (ran_answers _ _ _ _ Hran1). simpl. apply app_nil_r.
             - exists []. rewrite app_nil_r. auto. }
           destruct Hran2 as (evs2 & Hran2 & Hans2).
           replace (Z.of_nat c + 1) with (Z.of_nat (S c)) by lia.
           destruct (IH page posts (attempt + 1) (S c) w2 ltac:(lia))
             as (w3 & evs3 & Hran3 & Hres).
           exists w3, ((evs1 ++ evs2) ++ evs3)%list.
           split; [eapply ran_trans; eassumption|].
           rewrite (ran_answers _ _ _ _ Hran2), Hans2.
           rewrite streak_app, peak_app, collected_app, Hstreak, Hpeak, Hcol.
           pose proof (peak_ge (answers B useApi (ticks w2) evs3) (S c)).
           rewrite Nat.max_r by lia. simpl.
           destruct (retry_loop B cfg useApi fuel page posts (attempt + 1)
                       (Z.of_nat (S c)) w2) as [v c' w'|w'|w'].
           ++ exact Hres.
           ++ destruct Hres as (Hw & Hs5 & Hp5 & Hcol5 & evs0 & ->).
              repeat split; auto.
              exists ((evs1 ++ evs2) ++ evs0)%list. now rewrite app_assoc.
           ++ exact Hres.
      * exists w1, evs1. split; [exact Hran1|]. rewrite Hpeak. auto.
    + rewrite retry_loop_exhausted by exact Hgt.
      exists w, []. split; [apply ran_refl|]. simpl. auto.
Qed.

(** What a run hears: it ends by the return in the catch block exactly
    when the answers end on five transport errors in a row, and never
    hears five in a row otherwise. *)
Lemma page_loop_heard fuel : forall page posts (c : nat) w,
  (c < 5)%nat ->
  exists evs,
    ran w (scrape_world (page_loop B cfg useApi fuel page posts (Z.of_nat c) w))
        evs
    /\ match page_loop B cfg useApi fuel page posts (Z.of_nat c) w with
       | Aborted posts' w' =>
           streak c (answers B useApi (ticks w) evs) = 5%nat
           /\ peak c (answers B useApi (ticks w) evs) = 5%nat
           /\ posts' = (posts ++ collected (answers B useApi (ticks w) evs))%list
           /\ exists page' w1 before,
                w' = saveProgress B cfg posts' page' w1
                /\ trail w1
                   = (before ++ [EFetch (page_request cfg useApi page')])%list
       | _ => (peak c (answers B useApi (ticks w) evs) < 5)%nat
       end.
Proof.
  induction fuel as [|fuel IH]; intros page posts c w Hc.
  - exists []. split; [apply ran_refl | exact Hc].
  - simpl.
    destruct (retry_loop_heard fuel page posts 0 c w Hc)
      as (w1 & evs1 & Hran1 & Hres).
    destruct (retry_loop B cfg useApi fuel page posts 0 (Z.of_nat c) w)
      as [v c1 w'|w'|w'].
    + destruct Hres as (-> & -> & Hpeak & Hcol).
      destruct v as [|pp|].
      * exists evs1. split; [exact Hran1 | exact Hpeak].
      * destruct (max_arguments B <? Z.of_nat (length pp)).
        -- exists evs1. split; [exact Hran1 | exact Hpeak].
        -- set (w2 := sleep (Some (delayMs cfg))
                        (saveProgress B cfg (posts ++ pp) (page + 1) w1)).
           assert (Hran2 : ran w w2 (evs1 ++ [ESleep (Some (delayMs cfg))])).
           { eapply ran_trans; [|apply ran_sleep].
             now apply ran_saveProgress. }
           assert (Hans2 : answers B useApi (ticks w)
                             (evs1 ++ [ESleep (Some (delayMs cfg))])
                           = answers B useApi (ticks w) evs1).
           { rewrite (ran_answers _ _ _ _ Hran1). simpl. apply app_nil_r. }
           pose proof (streak_le_peak (answers B useApi (ticks w) evs1) c).
           destruct (IH (page + 1) (posts ++ pp)%list
                       (streak c (answers B useApi (ticks w) evs1)) w2
                       ltac:(lia)) as (evs3 & Hran3 & Hres3).
           exists ((evs1 ++ [ESleep (Some (delayMs cfg))]) ++ evs3)%list.
           split; [eapply ran_trans; eassumption|].
           rewrite (ran_answers _ _ _ _ Hran2), Hans2.
           rewrite streak_app, peak_app, collected_app, Hcol.
           destruct (page_loop B cfg useApi fuel (page + 1) (posts ++ pp)
                       (Z.of_nat (streak c (answers B useApi (ticks w) evs1)))
                       w2) as [p w3|p w3|e w3|w3]; try lia.
           destruct Hres3 as (Hs5 & Hp5 & -> & Hsaved).
           split; [exact Hs5|]. split; [lia|].
           split; [now rewrite app_assoc | exact Hsaved].
      * exists evs1. split; [exact Hran1 | exact Hpeak].
    + destruct Hres as (-> & Hs5 & Hp5 & Hcol & evs0 & ->).
      exists (evs0 ++ [EFetch (page_request cfg useApi page)])%list.
      split; [now apply ran_saveProgress|].
      rewrite Hcol, app_nil_r. repeat split; auto.
      exists page, w1, (trail w ++ evs0)%list.
      split; [reflexivity|]. destruct Hran1 as [-> _]. now rewrite app_assoc.
    + destruct Hres as (-> & Hpeak). exists evs1. split; assumption.
Qed.

(** The circuit-broken return happens in no other way, and a run never
    hears a sixth transport error in a row. *)
Lemma breaker_needs_five_errors (fuel : nat) (w : world) :
  let s := scrapeAllPosts B cfg useApi fuel w in
  let h := heard B useApi w (scrape_world s) in
  match s with
  | Aborted _ _ => peak 0 h = 5%nat
  | _ => (peak 0 h < 5)%nat
  end.
Proof.
  intros s h. subst s h. unfold scrapeAllPosts.
  destruct (resume_point cfg w) as [seed page0].
  destruct (page_loop_heard fuel page0 seed 0 w ltac:(lia))
    as (evs & Hran & Hres).
  change (Z.of_nat 0) with 0 in *.
  rewrite (heard_ran _ _ _ Hran).
  destruct (page_loop B cfg useApi fuel page0 seed 0 w)
    as [p w'|p w'|e w'|w']; try exact Hres.
  now destruct Hres as (_ & Hp5 & _).
Qed.

(** C2: whenever a run hears five transport errors in a row, with no
    page in between (429s do not count, and a page starts the count
    again), it ends there by the return in the catch block: the fifth
    error is the last answer it hears, the posts it returns are the
    posts it loaded followed by those of the pages it heard, and it has
    called [saveProgress] with these posts and the page of the failed
    request, which leaves them checkpointed when the storage takes the
    record.  This holds whatever [maxRetries] is and wherever in the run
    the errors occur.  Conversely, a run ends in this way only when it
    has heard five transport errors in a row: errors with a page in
    between, however many, do not add up. *)
Theorem five_consecutive_errors_trip_the_breaker (fuel : nat) (w : world) :
  let s := scrapeAllPosts B cfg useApi fuel w in
  let h := heard B useApi w (scrape_world s) in
  ((5 <= peak 0 h)%nat ->
   exists posts page w1 before,
     s = Aborted posts (saveProgress B cfg posts page w1)
     /\ streak 0 h = 5%nat
     /\ peak 0 h = 5%nat
     /\ posts = (fst (resume_point cfg w) ++ collected h)%list
     /\ trail w1 = (before ++ [EFetch (page_request cfg useApi page)])%list
     /\ (quota_ok B (progress_doc B cfg posts page w1) = true ->
         checkpoint cfg posts page
           (localStorage (saveProgress B cfg posts page w1)
              !! storageKey cfg)))
  /\ (forall posts w', s = Aborted posts w' -> (5 <= peak 0 h)%nat).
Proof.
  intros s h. split.
  - subst s h. unfold scrapeAllPosts.
    destruct (resume_point cfg w) as [seed page0]. cbn [fst].
    destruct (page_loop_heard fuel page0 seed 0 w ltac:(lia))
      as (evs & Hran & Hres).
    change (Z.of_nat 0) with 0 in *.
    rewrite (heard_ran _ _ _ Hran).
    destruct (page_loop B cfg useApi fuel page0 seed 0 w)
      as [p w'|p w'|e w'|w']; try lia.
    intros _.
    destruct Hres as (Hs5 & Hp5 & -> & page & w1 & before & -> & Htr).
    exists (seed ++ collected (answers B useApi (ticks w) evs))%list,
           page, w1, before.
    repeat split; auto.
    intros Hq. unfold saveProgress. fold (progress_doc B cfg
      (seed ++ collected (answers B useApi (ticks w) evs)) page w1).
    rewrite Hq. simpl. rewrite lookup_insert_eq.
    eexists. split; [reflexivity|]. now simpl.
  - intros posts w' Hs. pose proof (breaker_needs_five_errors fuel w) as Hn.
    cbv zeta in Hn. fold s h in Hn. rewrite Hs in Hn. lia.
Qed.

End Heard.

(** Four errors, a page and four errors more do not trip the breaker. *)
Example errors_with_a_page_in_between :
  let B := scripted [e500; e500; e500; e500; Some (api_posts [post1]);
                     e500; e500; e500; e500; Some api_end] in
  let s := scrapeAllPosts B patient true 20 fresh in
  ending_of s = Some (EndCompleted [post1])
  /\ heard B true fresh (scrape_world s)
     = [Failed; Failed; Failed; Failed; Page (Posts [post1]);
        Failed; Failed; Failed; Failed; Page Null]
  /\ peak 0 (heard B true fresh (scrape_world s)) = 4%nat.
Proof. repeat split; vm_compute; reflexivity. Qed.

Lemma five_consecutive_errors_trip_the_breaker_witness :
  let s := scrapeAllPosts failing_after_first_page patient true 8 fresh in
  heard failing_after_first_page true fresh (scrape_world s)
  = [Page (Posts [post1; post2]); Failed; Failed; Failed; Failed; Failed]
  /\ s = Aborted [post1; post2] (scrape_world s)
  /\ exists posts page w1 before,
       s = Aborted posts (saveProgress failing_after_first_page patient
                            posts page w1)
       /\ streak 0 (heard failing_after_first_page true fresh (scrape_world s))
          = 5%nat
       /\ peak 0 (heard failing_after_first_page true fresh (scrape_world s))
          = 5%nat
       /\ posts
          = (fst (resume_point patient fresh)
             ++ collected (heard failing_after_first_page true fresh
                             (scrape_world s)))%list
       /\ trail w1 = (before ++ [EFetch (page_request patient true page)])%list
       /\ (quota_ok failing_after_first_page
             (progress_doc failing_after_first_page patient posts page w1)
           = true ->
           checkpoint patient posts page
             (localStorage (saveProgress failing_after_first_page patient
                              posts page w1) !! storageKey patient)).
Proof.
  intros s. split; [vm_compute; reflexivity|].
  split; [vm_compute; reflexivity|].
  apply (five_consecutive_errors_trip_the_breaker failing_after_first_page
           patient true 8 fresh).
  vm_compute. lia.
Defined.
